(** * Verification of the recursive file renamer

    Shallow embedding of [file-and-directory-rename.py].

    Strings are lists of characters.  A character is a code point below 256
    (Rocq's [ascii]), read as Latin-1: on that range Python's [str.lower]
    is the character-wise map [lower_char] below, and every definition of
    this file is the exact behaviour of the Python code on such strings.
    Paths follow [posixpath]. *)

From Stdlib Require Import List Bool Arith ZArith Lia Ascii String.
Import ListNotations.

Set Implicit Arguments.
Local Open Scope list_scope.

(* ================================================================= *)
(** ** Strings *)

Definition str := list ascii.

Definition lit (s : string) : str := list_ascii_of_string s.

Definition str_eqb (a b : str) : bool :=
  if list_eq_dec ascii_dec a b then true else false.

Definition chr (c : ascii) : nat := nat_of_ascii c.

Definition between (lo hi : ascii) (c : ascii) : bool :=
  (chr lo <=? chr c) && (chr c <=? chr hi).

(** [c in s] *)
Definition contains (c : ascii) (s : str) : bool :=
  existsb (Ascii.eqb c) s.

(** [s.startswith(c)] for a one-character prefix. *)
Definition startswith (c : ascii) (s : str) : bool :=
  match s with
  | a :: _ => Ascii.eqb a c
  | [] => false
  end.

(** [s.endswith(c)] for a one-character suffix. *)
Definition endswith (c : ascii) (s : str) : bool :=
  startswith c (rev s).

(** [s.rfind(c)]: index of the last occurrence, [-1] when there is none. *)
Fixpoint rfind (c : ascii) (s : str) : Z :=
  match s with
  | [] => (-1)%Z
  | a :: s' =>
      let r := rfind c s' in
      if (0 <=? r)%Z then (r + 1)%Z
      else if Ascii.eqb a c then 0%Z else (-1)%Z
  end.

(** [s[i:j]] for [0 <= i], [0 <= j]. *)
Definition slice (i j : Z) (s : str) : str :=
  firstn (Z.to_nat j - Z.to_nat i) (skipn (Z.to_nat i) s).

(** [s.replace(a, b)] for one-character [a] and [b]. *)
Definition replace (a b : ascii) (s : str) : str :=
  map (fun c => if Ascii.eqb c a then b else c) s.

(** [str.lower] on one Latin-1 character: [A-Z] and the accented capitals
    U+00C0..U+00DE (U+00D7, the multiplication sign, apart) move up by 32. *)
Definition lower_char (c : ascii) : ascii :=
  if between "A" "Z" c then ascii_of_nat (chr c + 32)
  else if (192 <=? chr c) && (chr c <=? 222) && negb (chr c =? 215)
       then ascii_of_nat (chr c + 32)
       else c.

Definition lower (s : str) : str := map lower_char s.

(* ================================================================= *)
(** ** posixpath *)

(** [os.path.splitext]: the extension starts at the last dot of the last
    path component, leading dots of that component do not count. *)
Definition splitext (p : str) : str * str :=
  let sepIndex := rfind "/" p in
  let dotIndex := rfind "." p in
  if (sepIndex <? dotIndex)%Z
     && existsb (fun c => negb (Ascii.eqb c "."))
                (slice (sepIndex + 1) dotIndex p)
  then (firstn (Z.to_nat dotIndex) p, skipn (Z.to_nat dotIndex) p)
  else (p, []).

(** [os.path.basename]. *)
Definition basename (p : str) : str :=
  skipn (Z.to_nat (rfind "/" p + 1)) p.

(** [os.path.join(a, b)]. *)
Definition join (a b : str) : str :=
  if startswith "/" b || match a with [] => true | _ => false end then b
  else if endswith "/" a then a ++ b
  else a ++ "/"%char :: b.

(* ================================================================= *)
(** ** The name normalizer *)

(** The character class [[a-zA-Z0-9.]] of the regular expression. *)
Definition in_class (c : ascii) : bool :=
  between "a" "z" c || between "A" "Z" c || between "0" "9" c
  || Ascii.eqb c ".".

(** [re.sub(r'[^a-zA-Z0-9.]+', '-', s)]: scanning from the left, every
    maximal run of characters outside the class is one match and is replaced
    by a hyphen.  [re_sub] is the scanner between matches, [re_skip] the
    scanner inside a match. *)
Fixpoint re_sub (s : str) : str :=
  match s with
  | [] => []
  | c :: s' => if in_class c then c :: re_sub s' else "-"%char :: re_skip s'
  end
with re_skip (s : str) : str :=
  match s with
  | [] => []
  | c :: s' => if in_class c then c :: re_sub s' else re_skip s'
  end.

Definition should_rename (name : str) : bool :=
  contains " " name || contains "_" name || negb (str_eqb name (lower name)).

Definition get_new_name (name : str) : str :=
  let '(base, ext) := splitext name in
  let base := replace "_" "-" (replace " " "-" base) in
  let base := re_sub base in
  lower (base ++ ext).

Definition is_hidden (file_path : str) : bool :=
  startswith "." (basename file_path).

(* ================================================================= *)
(** ** The directory tree

    The tree below the directory given on the command line, as the program
    observes it: [os.listdir] yields the names of [entries] in list order,
    [os.path.islink] holds of a [Link] (whatever it points to) and
    [os.path.isdir], which the program asks of no link, of a [Dir]; what a
    link leads to is told by the trees of [Symlinks] further down.  [id]
    identifies the entry itself, so that an entry can be followed through
    renames: two names of one directory with one [id] are hard links to one
    file. *)

#[warnings="-register-all"]
Inductive node : Type :=
| File (name : str) (id : nat)
| Link (name : str) (id : nat)
| Dir (name : str) (id : nat) (entries : list node).

Definition name_of (e : node) : str :=
  match e with
  | File n _ | Link n _ | Dir n _ _ => n
  end.

Definition id_of (e : node) : nat :=
  match e with
  | File _ i | Link _ i | Dir _ i _ => i
  end.

Definition islink (e : node) : bool :=
  match e with Link _ _ => true | _ => false end.

(** [os.path.isdir] of an entry that is not a link. *)
Definition isdir (e : node) : bool :=
  match e with Dir _ _ _ => true | _ => false end.

(** A plan item and a log entry are pairs of paths. *)
Definition item : Type := str * str.

(* ================================================================= *)
(** ** The tree walker *)

(** The loop of [collect_renames] over [os.listdir(directory_path)], with
    its two accumulators; [recur entry_path e] stands for the recursive call
    [collect_renames(entry_path)] on the directory [e]. *)
Section CollectLoop.
Variable recur : str -> node -> list item.

Fixpoint collect_loop (directory_path : str) (todo : list node)
  (file_renames dir_renames : list item) {struct todo} : list item :=
  match todo with
  | [] => file_renames ++ dir_renames
  | e :: todo' =>
      let entry := name_of e in
      let entry_path := join directory_path entry in
      if is_hidden entry_path || islink e
      then collect_loop directory_path todo' file_renames dir_renames
      else
        let new_name := get_new_name entry in
        let new_path := join directory_path new_name in
        if isdir e
        then collect_loop directory_path todo'
               (file_renames ++ recur entry_path e)
               (dir_renames ++ [(entry_path, new_path)])
        else if should_rename entry
        then collect_loop directory_path todo'
               (file_renames ++ [(entry_path, new_path)]) dir_renames
        else collect_loop directory_path todo' file_renames dir_renames
  end.
End CollectLoop.

(** [collect_renames(directory_path)] when [directory_path] is the
    directory [d]. *)
Fixpoint collect_dir (directory_path : str) (d : node) {struct d}
  : list item :=
  match d with
  | Dir _ _ listing => collect_loop collect_dir directory_path listing [] []
  | _ => []
  end.

(** [collect_renames(directory_path)] when [os.listdir(directory_path)]
    is [listing]. *)
Definition collect_renames (directory_path : str) (listing : list node)
  : list item :=
  collect_loop collect_dir directory_path listing [] [].

(* ================================================================= *)
(** ** The operating system

    [os.rename] is modelled on the tree below the directory [mount], for the
    paths [os.path.join] builds from [mount]: the path is read relative to
    [mount] and cut at its separators, and the entry is renamed inside its
    directory as rename(2) does.  A call the model does not cover (a path
    outside [mount], a move to another directory, a path through a symbolic
    link, an empty, [.] or [..] component) is [Unmodelled], never an error
    of the model's own making. *)

Inductive os_result : Type :=
| Done (listing : list node)
| OSError
| Unmodelled.

Fixpoint strip_prefix (pre s : str) : option str :=
  match pre, s with
  | [], _ => Some s
  | a :: pre', b :: s' => if Ascii.eqb a b then strip_prefix pre' s' else None
  | _ :: _, [] => None
  end.

(** [s.split(c)] *)
Fixpoint split (c : ascii) (s : str) : list str :=
  match s with
  | [] => [[]]
  | a :: s' =>
      if Ascii.eqb a c then [] :: split c s'
      else match split c s' with
           | w :: ws => (a :: w) :: ws
           | [] => [[a]]
           end
  end.

Definition valid_name (n : str) : bool :=
  negb (str_eqb n []) && negb (contains "/" n)
  && negb (str_eqb n (lit ".")) && negb (str_eqb n (lit "..")).

Definition named (n : str) (e : node) : bool := str_eqb (name_of e) n.

Definition set_name (n : str) (e : node) : node :=
  match e with
  | File _ i => File n i
  | Link _ i => Link n i
  | Dir _ i sub => Dir n i sub
  end.

Definition set_entries (sub : list node) (e : node) : node :=
  match e with
  | Dir n i _ => Dir n i sub
  | _ => e
  end.

(** rename(2) replaces an existing destination when both are not
    directories, or when both are and the destination is empty. *)
Definition replaceable (src dst : node) : bool :=
  match src, dst with
  | Dir _ _ _, Dir _ _ [] => true
  | Dir _ _ _, _ => false
  | _, Dir _ _ _ => false
  | _, _ => true
  end.

(** Two names of one file: hard links. *)
Definition same_file (src dst : node) : bool :=
  match src, dst with
  | File _ i, File _ j | Link _ i, Link _ j => Nat.eqb i j
  | _, _ => false
  end.

(** Renaming the entry [n] of a directory to [n'], in that directory;
    rename(2) does nothing, and succeeds, when both names are hard links to
    one file. *)
Definition rename_within (listing : list node) (n n' : str) : os_result :=
  match find (named n) listing with
  | None => OSError
  | Some src =>
      if str_eqb n n' then Done listing
      else
        let moved :=
          map (fun e => if named n e then set_name n' e else e) in
        match find (named n') listing with
        | None => Done (moved listing)
        | Some dst =>
            if same_file src dst then Done listing
            else if replaceable src dst
            then Done (moved (filter (fun e => negb (named n' e)) listing))
            else OSError
        end
  end.

(** Both paths are walked down together, component by component. *)
Fixpoint rename_path (listing : list node) (old new : list str)
  {struct old} : os_result :=
  match old, new with
  | [n], [n'] =>
      if valid_name n && valid_name n' then rename_within listing n n'
      else Unmodelled
  | n :: ((_ :: _) as old'), n' :: ((_ :: _) as new') =>
      if valid_name n && str_eqb n n'
      then match find (named n) listing with
           | Some (Dir _ _ sub) =>
               match rename_path sub old' new' with
               | Done sub' =>
                   Done (map (fun e => if named n e then set_entries sub' e
                                       else e) listing)
               | r => r
               end
           | Some (Link _ _) => Unmodelled
           | Some (File _ _) => OSError
           | None => OSError
           end
      else Unmodelled
  | _, _ => Unmodelled
  end.

Definition os_rename (mount : str) (listing : list node) (src dst : str)
  : os_result :=
  match strip_prefix (join mount []) src, strip_prefix (join mount []) dst with
  | Some s, Some d => rename_path listing (split "/" s) (split "/" d)
  | _, _ => Unmodelled
  end.

(* ================================================================= *)
(** ** Programs

    A program runs in a [world]: the tree below [mount], the log file of the
    working directory ([None] while it does not exist), what was reported
    through [logging], and the calls of [os.rename] made so far.  The log
    file is kept apart from the tree: where the working directory lies
    inside the tree, the file is an entry of the tree as well, which [disk]
    does not show. *)

Inductive report : Type :=
| Info (msg : str)
| ErrorRenaming (old_file_name : str)
| ErrorUndoing
| ErrorNoLogFile.

Record world : Type := World {
  mount : str;
  disk : list node;
  log_file : option (list item);
  output : list report;
  syscalls : list (str * str)
}.

Inductive exn : Type := ValueError.

Inductive outcome (A : Type) : Type :=
| Returns (a : A)
| Raises (e : exn)
| Outside.

Arguments Raises {A} e.
Arguments Outside {A}.

Definition prog (A : Type) : Type := world -> outcome A * world.

Definition ret {A : Type} (a : A) : prog A := fun w => (Returns a, w).

Definition bind {A B : Type} (m : prog A) (k : A -> prog B) : prog B :=
  fun w =>
    match m w with
    | (Returns a, w') => k a w'
    | (Raises e, w') => (Raises e, w')
    | (Outside, w') => (Outside, w')
    end.

Notation "x <- m ;; k" := (bind m (fun x => k))
  (at level 61, m at next level, right associativity).

Definition logging (r : report) : prog unit :=
  fun w => (Returns tt,
            World (mount w) (disk w) (log_file w) (output w ++ [r])
                  (syscalls w)).

(** [try: os.rename(src, dst)], telling whether it went through. *)
Definition try_rename (src dst : str) : prog bool :=
  fun w =>
    match os_rename (mount w) (disk w) src dst with
    | Done d =>
        (Returns true,
         World (mount w) d (log_file w) (output w)
               (syscalls w ++ [(src, dst)]))
    | OSError =>
        (Returns false,
         World (mount w) (disk w) (log_file w) (output w)
               (syscalls w ++ [(src, dst)]))
    | Unmodelled => (Outside, w)
    end.

(** [f"{s: <{width}}"] *)
Definition ljust (s : str) (width : nat) : str :=
  s ++ repeat " "%char (width - List.length s).

Definition quoted (s : str) : str := "'"%char :: s ++ ["'"%char].

(** [max] of a sequence of lengths: [None] is the [ValueError] Python
    raises on an empty one. *)
Definition py_max (l : list nat) : option nat :=
  match l with
  | [] => None
  | n :: l' => Some (fold_left Nat.max l' n)
  end.

(** The list [rename_log] is passed in and handed back. *)
Definition rename_entry (old_path new_name : str) (dry_run : bool)
  (rename_log : list item) (max_name_length : nat) : prog (list item) :=
  let old_file_name := basename old_path in
  let new_file_name := basename new_name in
  if dry_run then
    _ <- logging (Info (lit "[Dry Run] Would rename "
                        ++ quoted (ljust old_file_name max_name_length)
                        ++ lit " to " ++ quoted new_file_name)) ;;
    ret rename_log
  else
    ok <- try_rename old_path new_name ;;
    if ok : bool then
      _ <- logging (Info (lit "Renamed "
                          ++ quoted (ljust old_file_name max_name_length)
                          ++ lit " to " ++ quoted new_file_name)) ;;
      ret (rename_log ++ [(new_name, old_path)])
    else
      _ <- logging (ErrorRenaming old_file_name) ;;
      ret rename_log.

(** The loop of [rename_recursively] over the plan. *)
Fixpoint rename_all (to_rename : list item) (dry_run : bool)
  (rename_log : list item) (max_name_length : nat) : prog (list item) :=
  match to_rename with
  | [] => ret rename_log
  | (old_path, new_path) :: rest =>
      rename_log' <- rename_entry old_path new_path dry_run rename_log
                                  max_name_length ;;
      rename_all rest dry_run rename_log' max_name_length
  end.

(** [os.listdir] of the mounted directory. *)
Definition listdir (directory_path : str) : prog (list node) :=
  fun w =>
    if str_eqb directory_path (mount w) then (Returns (disk w), w)
    else (Outside, w).

Definition rename_recursively (directory_path : str) (dry_run : bool)
  : prog (list item) :=
  let rename_log := [] in
  listing <- listdir directory_path ;;
  let to_rename := collect_renames directory_path listing in
  match py_max (map (fun it : item => List.length (basename (fst it))) to_rename)
  with
  | None => fun w => (Raises ValueError, w)
  | Some max_name_length =>
      rename_all to_rename dry_run rename_log max_name_length
  end.

(** The loop of [undo_renames] over the reversed log. *)
Fixpoint undo_all (reversed_log : list item) (max_name_length : nat)
  : prog unit :=
  match reversed_log with
  | [] => ret tt
  | (new_path, old_path) :: rest =>
      let new_file_name := basename new_path in
      let old_file_name := basename old_path in
      ok <- try_rename new_path old_path ;;
      _ <- (if ok : bool
            then logging (Info (lit "Undo: Renamed back "
                                ++ quoted (ljust new_file_name max_name_length)
                                ++ lit " to " ++ quoted old_file_name))
            else logging ErrorUndoing) ;;
      undo_all rest max_name_length
  end.

Definition undo_renames (rename_log : list item) : prog unit :=
  match py_max (map (fun it : item => List.length (basename (fst it))) rename_log)
  with
  | None => logging (Info (lit "No rename operations to undo."))
  | Some max_name_length => undo_all (rev rename_log) max_name_length
  end.

Definition save_rename_log (rename_log : list item) : prog unit :=
  fun w => (Returns tt,
            World (mount w) (disk w) (Some rename_log) (output w)
                  (syscalls w)).

Definition load_rename_log : prog (list item) :=
  fun w =>
    match log_file w with
    | Some rename_log => (Returns rename_log, w)
    | None => (_ <- logging ErrorNoLogFile ;; ret []) w
    end.

Record arguments : Type := Arguments {
  directory : str;
  dry_run_flag : bool;
  undo_flag : bool
}.

Definition main (args : arguments) : prog unit :=
  if undo_flag args then
    rename_log <- load_rename_log ;;
    undo_renames rename_log
  else
    rename_log <- rename_recursively (directory args) (dry_run_flag args) ;;
    save_rename_log rename_log.

(* ================================================================= *)
(** ** The normalizer as the specification words it

    The specification describes [normalize] in words; the definitions below
    follow those words, to be compared with [get_new_name]. *)

(** Base and extension, the extension being the suffix from the last dot
    on (empty when the name has no dot). *)
Fixpoint split_last_dot (name : str) : str * str :=
  match name with
  | [] => ([], [])
  | c :: rest =>
      let '(b, e) := split_last_dot rest in
      match e with
      | [] => if Ascii.eqb c "." then ([], c :: rest) else (c :: b, [])
      | _ :: _ => (c :: b, e)
      end
  end.

(** The maximal runs of a string, each with the side of the character class
    it lies on. *)
Fixpoint runs (s : str) : list (bool * str) :=
  match s with
  | [] => []
  | c :: s' =>
      match runs s' with
      | (k, r) :: rs =>
          if Bool.eqb k (in_class c) then (k, c :: r) :: rs
          else (in_class c, [c]) :: (k, r) :: rs
      | [] => [(in_class c, [c])]
      end
  end.

(** Every run outside the class becomes one hyphen. *)
Definition collapse (s : str) : str :=
  flat_map (fun kr : bool * str => if fst kr then snd kr else ["-"%char])
           (runs s).

Definition hyphenate (c : ascii) : ascii :=
  if Ascii.eqb c " " || Ascii.eqb c "_" then "-"%char else c.

Definition normalize_with (splitter : str -> str * str) (name : str) : str :=
  let '(base, ext) := splitter name in
  lower (collapse (map hyphenate base) ++ ext).

(** [normalize] with the split at the last dot. *)
Definition normalize_words : str -> str := normalize_with split_last_dot.

(** The last path component. *)
Definition last_component (p : str) : str := last (split "/" p) [].

(** The split at the last dot, unless a separator follows that dot or
    nothing but dots precedes it in its path component: then the whole name
    is the base. *)
Definition split_last_dot_of_component (name : str) : str * str :=
  let '(b, e) := split_last_dot name in
  if contains "/" e || forallb (fun c => Ascii.eqb c ".") (last_component b)
  then (name, [])
  else (b, e).

Definition normalize_amended : str -> str :=
  normalize_with split_last_dot_of_component.

(** A base is tidy when each of its characters outside [[a-zA-Z0-9.]] is a
    hyphen standing alone. *)
Fixpoint tidy (s : str) : bool :=
  match s with
  | [] => true
  | c :: s' =>
      (in_class c
       || (Ascii.eqb c "-"
           && match s' with [] => true | d :: _ => in_class d end))
      && tidy s'
  end.

(* ================================================================= *)
(** ** The plan with its items labelled

    The walker of the source returns bare pairs.  [collect_tagged] is the
    same loop with each item labelled by the branch that appended it;
    erasing the labels gives [collect_renames] back
    ([collect_tagged_erase]). *)

Inductive kind : Type := IsFile | IsDir.

Definition tagged : Type := (kind * item)%type.

Section TaggedLoop.
Variable recur : str -> node -> list tagged.

Fixpoint tagged_loop (directory_path : str) (todo : list node)
  (file_renames dir_renames : list tagged) {struct todo} : list tagged :=
  match todo with
  | [] => file_renames ++ dir_renames
  | e :: todo' =>
      let entry := name_of e in
      let entry_path := join directory_path entry in
      if is_hidden entry_path || islink e
      then tagged_loop directory_path todo' file_renames dir_renames
      else
        let new_name := get_new_name entry in
        let new_path := join directory_path new_name in
        if isdir e
        then tagged_loop directory_path todo'
               (file_renames ++ recur entry_path e)
               (dir_renames ++ [(IsDir, (entry_path, new_path))])
        else if should_rename entry
        then tagged_loop directory_path todo'
               (file_renames ++ [(IsFile, (entry_path, new_path))])
               dir_renames
        else tagged_loop directory_path todo' file_renames dir_renames
  end.
End TaggedLoop.

Fixpoint tagged_dir (directory_path : str) (d : node) {struct d}
  : list tagged :=
  match d with
  | Dir _ _ listing => tagged_loop tagged_dir directory_path listing [] []
  | _ => []
  end.

Definition collect_tagged (directory_path : str) (listing : list node)
  : list tagged :=
  tagged_loop tagged_dir directory_path listing [] [].

(** [x] occurs in [l] and [y] occurs later. *)
Definition before {A : Type} (x y : A) (l : list A) : Prop :=
  exists l1 l2 l3, l = l1 ++ x :: l2 ++ y :: l3.

(** All file items, then all directory items. *)
Definition files_then_dirs (plan : list tagged) : Prop :=
  exists fs ds,
    plan = fs ++ ds
    /\ Forall (fun t => fst t = IsFile) fs
    /\ Forall (fun t => fst t = IsDir) ds.

(** The item of a directory and the item of one of its subdirectories. *)
Definition subdirectory_item (d s : tagged) : Prop :=
  fst d = IsDir /\ fst s = IsDir
  /\ exists m, valid_name m = true /\ fst (snd s) = join (fst (snd d)) m.

(** Directory items shallow-first. *)
Definition shallow_first (plan : list tagged) : Prop :=
  forall d s, In d plan -> In s plan -> subdirectory_item d s ->
              before d s plan.

(** What one entry of a directory contributes below the directory's own
    subdirectory items, and to them. *)
Definition skipped (directory_path : str) (e : node) : bool :=
  is_hidden (join directory_path (name_of e)) || islink e.

Definition renamed_to (directory_path : str) (e : node) : item :=
  (join directory_path (name_of e),
   join directory_path (get_new_name (name_of e))).

Definition gathered (directory_path : str) (e : node) : list tagged :=
  if skipped directory_path e then []
  else match e with
       | Dir n _ sub => collect_tagged (join directory_path n) sub
       | _ => if should_rename (name_of e)
              then [(IsFile, renamed_to directory_path e)] else []
       end.

Definition own_dir_item (directory_path : str) (e : node) : list tagged :=
  if negb (skipped directory_path e) && isdir e
  then [(IsDir, renamed_to directory_path e)] else [].

(* ================================================================= *)
(** ** Entries the walker visits *)

(** [visited R l p e]: the entry [e] has path [p] below the directory [R]
    with listing [l], and neither [e] nor a directory on the way from [R]
    to [e] is hidden or a symbolic link. *)
Inductive visited : str -> list node -> str -> node -> Prop :=
| visited_here (R : str) (l : list node) (e : node) :
    In e l -> skipped R e = false ->
    visited R l (join R (name_of e)) e
| visited_below (R : str) (l : list node) (n : str) (i : nat)
    (sub : list node) (p : str) (e : node) :
    In (Dir n i sub) l -> skipped R (Dir n i sub) = false ->
    visited (join R n) sub p e ->
    visited R l p e.

(** [located R l p e]: the entry [e] has path [p] below [R], visited or
    not. *)
Inductive located : str -> list node -> str -> node -> Prop :=
| located_here (R : str) (l : list node) (e : node) :
    In e l -> located R l (join R (name_of e)) e
| located_below (R : str) (l : list node) (n : str) (i : nat)
    (sub : list node) (p : str) (e : node) :
    In (Dir n i sub) l ->
    located (join R n) sub p e ->
    located R l p e.

(** [p] lies strictly inside the directory [d]. *)
Definition inside (d p : str) : Prop :=
  exists rest, p = d ++ "/"%char :: rest.

(* ================================================================= *)
(** ** Well-formed trees

    What every directory tree satisfies: a name is not empty, holds no
    separator and is neither [.] nor [..], and the names of one directory
    are distinct. *)

Fixpoint distinct (l : list str) : bool :=
  match l with
  | [] => true
  | a :: l' => negb (existsb (str_eqb a) l') && distinct l'
  end.

Fixpoint wf_node (e : node) : bool :=
  valid_name (name_of e)
  && match e with
     | Dir _ _ sub => distinct (map name_of sub) && forallb wf_node sub
     | _ => true
     end.

Definition wf_listing (l : list node) : bool :=
  distinct (map name_of l) && forallb wf_node l.

(* ================================================================= *)
(** ** Trees that say where symbolic links lead

    A [Link] of the tree above does not say what it points to, and the
    walker never asks: [os.path.islink] is tested first.  The trees of this
    module do say it, so that this can be stated.  A [Symlink] carries the
    listing of the directory it resolves to, or nothing when it resolves to
    no directory.  [os.path.isdir] and [os.listdir] follow symbolic links;
    [os.path.islink] does not.  The walker is embedded a second time, on
    these trees, from the same source lines. *)

Module Symlinks.

#[warnings="-register-all"]
Inductive entry : Type :=
| Regular (name : str) (id : nat)
| Directory (name : str) (id : nat) (entries : list entry)
| Symlink (name : str) (id : nat) (target : option (list entry)).

Definition name_of (e : entry) : str :=
  match e with
  | Regular n _ | Directory n _ _ | Symlink n _ _ => n
  end.

Definition islink (e : entry) : bool :=
  match e with Symlink _ _ _ => true | _ => false end.

(** [os.path.isdir]: a directory, or a symbolic link to one. *)
Definition isdir (e : entry) : bool :=
  match e with
  | Directory _ _ _ | Symlink _ _ (Some _) => true
  | _ => false
  end.

(** [os.listdir] of the path of an entry. *)
Definition listing_of (e : entry) : list entry :=
  match e with
  | Directory _ _ listing | Symlink _ _ (Some listing) => listing
  | _ => []
  end.

Section CollectLoop.
Variable recur : str -> entry -> list item.

Fixpoint collect_loop (directory_path : str) (todo : list entry)
  (file_renames dir_renames : list item) {struct todo} : list item :=
  match todo with
  | [] => file_renames ++ dir_renames
  | e :: todo' =>
      let entry := name_of e in
      let entry_path := join directory_path entry in
      if is_hidden entry_path || islink e
      then collect_loop directory_path todo' file_renames dir_renames
      else
        let new_name := get_new_name entry in
        let new_path := join directory_path new_name in
        if isdir e
        then collect_loop directory_path todo'
               (file_renames ++ recur entry_path e)
               (dir_renames ++ [(entry_path, new_path)])
        else if should_rename entry
        then collect_loop directory_path todo'
               (file_renames ++ [(entry_path, new_path)]) dir_renames
        else collect_loop directory_path todo' file_renames dir_renames
  end.
End CollectLoop.

(** [collect_renames(directory_path)] when [directory_path] leads to [d]:
    to a directory, or to a symbolic link to one. *)
Fixpoint collect_dir (directory_path : str) (d : entry) {struct d}
  : list item :=
  match d with
  | Directory _ _ listing | Symlink _ _ (Some listing) =>
      collect_loop collect_dir directory_path listing [] []
  | _ => []
  end.

Definition collect_renames (directory_path : str) (listing : list entry)
  : list item :=
  collect_loop collect_dir directory_path listing [] [].

(** [located R l p e]: the entry [e] has path [p] below [R], a path that
    may lead through directories and through symbolic links to
    directories. *)
Inductive located : str -> list entry -> str -> entry -> Prop :=
| located_here (R : str) (l : list entry) (e : entry) :
    In e l -> located R l (join R (name_of e)) e
| located_below (R : str) (l : list entry) (d : entry) (p : str)
    (e : entry) :
    In d l -> isdir d = true ->
    located (join R (name_of d)) (listing_of d) p e ->
    located R l p e.

(** Names are valid, and distinct in one directory, in the directories
    that links lead to as well. *)
Fixpoint wf_entry (e : entry) : bool :=
  valid_name (name_of e)
  && match e with
     | Directory _ _ sub | Symlink _ _ (Some sub) =>
         distinct (map name_of sub) && forallb wf_entry sub
     | _ => true
     end.

Definition wf_listing (l : list entry) : bool :=
  distinct (map name_of l) && forallb wf_entry l.

(** The tree without what its links lead to. *)
Fixpoint forget (e : entry) : node :=
  match e with
  | Regular n i => File n i
  | Directory n i sub => Dir n i (map forget sub)
  | Symlink n i _ => Link n i
  end.

(** A directory with a link to a directory that holds a file, a hidden
    directory, and a file. *)
Definition linked_tree : list entry :=
  [Symlink (lit "Linked Dir") 1 (Some [Regular (lit "Inner File.TXT") 2]);
   Directory (lit ".git") 3 [Regular (lit "My Config") 4];
   Regular (lit "My File.txt") 5].

End Symlinks.

(* ================================================================= *)
(** ** Auxiliary definitions of the proofs *)

Definition nondot (c : ascii) : bool := negb (Ascii.eqb c ".").

(** What [get_new_name] makes of the base. *)
Definition cleaned (base : str) : str :=
  lower (re_sub (replace "_" "-" (replace " " "-" base))).

(** Two trees: [A/B/] beside [C/f.TXT], and [A Dir/sub_file.TXT]. *)
Definition two_branches : list node :=
  [Dir (lit "A") 1 [Dir (lit "B") 2 []];
   Dir (lit "C") 3 [File (lit "f.TXT") 4]].

Definition a_dir_tree : list node :=
  [Dir (lit "A Dir") 1 [File (lit "sub_file.TXT") 2]].

(** Paths as chains of names: [path R ns] is the path of the entry reached
    from the directory [R] through the names [ns]. *)
Definition pre (R : str) : str := join R [].

Fixpoint inter (ns : list str) : str :=
  match ns with
  | [] => []
  | n :: ns' =>
      match ns' with
      | [] => n
      | _ :: _ => n ++ "/"%char :: inter ns'
      end
  end.

Definition path (R : str) (ns : list str) : str := pre R ++ inter ns.

Definition chain : Type := list str.

Definition citem : Type := (chain * chain)%type.

Definition to_paths (R : str) (it : citem) : item :=
  (path R (fst it), path R (snd it)).

Definition push (n : str) (it : citem) : citem := (n :: fst it, n :: snd it).

Definition own_item (e : node) : citem :=
  ([name_of e], [get_new_name (name_of e)]).

(** An entry the walker does not skip, told from its name and kind. *)
Definition shown (e : node) : bool :=
  negb (startswith "." (name_of e)) && negb (islink e).

(** The walker on chains. *)
Definition walk_gathered (rec : node -> list citem) (e : node) : list citem :=
  if shown e then
    if isdir e then map (push (name_of e)) (rec e)
    else if should_rename (name_of e) then [own_item e] else []
  else [].

Definition walk_own (e : node) : list citem :=
  if shown e && isdir e then [own_item e] else [].

Definition walk_with (rec : node -> list citem) (l : list node)
  : list citem :=
  flat_map (walk_gathered rec) l ++ flat_map walk_own l.

Fixpoint walk_dir (d : node) : list citem :=
  match d with
  | Dir _ _ l => walk_with walk_dir l
  | _ => []
  end.

Definition walk (l : list node) : list citem := walk_with walk_dir l.

(** [reach l ns e]: the names [ns] lead from the listing [l] to [e]. *)
Inductive reach : list node -> chain -> node -> Prop :=
| reach_here (l : list node) (e : node) :
    In e l -> reach l [name_of e] e
| reach_below (l : list node) (n : str) (i : nat) (sub : list node)
    (ns : chain) (e : node) :
    In (Dir n i sub) l -> reach sub ns e -> reach l (n :: ns) e.

Definition no_sep (n : str) : Prop := contains "/" n = false.

(** What a dry run reports for an item. *)
Definition dry_report (width : nat) (it : item) : report :=
  Info (lit "[Dry Run] Would rename "
        ++ quoted (ljust (basename (fst it)) width)
        ++ lit " to " ++ quoted (basename (snd it))).

(** A directory that holds one directory, whose name is normalized. *)
Definition docs_tree : list node := [Dir (lit "docs") 1 []].

Definition fresh_world (R : str) (l : list node) : world :=
  World R l None [] [].

(* ----------------------------------------------------------------- *)
(** Running a plan on chains: each item goes to [rename_path], an item that
    went through is logged as (new, old), and [None] stands for a call the
    model of [os.rename] does not cover. *)
Fixpoint run (plan : list citem) (l : list node)
  : option (list node * list citem) :=
  match plan with
  | [] => Some (l, [])
  | it :: rest =>
      match rename_path l (fst it) (snd it) with
      | Done l' =>
          match run rest l' with
          | Some (l'', lg) => Some (l'', (snd it, fst it) :: lg)
          | None => None
          end
      | OSError => run rest l
      | Unmodelled => None
      end
  end.

(** The identity of the entry a chain leads to. *)
Fixpoint idc (l : list node) (ch : chain) : option nat :=
  match ch with
  | [] => None
  | n :: rest =>
      match rest with
      | [] => option_map id_of (find (named n) l)
      | _ :: _ =>
          match find (named n) l with
          | Some (Dir _ _ sub) => idc sub rest
          | _ => None
          end
      end
  end.

(** The identity of the entry at a path below the directory [R]. *)
Definition id_at (R : str) (l : list node) (p : str) : option nat :=
  match strip_prefix (pre R) p with
  | Some s => idc l (split "/" s)
  | None => None
  end.

Definition entries_of (e : node) : list node :=
  match e with
  | Dir _ _ sub => sub
  | _ => []
  end.

(** Replacing the entries of the directory [n] of a listing. *)
Definition put (n : str) (sub : list node) (l : list node) : list node :=
  map (fun e => if named n e then set_entries sub e else e) l.

(** The tree after the plan of a listing was run on it, the log of that
    run, and the tree after the log was undone. *)
Definition after (l : list node) : list node :=
  match run (walk l) l with
  | Some (l', _) => l'
  | None => l
  end.

Definition logs (l : list node) : list citem :=
  match run (walk l) l with
  | Some (_, lg) => lg
  | None => []
  end.

Definition back (l : list node) : list node :=
  match run (rev (logs l)) (after l) with
  | Some (l', _) => l'
  | None => after l
  end.

(** The entries of one directory, by what the walker does with them. *)
Definition planned_file (e : node) : bool :=
  shown e && negb (isdir e) && should_rename (name_of e).

Definition shown_dir (e : node) : bool := shown e && isdir e.

Definition planned (e : node) : bool := planned_file e || shown_dir e.

(** The state of one directory while its plan runs: the files renamed so
    far ([moved]), the directories renamed so far ([turned]), the names
    taken over by a renamed file ([taken]) and the entries of each
    directory ([inner]), all by original name. *)
Record level : Type := Level {
  moved : str -> bool;
  turned : str -> bool;
  taken : str -> bool;
  inner : str -> list node
}.

Definition show (s : level) (x : node) : list node :=
  let n := name_of x in
  if planned_file x
  then [if moved s n then set_name (get_new_name n) x else x]
  else if shown_dir x
  then [set_name (if turned s n then get_new_name n else n)
                 (set_entries (inner s n) x)]
  else if taken s n then [] else [x].

Definition cur (l0 : list node) (s : level) : list node :=
  flat_map (show s) l0.

(** A directory whose new name is the name of an entry the walker leaves
    alone cannot be renamed. *)
Definition blocked (l0 : list node) (d : node) : bool :=
  existsb (fun y => negb (planned y) && named (get_new_name (name_of d)) y) l0.

(** A file whose new name is the name of an entry the walker leaves alone
    and that is the same file: its rename does nothing. *)
Definition twin (l0 : list node) (x : node) : bool :=
  existsb (fun y => negb (planned y) && named (get_new_name (name_of x)) y
                    && same_file x y) l0.

(** The planned files whose rename moves them. *)
Definition moves (l0 : list node) (x : node) : bool :=
  planned_file x && negb (twin l0 x).

Definition with_name (f : str -> bool) (n : str) (b : bool) : str -> bool :=
  fun m => if str_eqb m n then b else f m.

Definition with_inner (f : str -> list node) (n : str) (sub : list node)
  : str -> list node :=
  fun m => if str_eqb m n then sub else f m.

Definition swap (it : citem) : citem := (snd it, fst it).

Definition set_moved (s : level) (n : str) (b : bool) : level :=
  Level (with_name (moved s) n b) (turned s) (taken s) (inner s).

Definition set_turned (s : level) (n : str) (b : bool) : level :=
  Level (moved s) (with_name (turned s) n b) (taken s) (inner s).

Definition set_taken (s : level) (n : str) : level :=
  Level (moved s) (turned s) (with_name (taken s) n true) (inner s).

Definition set_inner (s : level) (n : str) (sub : list node) : level :=
  Level (moved s) (turned s) (taken s) (with_inner (inner s) n sub).

(** The log of undoing the log of a listing. *)
Definition relog (l : list node) : list citem :=
  match run (rev (logs l)) (after l) with
  | Some (_, g) => g
  | None => []
  end.

(** The state of an entry, by its original name. *)
Definition stage_ok (a b : node -> bool) (c : node -> list node)
  (s : level) (e : node) : Prop :=
  moved s (name_of e) = a e /\ turned s (name_of e) = b e
  /\ inner s (name_of e) = c e.

Definition agree (s s' : level) (e : node) : Prop :=
  moved s' (name_of e) = moved s (name_of e)
  /\ turned s' (name_of e) = turned s (name_of e)
  /\ inner s' (name_of e) = inner s (name_of e).

(** What holds of the names taken over, throughout. *)
Definition taken_ok (l0 : list node) (s : level) : Prop :=
  (forall f, In f l0 -> planned_file f = true ->
             moved s (name_of f) = true ->
             taken s (get_new_name (name_of f)) = true)
  /\ (forall m, taken s m = true ->
                exists f, In f l0 /\ planned_file f = true
                          /\ get_new_name (name_of f) = m
                          /\ twin l0 f = false).

(** The four passes over a directory: its files and the plans of its
    subdirectories, its subdirectories, and both undone. *)
Definition glog (e : node) : list citem :=
  if planned_file e then [swap (own_item e)]
  else if shown_dir e then map (push (name_of e)) (logs (entries_of e))
  else [].

Definition gstep (l0 : list node) (e : node) (s : level) : level :=
  if planned_file e
  then if twin l0 e then s
       else set_taken (set_moved s (name_of e) true)
                      (get_new_name (name_of e))
  else if shown_dir e then set_inner s (name_of e) (after (entries_of e))
  else s.

Definition turns (l0 : list node) (e : node) : bool :=
  shown_dir e && negb (blocked l0 e).

Definition olog (l0 : list node) (e : node) : list citem :=
  if turns l0 e then [swap (own_item e)] else [].

Definition ostep (l0 : list node) (e : node) (s : level) : level :=
  if turns l0 e then set_turned s (name_of e) true else s.

Definition uofrag (l0 : list node) (e : node) : list citem :=
  if turns l0 e then [swap (own_item e)] else [].

Definition uolog (l0 : list node) (e : node) : list citem :=
  if turns l0 e then [own_item e] else [].

Definition uostep (l0 : list node) (e : node) (s : level) : level :=
  if turns l0 e then set_turned s (name_of e) false else s.

Definition ugfrag (e : node) : list citem := rev (glog e).

Definition uglog (e : node) : list citem :=
  if planned_file e then [own_item e]
  else if shown_dir e then map (push (name_of e)) (relog (entries_of e))
  else [].

Definition ugstep (l0 : list node) (e : node) (s : level) : level :=
  if planned_file e
  then if twin l0 e then s else set_moved s (name_of e) false
  else if shown_dir e then set_inner s (name_of e) (back (entries_of e))
  else s.

Definition level0 (l0 : list node) : level :=
  Level (fun _ => false) (fun _ => false) (fun _ => false)
        (fun n => match find (named n) l0 with
                  | Some e => entries_of e
                  | None => []
                  end).

Definition inner_after (e : node) : list node :=
  if shown_dir e then after (entries_of e) else entries_of e.

Definition inner_back (e : node) : list node :=
  if shown_dir e then back (entries_of e) else entries_of e.

Definition never (e : node) : bool := false.

(** A listing on which the run and its undo go as [after], [logs] and
    [back] say, every logged entry being back in its place. *)
Definition good (l : list node) : Prop :=
  run (walk l) l = Some (after l, logs l)
  /\ run (rev (logs l)) (after l) = Some (back l, relog l)
  /\ (forall it, In it (logs l) ->
        exists i, idc l (snd it) = Some i /\ idc (back l) (snd it) = Some i).

(** A tree with a hidden directory, a link, a file whose new name is taken
    by a file that stays, and a directory that is itself renamed. *)
Definition round_trip_tree : list node :=
  [Dir (lit "My Docs") 1
     [File (lit "Read Me.TXT") 2; File (lit "read-me.txt") 3;
      Dir (lit "Old Notes") 4 [File (lit "A b") 5]];
   File (lit "a B") 6;
   Link (lit "x Y") 7;
   Dir (lit ".git") 8 [File (lit "My Config") 9]].

(** Every path of the log names the same entry on both disks. *)
Definition restored (R : str) (l l' : list node) (log : list item) : Prop :=
  forall new_path old_path : str,
    In (new_path, old_path) log ->
    exists i : nat,
      id_at R l old_path = Some i /\ id_at R l' old_path = Some i.

Definition round_trip_world : world :=
  fresh_world (lit "root") round_trip_tree.

(** A plan item whose two chains are paths: not empty, no separator inside
    a name. *)
Definition sound (it : citem) : Prop :=
  (fst it <> [] /\ Forall no_sep (fst it))
  /\ (snd it <> [] /\ Forall no_sep (snd it)).

(** The characters of a cleaned base: [a-z], [0-9], the dot and the
    hyphen. *)
Definition allowed (c : ascii) : bool :=
  between "a" "z" c || between "0" "9" c || Ascii.eqb c "."
  || Ascii.eqb c "-".

(** Nothing in a directory is planned: each entry is skipped, or is a file
    whose name is left alone. *)
Definition nothing_planned (R : str) (l : list node) : Prop :=
  forall e : node,
    In e l ->
    skipped R e = true
    \/ (isdir e = false /\ should_rename (name_of e) = false).

(** The run on [root/A Dir/sub_file.TXT]: its log and the world it
    leaves. *)
Definition a_dir_log : list item :=
  [(lit "root/A Dir/sub-file.txt", lit "root/A Dir/sub_file.TXT");
   (lit "root/a-dir", lit "root/A Dir")].

Definition a_dir_after : world :=
  snd (rename_recursively (lit "root") false
         (fresh_world (lit "root") a_dir_tree)).

(** A world in which an earlier run left its log. *)
Definition logged_world : world :=
  World (lit "root") [File (lit "New File") 1]
        (Some [(lit "root/old-file", lit "root/Old File")]) [] [].

(** No item of the walk is sent to a place that is taken: its new chain is
    its old one, or leads to nothing. *)
Definition free (l : list node) : Prop :=
  forall it : citem,
    In it (walk l) -> fst it = snd it \/ idc l (snd it) = None.

(** What [os.rename] answers when the items of a plan are handed to it one
    after the other, starting from the tree [l]: for each item whether it
    was renamed, and the tree at the end; [None] when a call is one the
    model of [os.rename] does not cover. *)
Fixpoint answers (R : str) (l : list node) (plan : list item)
  : option (list bool * list node) :=
  match plan with
  | [] => Some ([], l)
  | it :: rest =>
      match os_rename R l (fst it) (snd it) with
      | Done l' =>
          match answers R l' rest with
          | Some (bs, lf) => Some (true :: bs, lf)
          | None => None
          end
      | OSError =>
          match answers R l rest with
          | Some (bs, lf) => Some (false :: bs, lf)
          | None => None
          end
      | Unmodelled => None
      end
  end.

(** The items of a plan that were renamed. *)
Definition accepted (plan : list item) (bs : list bool) : list item :=
  map fst (filter snd (combine plan bs)).

(** What a real run reports for an item, renamed or not. *)
Definition wet_report (width : nat) (x : item * bool) : report :=
  if snd x
  then Info (lit "Renamed "
             ++ quoted (ljust (basename (fst (fst x))) width)
             ++ lit " to " ++ quoted (basename (snd (fst x))))
  else ErrorRenaming (basename (fst (fst x))).

(** The tree with every entry the walker plans under its new name: a
    visible file that [should_rename] accepts, and every visible directory
    with all that it holds; hidden entries and links are left as they are,
    with all that they hold. *)
Fixpoint normalised (e : node) : node :=
  match e with
  | File n i =>
      if shown (File n i) && should_rename n
      then File (get_new_name n) i else File n i
  | Link n i => Link n i
  | Dir n i sub =>
      if shown (Dir n i sub)
      then Dir (get_new_name n) i (map normalised sub) else Dir n i sub
  end.

(* ################################################################# *)
(** * Proofs *)

Unset Implicit Arguments.

(* ================================================================= *)
(** ** Characters *)

Ltac each_char c :=
  destruct c as [[] [] [] [] [] [] [] []]; vm_compute; try reflexivity;
  try discriminate; auto.

Lemma lower_char_idem (c : ascii) : lower_char (lower_char c) = lower_char c.
Proof. each_char c. Qed.

Lemma in_class_lower (c : ascii) : in_class (lower_char c) = in_class c.
Proof. each_char c. Qed.

Lemma eqb_lower_dot (c : ascii) :
  Ascii.eqb (lower_char c) "." = Ascii.eqb c ".".
Proof. each_char c. Qed.

Lemma eqb_lower_sep (c : ascii) :
  Ascii.eqb (lower_char c) "/" = Ascii.eqb c "/".
Proof. each_char c. Qed.

Lemma lower_char_hyphen : lower_char "-" = "-"%char.
Proof. reflexivity. Qed.

Lemma in_class_not_hyphenated (c : ascii) :
  in_class c = true -> hyphenate c = c.
Proof. each_char c. Qed.

Lemma in_class_hyphenate (c : ascii) :
  in_class (hyphenate c) = in_class c.
Proof. each_char c. Qed.

Lemma in_class_sep (c : ascii) : in_class c = true -> Ascii.eqb c "/" = false.
Proof. each_char c. Qed.

Lemma str_eqb_eq (a b : str) : str_eqb a b = true <-> a = b.
Proof.
  unfold str_eqb. destruct (list_eq_dec ascii_dec a b); split; congruence.
Qed.

Lemma str_eqb_refl (a : str) : str_eqb a a = true.
Proof. apply str_eqb_eq. reflexivity. Qed.

Lemma str_eqb_neq (a b : str) : str_eqb a b = false <-> a <> b.
Proof.
  unfold str_eqb. destruct (list_eq_dec ascii_dec a b); split; congruence.
Qed.

(* ================================================================= *)
(** ** [contains] and [rfind] *)

Lemma contains_app (c : ascii) (s t : str) :
  contains c (s ++ t) = contains c s || contains c t.
Proof. unfold contains. apply existsb_app. Qed.

Lemma contains_false (c : ascii) (s : str) :
  contains c s = false <-> ~ In c s.
Proof.
  unfold contains. split.
  - intros H Hin. assert (existsb (Ascii.eqb c) s = true).
    { apply existsb_exists. exists c. split; auto. apply Ascii.eqb_refl. }
    congruence.
  - intros H. destruct (existsb (Ascii.eqb c) s) eqn:E; auto.
    apply existsb_exists in E. destruct E as [x [Hx Hc]].
    apply Ascii.eqb_eq in Hc. subst. contradiction.
Qed.

Lemma rfind_bounds (c : ascii) (s : str) :
  (-1 <= rfind c s < Z.of_nat (List.length s))%Z.
Proof.
  induction s as [|a s IH]; simpl; [lia|].
  destruct (0 <=? rfind c s)%Z eqn:E.
  - apply Z.leb_le in E. lia.
  - destruct (Ascii.eqb a c); lia.
Qed.

Lemma rfind_absent (c : ascii) (s : str) :
  contains c s = false -> rfind c s = (-1)%Z.
Proof.
  induction s as [|a s IH]; simpl; auto.
  intros H. apply orb_false_iff in H. destruct H as [Ha Hs].
  rewrite (IH Hs). simpl. rewrite Ascii.eqb_sym, Ha. reflexivity.
Qed.

Lemma rfind_present (c : ascii) (s : str) :
  contains c s = true -> (0 <= rfind c s)%Z.
Proof.
  induction s as [|a s IH]; simpl; [discriminate|].
  intros H. destruct (0 <=? rfind c s)%Z eqn:E.
  - apply Z.leb_le in E. lia.
  - apply orb_true_iff in H. destruct H as [H|H].
    + rewrite Ascii.eqb_sym, H. lia.
    + apply IH in H. apply Z.leb_gt in E. lia.
Qed.

Lemma rfind_last (c : ascii) (s t : str) :
  contains c t = false ->
  rfind c (s ++ c :: t) = Z.of_nat (List.length s).
Proof.
  intros Ht. induction s as [|a s IH]; simpl.
  - rewrite (rfind_absent _ _ Ht). simpl. rewrite Ascii.eqb_refl. reflexivity.
  - rewrite IH. destruct (0 <=? Z.of_nat (List.length s))%Z eqn:E.
    + lia.
    + apply Z.leb_gt in E. lia.
Qed.

Lemma rfind_app_absent (c : ascii) (s t : str) :
  contains c t = false -> rfind c (s ++ t) = rfind c s.
Proof.
  intros Ht. induction s as [|a s IH]; simpl.
  - apply rfind_absent; auto.
  - rewrite IH. reflexivity.
Qed.

Lemma rfind_app_present (c : ascii) (s t : str) :
  contains c t = true -> (Z.of_nat (List.length s) <= rfind c (s ++ t))%Z.
Proof.
  intros Ht. induction s as [|a s IH]; simpl.
  - apply rfind_present; auto.
  - destruct (0 <=? rfind c (s ++ t))%Z eqn:E; [lia|].
    apply Z.leb_gt in E. lia.
Qed.

Lemma rfind_split (c : ascii) (s : str) :
  (0 <= rfind c s)%Z ->
  exists b e, s = b ++ c :: e /\ contains c e = false
              /\ rfind c s = Z.of_nat (List.length b).
Proof.
  induction s as [|a s IH]; simpl; [lia|].
  destruct (0 <=? rfind c s)%Z eqn:E.
  - apply Z.leb_le in E. destruct (IH E) as [b [e [Hs [He Hr]]]].
    intros _. exists (a :: b), e. simpl. repeat split; auto.
    + congruence.
    + lia.
  - destruct (Ascii.eqb a c) eqn:Ea; [|lia].
    intros _. apply Ascii.eqb_eq in Ea. subst a.
    exists [], s. simpl. repeat split; auto.
    destruct (contains c s) eqn:Ec; auto.
    apply rfind_present in Ec. apply Z.leb_gt in E. lia.
Qed.

(* ================================================================= *)
(** ** [split], [basename] and [splitext] *)

Lemma split_absent (c : ascii) (s : str) :
  contains c s = false -> split c s = [s].
Proof.
  induction s as [|a s IH]; simpl; auto.
  intros H. apply orb_false_iff in H. destruct H as [Ha Hs].
  rewrite Ascii.eqb_sym, Ha, (IH Hs). reflexivity.
Qed.

Lemma split_present (c : ascii) (s : str) :
  contains c s = true -> exists w x ws, split c s = w :: x :: ws.
Proof.
  induction s as [|a s IH]; simpl; [discriminate|].
  intros H. destruct (Ascii.eqb a c) eqn:Ea.
  - destruct (split c s) as [|x ws] eqn:Es.
    + destruct s; simpl in Es; [discriminate|].
      destruct (Ascii.eqb a0 c); [discriminate|].
      destruct (split c s); discriminate.
    + exists [], x, ws. reflexivity.
  - rewrite Ascii.eqb_sym, Ea in H. simpl in H.
    destruct (IH H) as [w [x [ws Hs]]]. rewrite Hs.
    exists (a :: w), x, ws. reflexivity.
Qed.

Lemma split_cons (c a : ascii) (s : str) :
  split c (a :: s) =
  if Ascii.eqb a c then [] :: split c s
  else match split c s with
       | w :: ws => (a :: w) :: ws
       | [] => [[a]]
       end.
Proof. reflexivity. Qed.

Lemma split_nonempty (c : ascii) (s : str) : split c s <> [].
Proof.
  destruct (contains c s) eqn:E.
  - destruct (split_present _ _ E) as [w [x [ws H]]]. rewrite H. discriminate.
  - rewrite (split_absent _ _ E). discriminate.
Qed.

Lemma basename_absent (p : str) : contains "/" p = false -> basename p = p.
Proof.
  intros H. unfold basename. rewrite (rfind_absent _ _ H). reflexivity.
Qed.

Lemma basename_last (p : str) : basename p = last_component p.
Proof.
  unfold basename, last_component.
  induction p as [|a p IH]; [reflexivity|].
  rewrite split_cons. cbn [rfind].
  destruct (0 <=? rfind "/" p)%Z eqn:E.
  - apply Z.leb_le in E.
    assert (Hc : contains "/" p = true).
    { destruct (contains "/" p) eqn:Ec; auto.
      rewrite (rfind_absent _ _ Ec) in E. lia. }
    destruct (split_present _ _ Hc) as [w [x [ws Hs]]].
    replace (Z.to_nat (rfind "/" p + 1 + 1)) with (S (Z.to_nat (rfind "/" p + 1)))
      by lia.
    cbn [skipn]. rewrite IH, Hs.
    destruct (Ascii.eqb a "/"); reflexivity.
  - apply Z.leb_gt in E.
    assert (Hc : contains "/" p = false).
    { destruct (contains "/" p) eqn:Ec; auto.
      apply rfind_present in Ec. lia. }
    rewrite (split_absent _ _ Hc).
    destruct (Ascii.eqb a "/"); reflexivity.
Qed.

Lemma basename_incl (p : str) (c : ascii) : In c (basename p) -> In c p.
Proof.
  unfold basename. intros H.
  rewrite <- (firstn_skipn (Z.to_nat (rfind "/" p + 1)) p).
  apply in_or_app. right. exact H.
Qed.

Lemma slice_component (b e : str) :
  contains "/" e = false ->
  slice (rfind "/" (b ++ "."%char :: e) + 1) (Z.of_nat (List.length b))
        (b ++ "."%char :: e)
  = basename b.
Proof.
  intros He.
  assert (Hr : rfind "/" (b ++ "."%char :: e) = rfind "/" b).
  { apply rfind_app_absent. simpl. exact He. }
  rewrite Hr. unfold slice, basename.
  pose proof (rfind_bounds "/" b) as Hb.
  set (k := Z.to_nat (rfind "/" b + 1)).
  assert (Hk : k <= List.length b) by (unfold k; lia).
  rewrite skipn_app.
  replace (k - List.length b) with 0 by lia. cbn [skipn].
  rewrite firstn_app.
  rewrite Nat2Z.id.
  rewrite length_skipn.
  replace (List.length b - k - (List.length b - k)) with 0 by lia.
  cbn [firstn]. rewrite app_nil_r.
  apply firstn_all2. rewrite length_skipn. lia.
Qed.

Lemma splitext_dot (b e : str) :
  contains "." e = false -> contains "/" e = false ->
  existsb nondot (basename b) = true ->
  splitext (b ++ "."%char :: e) = (b, "."%char :: e).
Proof.
  intros Hd Hs Hn. unfold splitext.
  rewrite (rfind_last _ _ _ Hd).
  rewrite (slice_component _ _ Hs).
  assert (Hr : rfind "/" (b ++ "."%char :: e) = rfind "/" b).
  { apply rfind_app_absent. simpl. exact Hs. }
  rewrite Hr. pose proof (rfind_bounds "/" b) as Hb.
  replace (rfind "/" b <? Z.of_nat (List.length b))%Z with true
    by (symmetry; apply Z.ltb_lt; lia).
  fold nondot. rewrite Hn. cbn [andb].
  rewrite Nat2Z.id.
  rewrite firstn_app, Nat.sub_diag, firstn_all. cbn [firstn].
  rewrite app_nil_r.
  rewrite skipn_app, Nat.sub_diag, skipn_all. reflexivity.
Qed.

Lemma splitext_cases (p : str) :
  splitext p = (p, [])
  \/ exists b e,
      p = b ++ "."%char :: e /\ contains "." e = false
      /\ contains "/" e = false /\ existsb nondot (basename b) = true
      /\ splitext p = (b, "."%char :: e).
Proof.
  destruct (Z_lt_le_dec (rfind "." p) 0) as [Hneg|Hpos].
  - left. unfold splitext. pose proof (rfind_bounds "/" p).
    replace (rfind "/" p <? rfind "." p)%Z with false
      by (symmetry; apply Z.ltb_ge; lia).
    reflexivity.
  - destruct (rfind_split _ _ Hpos) as [b [e [Hp [He Hr]]]].
    destruct (contains "/" e) eqn:Hs.
    + left. unfold splitext.
      assert (Z.of_nat (List.length (b ++ ["."%char])) <= rfind "/" p)%Z.
      { rewrite Hp. replace (b ++ "."%char :: e) with ((b ++ ["."%char]) ++ e)
          by (rewrite <- app_assoc; reflexivity).
        apply rfind_app_present. exact Hs. }
      rewrite length_app in H. simpl in H.
      replace (rfind "/" p <? rfind "." p)%Z with false
        by (symmetry; apply Z.ltb_ge; lia).
      reflexivity.
    + destruct (existsb nondot (basename b)) eqn:Hn.
      * right. exists b, e. repeat split; auto.
        rewrite Hp. apply splitext_dot; auto.
      * left. unfold splitext. rewrite Hr. rewrite Hp at 2 3.
        rewrite (slice_component _ _ Hs). fold nondot. rewrite Hn.
        rewrite andb_false_r. reflexivity.
Qed.

Lemma splitext_concat (p : str) : fst (splitext p) ++ snd (splitext p) = p.
Proof.
  destruct (splitext_cases p) as [H|[b [e [Hp [_ [_ [_ H]]]]]]];
    rewrite H; simpl.
  - apply app_nil_r.
  - symmetry. exact Hp.
Qed.

(** The split of the source is the split at the last dot of the last
    component. *)

Lemma split_last_dot_absent (p : str) :
  contains "." p = false -> split_last_dot p = (p, []).
Proof.
  induction p as [|a p IH]; [reflexivity|].
  intros H. unfold contains in H. cbn [existsb] in H.
  apply orb_false_iff in H. destruct H as [Ha Hp].
  cbn [split_last_dot]. rewrite (IH Hp).
  rewrite Ascii.eqb_sym, Ha. reflexivity.
Qed.

Lemma split_last_dot_last (b e : str) :
  contains "." e = false ->
  split_last_dot (b ++ "."%char :: e) = (b, "."%char :: e).
Proof.
  intros He. induction b as [|a b IH]; cbn [app split_last_dot].
  - rewrite (split_last_dot_absent _ He). reflexivity.
  - rewrite IH. reflexivity.
Qed.

Lemma forallb_dot_nondot (s : str) :
  forallb (fun c => Ascii.eqb c ".") s = negb (existsb nondot s).
Proof.
  induction s as [|a s IH]; simpl; auto.
  rewrite IH. unfold nondot. destruct (Ascii.eqb a "."); reflexivity.
Qed.

Lemma splitext_amended (p : str) :
  splitext p = split_last_dot_of_component p.
Proof.
  unfold split_last_dot_of_component.
  destruct (contains "." p) eqn:Hd.
  - apply rfind_present in Hd.
    destruct (rfind_split _ _ Hd) as [b [e [Hp [He Hr]]]].
    rewrite Hp at 2. rewrite (split_last_dot_last _ _ He).
    rewrite <- basename_last, forallb_dot_nondot.
    change (contains "/" ("."%char :: e)) with (contains "/" e).
    destruct (contains "/" e) eqn:Hs.
    + cbn [orb]. unfold splitext.
      assert (Z.of_nat (List.length (b ++ ["."%char])) <= rfind "/" p)%Z.
      { rewrite Hp. replace (b ++ "."%char :: e) with ((b ++ ["."%char]) ++ e)
          by (rewrite <- app_assoc; reflexivity).
        apply rfind_app_present. exact Hs. }
      rewrite length_app in H. simpl in H.
      replace (rfind "/" p <? rfind "." p)%Z with false
        by (symmetry; apply Z.ltb_ge; lia).
      reflexivity.
    + cbn [orb]. destruct (existsb nondot (basename b)) eqn:Hn; cbn [negb].
      * rewrite Hp. apply splitext_dot; auto.
      * unfold splitext. rewrite Hr. rewrite Hp at 2 3.
        rewrite (slice_component _ _ Hs). fold nondot. rewrite Hn.
        rewrite andb_false_r. reflexivity.
  - rewrite (split_last_dot_absent _ Hd). cbn [contains existsb orb].
    unfold splitext. rewrite (rfind_absent _ _ Hd).
    pose proof (rfind_bounds "/" p).
    replace (rfind "/" p <? -1)%Z with false
      by (symmetry; apply Z.ltb_ge; lia).
    cbn [andb]. destruct (forallb _ _); reflexivity.
Qed.

(* ================================================================= *)
(** ** The substitution and tidy strings *)

Lemma lower_app (a b : str) : lower (a ++ b) = lower a ++ lower b.
Proof. apply map_app. Qed.

Lemma lower_idem (s : str) : lower (lower s) = lower s.
Proof.
  unfold lower. rewrite map_map. apply map_ext. apply lower_char_idem.
Qed.

Lemma contains_map (c : ascii) (f : ascii -> ascii) (s : str) :
  (forall a, Ascii.eqb (f a) c = Ascii.eqb a c) ->
  contains c (map f s) = contains c s.
Proof.
  intros Hf. unfold contains. induction s as [|a s IH]; [reflexivity|].
  cbn [map existsb]. rewrite IH.
  rewrite (Ascii.eqb_sym c (f a)), Hf, (Ascii.eqb_sym a c). reflexivity.
Qed.

Lemma contains_lower_dot (s : str) : contains "." (lower s) = contains "." s.
Proof. apply contains_map. apply eqb_lower_dot. Qed.

Lemma contains_lower_sep (s : str) : contains "/" (lower s) = contains "/" s.
Proof. apply contains_map. apply eqb_lower_sep. Qed.

Lemma tidy_char_ok (c : ascii) :
  in_class c || Ascii.eqb c "-" = true ->
  Ascii.eqb c " " = false /\ Ascii.eqb c "_" = false
  /\ Ascii.eqb c "/" = false
  /\ in_class (lower_char c) || Ascii.eqb (lower_char c) "-" = true
  /\ (in_class c = false -> lower_char c = c).
Proof. each_char c; repeat split; auto; discriminate. Qed.

Lemma tidy_head (c : ascii) (s : str) :
  tidy (c :: s) = true -> in_class c || Ascii.eqb c "-" = true.
Proof.
  cbn [tidy]. intros H. apply andb_true_iff in H. destruct H as [H _].
  apply orb_true_iff in H. destruct H as [H|H].
  - rewrite H. reflexivity.
  - apply andb_true_iff in H. destruct H as [H _]. rewrite H.
    apply orb_true_r.
Qed.

Lemma tidy_tail (c : ascii) (s : str) : tidy (c :: s) = true -> tidy s = true.
Proof.
  cbn [tidy]. intros H. apply andb_true_iff in H. tauto.
Qed.

Lemma tidy_app_l (a b : str) : tidy (a ++ b) = true -> tidy a = true.
Proof.
  induction a as [|c a IH]; [reflexivity|].
  cbn [app]. intros H. pose proof (tidy_tail _ _ H) as Ht.
  specialize (IH Ht). cbn [tidy] in H |- *. rewrite IH, andb_true_r.
  apply andb_true_iff in H. destruct H as [H _].
  destruct (in_class c); [reflexivity|]. cbn [orb] in H |- *.
  destruct (Ascii.eqb c "-"); [|discriminate]. cbn [andb] in H |- *.
  destruct a; [reflexivity|exact H].
Qed.

Lemma re_skip_class (d : ascii) (s : str) :
  in_class d = true -> re_skip (d :: s) = re_sub (d :: s).
Proof. intros H. cbn [re_skip re_sub]. rewrite H. reflexivity. Qed.

Lemma re_sub_tidy (s : str) : tidy s = true -> re_sub s = s.
Proof.
  induction s as [|c s IH]; [reflexivity|].
  intros H. pose proof (tidy_tail _ _ H) as Ht. specialize (IH Ht).
  cbn [re_sub]. destruct (in_class c) eqn:Ec.
  - rewrite IH. reflexivity.
  - cbn [tidy] in H. rewrite Ec in H. cbn [orb] in H.
    apply andb_true_iff in H. destruct H as [H _].
    apply andb_true_iff in H. destruct H as [Hc Hd].
    apply Ascii.eqb_eq in Hc. subst c.
    destruct s as [|d s]; [reflexivity|].
    rewrite (re_skip_class _ _ Hd), IH. reflexivity.
Qed.

Lemma re_skip_shape (s : str) :
  match re_skip s with
  | [] => True
  | d :: _ => in_class d = true
  end.
Proof.
  induction s as [|c s IH]; cbn [re_skip]; auto.
  destruct (in_class c) eqn:Ec; auto.
Qed.

Lemma tidy_re (s : str) : tidy (re_sub s) = true /\ tidy (re_skip s) = true.
Proof.
  induction s as [|c s [IH1 IH2]]; [split; reflexivity|].
  cbn [re_sub re_skip]. destruct (in_class c) eqn:Ec.
  - cbn [tidy]. rewrite Ec, IH1. split; reflexivity.
  - split; [|exact IH2].
    cbn [tidy]. rewrite IH2, andb_true_r.
    pose proof (re_skip_shape s) as Hs.
    destruct (re_skip s); [reflexivity|]. rewrite Hs. reflexivity.
Qed.

Lemma tidy_lower (s : str) : tidy s = true -> tidy (lower s) = true.
Proof.
  induction s as [|c s IH]; [reflexivity|].
  intros H. pose proof (tidy_tail _ _ H) as Ht. specialize (IH Ht).
  pose proof (tidy_head _ _ H) as Hh.
  destruct (tidy_char_ok c Hh) as [_ [_ [_ [Hl Hfix]]]].
  cbn [lower map tidy]. fold (lower s). rewrite IH, andb_true_r.
  cbn [tidy] in H. apply andb_true_iff in H. destruct H as [H _].
  rewrite in_class_lower. destruct (in_class c) eqn:Ec; [reflexivity|].
  cbn [orb] in H |- *. rewrite (Hfix eq_refl).
  apply andb_true_iff in H. destruct H as [Hc Hd]. rewrite Hc. cbn [andb].
  destruct s as [|d s]; [reflexivity|].
  cbn [lower map]. rewrite in_class_lower. exact Hd.
Qed.

Lemma tidy_replace (s : str) :
  tidy s = true -> replace "_" "-" (replace " " "-" s) = s.
Proof.
  induction s as [|c s IH]; [reflexivity|].
  intros H. pose proof (tidy_tail _ _ H) as Ht. specialize (IH Ht).
  pose proof (tidy_head _ _ H) as Hh.
  destruct (tidy_char_ok c Hh) as [Hsp [Hun _]].
  unfold replace in *. cbn [map]. rewrite IH, Hsp, Hun. reflexivity.
Qed.

Lemma tidy_no_sep (s : str) : tidy s = true -> contains "/" s = false.
Proof.
  induction s as [|c s IH]; [reflexivity|].
  intros H. pose proof (tidy_tail _ _ H) as Ht. specialize (IH Ht).
  pose proof (tidy_head _ _ H) as Hh.
  destruct (tidy_char_ok c Hh) as [_ [_ [Hsep _]]].
  unfold contains in *. cbn [existsb]. rewrite IH.
  rewrite Ascii.eqb_sym, Hsep. reflexivity.
Qed.

Lemma nondot_hyphen_sub (s : str) :
  existsb nondot s = true -> existsb nondot (re_sub s) = true.
Proof.
  induction s as [|c s IH]; [discriminate|].
  cbn [existsb re_sub]. intros H. destruct (in_class c).
  - cbn [existsb]. destruct (nondot c); [reflexivity|]. apply IH. exact H.
  - reflexivity.
Qed.

Lemma nondot_map (f : ascii -> ascii) (s : str) :
  (forall a, nondot a = true -> nondot (f a) = true) ->
  existsb nondot s = true -> existsb nondot (map f s) = true.
Proof.
  intros Hf. induction s as [|c s IH]; [discriminate|].
  cbn [existsb map]. intros H. apply orb_true_iff in H.
  destruct H as [H|H].
  - rewrite (Hf _ H). reflexivity.
  - rewrite (IH H). apply orb_true_r.
Qed.

Lemma nondot_replace (a : ascii) :
  nondot a = true ->
  nondot (if Ascii.eqb (if Ascii.eqb a " " then "-"%char else a) "_"
          then "-"%char
          else if Ascii.eqb a " " then "-"%char else a) = true.
Proof. each_char a. Qed.

Lemma nondot_lower (a : ascii) : nondot a = true -> nondot (lower_char a) = true.
Proof. unfold nondot. rewrite eqb_lower_dot. auto. Qed.

Lemma nondot_basename (b : str) :
  existsb nondot (basename b) = true -> existsb nondot b = true.
Proof.
  intros H. apply existsb_exists in H. destruct H as [c [Hin Hc]].
  apply existsb_exists. exists c. split; auto. apply basename_incl. exact Hin.
Qed.

(* ================================================================= *)
(** ** The normalizer *)

Lemma cleaned_tidy (base : str) : tidy (cleaned base) = true.
Proof. unfold cleaned. apply tidy_lower. apply tidy_re. Qed.

Lemma get_new_name_split (name : str) :
  get_new_name name
  = cleaned (fst (splitext name)) ++ lower (snd (splitext name)).
Proof.
  unfold get_new_name, cleaned. destruct (splitext name) as [b e].
  cbn [fst snd]. apply lower_app.
Qed.

Lemma get_new_name_lowered (name : str) :
  lower (get_new_name name) = get_new_name name.
Proof.
  unfold get_new_name. destruct (splitext name) as [b e]. apply lower_idem.
Qed.

Lemma get_new_name_tidy_base (y : str) :
  tidy (fst (splitext y)) = true -> get_new_name y = lower y.
Proof.
  intros H. rewrite get_new_name_split. unfold cleaned.
  rewrite (tidy_replace _ H), (re_sub_tidy _ H), <- lower_app.
  rewrite splitext_concat. reflexivity.
Qed.

Lemma get_new_name_again (name : str) :
  get_new_name (get_new_name name) = lower (get_new_name name).
Proof.
  apply get_new_name_tidy_base.
  rewrite (get_new_name_split name).
  destruct (splitext_cases name) as [H|[b [e [Hp [Hd [Hs [Hn H]]]]]]];
    rewrite H; cbn [fst snd].
  - cbn [lower map]. rewrite app_nil_r.
    apply tidy_app_l with (b := snd (splitext (cleaned name))).
    rewrite splitext_concat. apply cleaned_tidy.
  - cbn [lower map]. fold (lower e). change (lower_char ".") with "."%char.
    rewrite splitext_dot.
    + apply cleaned_tidy.
    + rewrite contains_lower_dot. exact Hd.
    + rewrite contains_lower_sep. exact Hs.
    + rewrite basename_absent by (apply tidy_no_sep, cleaned_tidy).
      unfold cleaned, lower. apply nondot_map; [apply nondot_lower|].
      apply nondot_hyphen_sub. unfold replace. rewrite map_map.
      apply nondot_map; [apply nondot_replace|].
      apply nondot_basename. exact Hn.
Qed.

Lemma get_new_name_idem (name : str) :
  get_new_name (get_new_name name) = get_new_name name.
Proof. rewrite get_new_name_again. apply get_new_name_lowered. Qed.

Lemma replace_hyphenate (s : str) :
  replace "_" "-" (replace " " "-" s) = map hyphenate s.
Proof.
  unfold replace. rewrite map_map. apply map_ext. intros c. each_char c.
Qed.

Lemma runs_cons_key (d : ascii) (s : str) :
  exists r rs, runs (d :: s) = (in_class d, d :: r) :: rs.
Proof.
  cbn [runs]. destruct (runs s) as [|[k r] rs]; [eauto|].
  destruct (Bool.eqb k (in_class d)) eqn:E; [|eauto].
  apply eqb_prop in E. subst k. eauto.
Qed.

Lemma collapse_cons (c : ascii) (s : str) :
  collapse (c :: s)
  = if in_class c then c :: collapse s
    else "-"%char ::
         match s with
         | [] => []
         | d :: _ => if in_class d then collapse s else tl (collapse s)
         end.
Proof.
  unfold collapse. destruct s as [|d s].
  - cbn. destruct (in_class c); reflexivity.
  - destruct (runs_cons_key d s) as [r [rs Hr]].
    cbn [runs]. cbn [runs] in Hr. rewrite Hr.
    destruct (in_class c), (in_class d); reflexivity.
Qed.

Lemma re_collapse (s : str) :
  re_sub s = collapse s
  /\ re_skip s = match s with
                 | [] => []
                 | d :: _ => if in_class d then collapse s else tl (collapse s)
                 end.
Proof.
  induction s as [|c s [IH1 IH2]]; [split; reflexivity|].
  rewrite collapse_cons. cbn [re_sub re_skip]. rewrite IH1, IH2.
  destruct (in_class c); split; reflexivity.
Qed.

Lemma app_same_length {A : Type} (a b c d : list A) :
  a ++ b = c ++ d -> List.length b = List.length d -> a = c /\ b = d.
Proof.
  revert c. induction a as [|x a IH]; intros [|y c] H Hl.
  - auto.
  - exfalso. cbn [app] in H. rewrite H in Hl. cbn [List.length] in Hl.
    rewrite length_app in Hl. lia.
  - exfalso. cbn [app] in H. rewrite <- H in Hl. cbn [List.length] in Hl.
    rewrite length_app in Hl. lia.
  - cbn [app] in H. injection H as Hx H. destruct (IH _ H Hl). subst. auto.
Qed.

(** C1, as stated, fails: [a@b] holds no space, no underscore and no
    capital, and the substitution turns its [@] into a hyphen. *)
Lemma should_rename_false_not_fixed :
  ~ (should_rename (lit "a@b") = false ->
     get_new_name (lit "a@b") = lit "a@b").
Proof. intros H. specialize (H eq_refl). discriminate H. Qed.

(** C1, amended: a name [should_rename] rejects is a fixed point of
    [get_new_name] exactly when its base is tidy, that is when each
    character of the base outside [[A-Za-z0-9.]] is a hyphen standing
    alone. *)
Theorem should_rename_false_fixed_iff_tidy (name : str) :
  should_rename name = false ->
  (get_new_name name = name <-> tidy (fst (splitext name)) = true).
Proof.
  intros H. unfold should_rename in H.
  apply orb_false_iff in H. destruct H as [H Hlow].
  apply negb_false_iff, str_eqb_eq in Hlow.
  split.
  - intros Hfix. rewrite get_new_name_split in Hfix.
    rewrite <- (splitext_concat name) in Hfix at 3.
    apply app_same_length in Hfix.
    + destruct Hfix as [Hb _]. rewrite <- Hb. apply cleaned_tidy.
    + unfold lower. apply length_map.
  - intros Ht. rewrite (get_new_name_tidy_base _ Ht). symmetry. exact Hlow.
Qed.

Lemma should_rename_false_fixed_iff_tidy_witness :
  should_rename (lit "already-lower.txt") = false
  /\ (get_new_name (lit "already-lower.txt") = lit "already-lower.txt"
      <-> tidy (fst (splitext (lit "already-lower.txt"))) = true).
Proof.
  split; [reflexivity|].
  apply (should_rename_false_fixed_iff_tidy (lit "already-lower.txt")).
  reflexivity.
Defined.

(** C6: [get_new_name] is idempotent. *)
Theorem get_new_name_idempotent (x : str) :
  get_new_name (get_new_name x) = get_new_name x.
Proof. apply get_new_name_idem. Qed.

(** C7, as stated, fails on a name whose last dot is a leading dot:
    [os.path.splitext] keeps [.My File] whole, so that the substitution
    applies to all of it, where a split at the last dot would leave it all
    to the extension. *)
Lemma get_new_name_not_split_at_last_dot :
  get_new_name (lit ".My File") <> normalize_words (lit ".My File").
Proof. vm_compute. discriminate. Qed.

(** C7, amended: [get_new_name] splits the name at its last dot, unless a
    separator follows that dot or nothing but dots precedes it in the last
    path component (then the whole name is the base); in the base it turns
    spaces and underscores into hyphens and every run of characters outside
    [[A-Za-z0-9.]] into one hyphen; it lowercases base and extension.  So
    [My File_Name.TXT] becomes [my-file-name.txt]. *)
Theorem get_new_name_meets_amended_words :
  (forall name : str, get_new_name name = normalize_amended name)
  /\ get_new_name (lit "My File_Name.TXT") = lit "my-file-name.txt".
Proof.
  split; [|reflexivity].
  intros name. unfold get_new_name, normalize_amended, normalize_with.
  rewrite <- splitext_amended. destruct (splitext name) as [b e].
  rewrite replace_hyphenate. rewrite (proj1 (re_collapse _)). reflexivity.
Qed.

(* ================================================================= *)
(** ** The walker *)

(** Induction over trees, with the hypothesis for every entry of a
    directory. *)
Lemma node_nested_ind (P : node -> Prop) :
  (forall n i, P (File n i)) ->
  (forall n i, P (Link n i)) ->
  (forall n i sub, Forall P sub -> P (Dir n i sub)) ->
  forall e, P e.
Proof.
  intros HF HL HD. fix IH 1. intros [n i|n i|n i sub].
  - apply HF.
  - apply HL.
  - apply HD. induction sub as [|c sub IHsub].
    + constructor.
    + constructor; [apply IH|exact IHsub].
Qed.

Lemma tagged_dir_unfold (p : str) (n : str) (i : nat) (sub : list node) :
  tagged_dir p (Dir n i sub) = collect_tagged p sub.
Proof. reflexivity. Qed.

Lemma collect_dir_unfold (p : str) (n : str) (i : nat) (sub : list node) :
  collect_dir p (Dir n i sub) = collect_renames p sub.
Proof. reflexivity. Qed.

(** The loop appends to each accumulator what each entry contributes. *)
Lemma tagged_loop_flat (R : str) (todo : list node) (F D : list tagged) :
  tagged_loop tagged_dir R todo F D
  = (F ++ flat_map (gathered R) todo) ++ (D ++ flat_map (own_dir_item R) todo).
Proof.
  revert F D. induction todo as [|e todo IH]; intros F D.
  - cbn [tagged_loop flat_map]. rewrite !app_nil_r. reflexivity.
  - cbn [tagged_loop flat_map]. unfold gathered, own_dir_item, skipped.
    destruct (is_hidden (join R (name_of e)) || islink e) eqn:Hs.
    + cbn [negb andb app]. apply IH.
    + cbn [negb andb]. destruct e as [n i|n i|n i sub]; cbn [isdir].
      * destruct (should_rename (name_of (File n i))); rewrite IH.
        -- unfold renamed_to. rewrite <- !app_assoc. reflexivity.
        -- reflexivity.
      * destruct (should_rename (name_of (Link n i))); rewrite IH.
        -- unfold renamed_to. rewrite <- !app_assoc. reflexivity.
        -- reflexivity.
      * rewrite IH. rewrite tagged_dir_unfold. unfold renamed_to.
        cbn [name_of]. rewrite <- !app_assoc. reflexivity.
Qed.

Lemma collect_tagged_flat (R : str) (l : list node) :
  collect_tagged R l
  = flat_map (gathered R) l ++ flat_map (own_dir_item R) l.
Proof. unfold collect_tagged. rewrite tagged_loop_flat. reflexivity. Qed.

(** Erasing the labels. *)
Lemma tagged_loop_erase (rt : str -> node -> list tagged)
  (ru : str -> node -> list item) (R : str) (todo : list node) :
  Forall (fun e => forall p, map snd (rt p e) = ru p e) todo ->
  forall F D,
    map snd (tagged_loop rt R todo F D)
    = collect_loop ru R todo (map snd F) (map snd D).
Proof.
  induction 1 as [|e todo He _ IH]; intros F D.
  - cbn [tagged_loop collect_loop]. apply map_app.
  - cbn [tagged_loop collect_loop].
    destruct (is_hidden (join R (name_of e)) || islink e); [apply IH|].
    destruct (isdir e).
    + rewrite IH, !map_app, He. reflexivity.
    + destruct (should_rename (name_of e)); rewrite IH; [|reflexivity].
      rewrite !map_app. reflexivity.
Qed.

Lemma tagged_dir_erase (d : node) :
  forall p, map snd (tagged_dir p d) = collect_dir p d.
Proof.
  induction d as [n i|n i|n i sub IH] using node_nested_ind; intros p;
    try reflexivity.
  cbn [tagged_dir collect_dir].
  apply (tagged_loop_erase tagged_dir collect_dir p sub IH [] []).
Qed.

Lemma collect_tagged_erase (R : str) (l : list node) :
  map snd (collect_tagged R l) = collect_renames R l.
Proof.
  unfold collect_tagged, collect_renames.
  apply (tagged_loop_erase tagged_dir collect_dir R l) with (F := []) (D := []).
  apply Forall_forall. intros e _. apply tagged_dir_erase.
Qed.

(* ================================================================= *)
(** ** Order in a list *)

Lemma before_app {A : Type} (x y : A) (a b : list A) :
  In x a -> In y b -> before x y (a ++ b).
Proof.
  intros Hx Hy. apply in_split in Hx. destruct Hx as [a1 [a2 Ha]].
  apply in_split in Hy. destruct Hy as [b1 [b2 Hb]]. subst.
  exists a1, (a2 ++ b1), b2. rewrite <- !app_assoc. reflexivity.
Qed.

Lemma before_app_l {A : Type} (x y : A) (a b : list A) :
  before x y a -> before x y (a ++ b).
Proof.
  intros [l1 [l2 [l3 H]]]. subst. exists l1, l2, (l3 ++ b).
  rewrite <- !app_assoc. cbn [app]. rewrite <- !app_assoc. reflexivity.
Qed.

Lemma before_app_r {A : Type} (x y : A) (a b : list A) :
  before x y b -> before x y (a ++ b).
Proof.
  intros [l1 [l2 [l3 H]]]. subst. exists (a ++ l1), l2, l3.
  rewrite <- !app_assoc. reflexivity.
Qed.

Lemma before_nil {A : Type} (x y : A) : ~ before x y [].
Proof. intros [[|a l1] [l2 [l3 H]]]; discriminate H. Qed.

Lemma before_cons_inv {A : Type} (x y a : A) (l : list A) :
  before x y (a :: l) -> (a = x /\ In y l) \/ before x y l.
Proof.
  intros [[|b l1] [l2 [l3 H]]]; cbn [app] in H; injection H as Ha Hl.
  - left. split; auto. subst l. apply in_or_app. right. left. reflexivity.
  - right. exists l1, l2, l3. exact Hl.
Qed.

Lemma before_flat_map {A B : Type} (f : A -> list B) (x y : B) (a : A)
  (l : list A) :
  In a l -> before x y (f a) -> before x y (flat_map f l).
Proof.
  intros Ha Hb. apply in_split in Ha. destruct Ha as [l1 [l2 Hl]]. subst l.
  rewrite flat_map_app. cbn [flat_map].
  apply before_app_r, before_app_l. exact Hb.
Qed.

Lemma before_map {A B : Type} (f : A -> B) (x y : A) (l : list A) :
  before x y l -> before (f x) (f y) (map f l).
Proof.
  intros [l1 [l2 [l3 H]]]. subst.
  exists (map f l1), (map f l2), (map f l3).
  rewrite !map_app. cbn [map]. rewrite map_app. reflexivity.
Qed.

Lemma two_branches_plan :
  collect_tagged (lit "root") two_branches
  = [(IsDir, (lit "root/A/B", lit "root/A/b"));
     (IsFile, (lit "root/C/f.TXT", lit "root/C/f.txt"));
     (IsDir, (lit "root/A", lit "root/a"));
     (IsDir, (lit "root/C", lit "root/c"))].
Proof. reflexivity. Qed.

(** C3, as stated, fails on the tree [A/B/], [C/f.TXT]: the plan starts
    with the directory item of [A/B], ahead of the file item of [C/f.TXT],
    and the item of [A/B] comes before the item of its parent [A]. *)
Lemma files_then_shallow_dirs_fails :
  ~ files_then_dirs (collect_tagged (lit "root") two_branches)
  /\ ~ shallow_first (collect_tagged (lit "root") two_branches).
Proof.
  rewrite two_branches_plan. split.
  - intros [fs [ds [H [Hf Hd]]]]. destruct fs as [|f fs]; cbn [app] in H.
    + subst ds. inversion Hd as [|? ? _ Hd']. inversion Hd' as [|? ? Hk _].
      discriminate Hk.
    + injection H as Hx _. subst f. inversion Hf as [|? ? Hk _].
      discriminate Hk.
  - intros H.
    specialize (H (IsDir, (lit "root/A", lit "root/a"))
                  (IsDir, (lit "root/A/B", lit "root/A/b"))).
    assert (Hb : before (IsDir, (lit "root/A", lit "root/a"))
                        (IsDir, (lit "root/A/B", lit "root/A/b"))
                        [(IsDir, (lit "root/A/B", lit "root/A/b"));
                         (IsFile, (lit "root/C/f.TXT", lit "root/C/f.txt"));
                         (IsDir, (lit "root/A", lit "root/a"));
                         (IsDir, (lit "root/C", lit "root/c"))]).
    { apply H.
      - cbn [In]. auto.
      - cbn [In]. auto.
      - split; [reflexivity|]. split; [reflexivity|].
        exists (lit "B"). split; reflexivity. }
    clear H.
    apply before_cons_inv in Hb. destruct Hb as [[Hb _]|Hb];
      [discriminate Hb|].
    apply before_cons_inv in Hb. destruct Hb as [[Hb _]|Hb];
      [discriminate Hb|].
    apply before_cons_inv in Hb. destruct Hb as [[_ Hb]|Hb].
    + destruct Hb as [Hb|[]]. discriminate Hb.
    + apply before_cons_inv in Hb. destruct Hb as [[Hb _]|Hb];
        [discriminate Hb|].
      exact (before_nil _ _ Hb).
Qed.

(** C3, amended: the plan of a directory is what its entries contribute in
    listing order (the item of a file to rename, the whole plan of a
    subdirectory) followed by the items of its own subdirectories in
    listing order; so the item of a directory comes after every item of the
    plans of its subdirectories, their directory items included. *)
Theorem plan_gathered_then_own_dirs (R : str) (l : list node) :
  map snd (collect_tagged R l) = collect_renames R l
  /\ collect_tagged R l
     = flat_map (gathered R) l ++ flat_map (own_dir_item R) l
  /\ (forall n i sub x,
         In (Dir n i sub) l -> skipped R (Dir n i sub) = false ->
         In x (collect_tagged (join R n) sub) ->
         before x (IsDir, renamed_to R (Dir n i sub)) (collect_tagged R l)).
Proof.
  split; [apply collect_tagged_erase|]. split; [apply collect_tagged_flat|].
  intros n i sub x Hin Hs Hx. rewrite collect_tagged_flat.
  apply before_app.
  - apply in_flat_map. exists (Dir n i sub). split; [exact Hin|].
    unfold gathered. rewrite Hs. exact Hx.
  - apply in_flat_map. exists (Dir n i sub). split; [exact Hin|].
    unfold own_dir_item. rewrite Hs. left. reflexivity.
Qed.

Lemma plan_gathered_then_own_dirs_witness :
  In (Dir (lit "A") 1 [Dir (lit "B") 2 []]) two_branches
  /\ skipped (lit "root") (Dir (lit "A") 1 [Dir (lit "B") 2 []]) = false
  /\ In (IsDir, (lit "root/A/B", lit "root/A/b"))
        (collect_tagged (join (lit "root") (lit "A")) [Dir (lit "B") 2 []])
  /\ before (IsDir, (lit "root/A/B", lit "root/A/b"))
            (IsDir, (lit "root/A", lit "root/a"))
            (collect_tagged (lit "root") two_branches).
Proof.
  assert (H1 : In (Dir (lit "A") 1 [Dir (lit "B") 2 []]) two_branches)
    by (left; reflexivity).
  assert (H2 : skipped (lit "root") (Dir (lit "A") 1 [Dir (lit "B") 2 []])
               = false) by reflexivity.
  assert (H3 : In (IsDir, (lit "root/A/B", lit "root/A/b"))
                  (collect_tagged (join (lit "root") (lit "A"))
                                  [Dir (lit "B") 2 []]))
    by (left; reflexivity).
  repeat split; auto.
  exact (proj2 (proj2 (plan_gathered_then_own_dirs (lit "root") two_branches))
               (lit "A") 1 [Dir (lit "B") 2 []] _ H1 H2 H3).
Defined.

(* ================================================================= *)
(** ** Paths as chains of names *)

Lemma valid_name_inv (n : str) :
  valid_name n = true ->
  n <> [] /\ contains "/" n = false /\ n <> lit "." /\ n <> lit "..".
Proof.
  unfold valid_name. intros H.
  apply andb_true_iff in H. destruct H as [H H4].
  apply andb_true_iff in H. destruct H as [H H3].
  apply andb_true_iff in H. destruct H as [H1 H2].
  apply negb_true_iff in H1, H2, H3, H4.
  apply str_eqb_neq in H1, H3, H4. auto.
Qed.

Lemma startswith_absent (c : ascii) (n : str) :
  contains c n = false -> startswith c n = false.
Proof.
  destruct n as [|a n]; [reflexivity|].
  unfold contains. cbn [existsb startswith]. intros H.
  apply orb_false_iff in H. destruct H as [H _].
  rewrite Ascii.eqb_sym. exact H.
Qed.

Lemma pre_shape (R : str) : pre R = [] \/ exists X, pre R = X ++ ["/"%char].
Proof.
  unfold pre, join. cbn [startswith orb].
  destruct R as [|a R]; [left; reflexivity|]. right.
  destruct (endswith "/" (a :: R)) eqn:E.
  - rewrite app_nil_r. unfold endswith in E.
    destruct (rev (a :: R)) as [|b Y] eqn:Er; [discriminate E|].
    cbn [startswith] in E. apply Ascii.eqb_eq in E. subst b.
    exists (rev Y). rewrite <- (rev_involutive (a :: R)), Er. reflexivity.
  - exists (a :: R). reflexivity.
Qed.

Lemma join_pre (R n : str) : startswith "/" n = false -> join R n = pre R ++ n.
Proof.
  intros Hn. unfold pre, join. rewrite Hn. cbn [startswith orb].
  destruct R as [|a R]; [reflexivity|].
  destruct (endswith "/" (a :: R)).
  - rewrite app_nil_r. reflexivity.
  - rewrite <- app_assoc. reflexivity.
Qed.

Lemma join_valid (R n : str) : valid_name n = true -> join R n = pre R ++ n.
Proof.
  intros H. apply join_pre. apply startswith_absent.
  apply valid_name_inv in H. tauto.
Qed.

Lemma endswith_app_nonempty (c : ascii) (a n : str) :
  n <> [] -> endswith c (a ++ n) = endswith c n.
Proof.
  intros Hn. unfold endswith. rewrite rev_app_distr.
  destruct (rev n) as [|b Y] eqn:Er; [|reflexivity].
  exfalso. apply Hn. rewrite <- (rev_involutive n), Er. reflexivity.
Qed.

Lemma endswith_absent (c : ascii) (n : str) :
  contains c n = false -> endswith c n = false.
Proof.
  intros H. unfold endswith. apply startswith_absent.
  apply contains_false. apply contains_false in H.
  intros Hin. apply H. apply in_rev. exact Hin.
Qed.

Lemma pre_join (R n : str) :
  valid_name n = true -> pre (join R n) = pre R ++ n ++ ["/"%char].
Proof.
  intros H. rewrite (join_valid R n H).
  apply valid_name_inv in H. destruct H as [Hn [Hs _]].
  unfold pre at 1. unfold join. cbn [startswith orb].
  destruct (pre R ++ n) as [|a X] eqn:E.
  - apply app_eq_nil in E. tauto.
  - rewrite <- E. rewrite (endswith_app_nonempty _ _ _ Hn).
    rewrite (endswith_absent _ _ Hs). rewrite <- app_assoc. reflexivity.
Qed.

Lemma path_single (R n : str) : valid_name n = true -> path R [n] = join R n.
Proof. intros H. rewrite (join_valid R n H). reflexivity. Qed.

Lemma path_cons (R n : str) (ns : chain) :
  valid_name n = true -> ns <> [] ->
  path (join R n) ns = path R (n :: ns).
Proof.
  intros H Hns. unfold path. rewrite (pre_join R n H).
  destruct ns as [|m ns]; [contradiction|].
  cbn [inter]. rewrite <- !app_assoc. reflexivity.
Qed.

Lemma split_app_sep (a b : str) :
  contains "/" a = false -> split "/" (a ++ "/"%char :: b) = a :: split "/" b.
Proof.
  induction a as [|c a IH]; intros H.
  - reflexivity.
  - unfold contains in H. cbn [existsb] in H.
    apply orb_false_iff in H. destruct H as [Hc Ha].
    cbn [app]. rewrite split_cons, (IH Ha). rewrite Ascii.eqb_sym, Hc.
    reflexivity.
Qed.

Lemma split_inter (ns : chain) :
  ns <> [] -> Forall no_sep ns -> split "/" (inter ns) = ns.
Proof.
  intros Hne H. induction H as [|n ns Hn H IH]; [contradiction|].
  destruct ns as [|m ns].
  - cbn [inter]. apply split_absent. exact Hn.
  - change (inter (n :: m :: ns)) with (n ++ "/"%char :: inter (m :: ns)).
    rewrite (split_app_sep _ _ Hn), IH; [reflexivity|discriminate].
Qed.

Lemma inter_inj (ns ms : chain) :
  ns <> [] -> ms <> [] -> Forall no_sep ns -> Forall no_sep ms ->
  inter ns = inter ms -> ns = ms.
Proof.
  intros Hn Hm Fn Fm H.
  rewrite <- (split_inter ns Hn Fn), <- (split_inter ms Hm Fm), H.
  reflexivity.
Qed.

Lemma inter_app (ns ks : chain) :
  ns <> [] -> ks <> [] -> inter (ns ++ ks) = inter ns ++ "/"%char :: inter ks.
Proof.
  intros Hn Hk. induction ns as [|n ns IH]; [contradiction|].
  destruct ns as [|m ns].
  - cbn [app]. destruct ks; [contradiction|]. reflexivity.
  - change (((n :: m :: ns) ++ ks)) with (n :: (m :: ns) ++ ks).
    change (inter (n :: (m :: ns) ++ ks))
      with (n ++ "/"%char :: inter ((m :: ns) ++ ks)).
    rewrite IH by discriminate.
    change (inter (n :: m :: ns)) with (n ++ "/"%char :: inter (m :: ns)).
    rewrite <- app_assoc. reflexivity.
Qed.

(** A path strictly inside another one continues its chain. *)
Lemma inter_inside (ns ms : chain) (rest : str) :
  ns <> [] -> ms <> [] -> Forall no_sep ns -> Forall no_sep ms ->
  inter ms = inter ns ++ "/"%char :: rest ->
  exists ks, ks <> [] /\ ms = ns ++ ks.
Proof.
  intros Hn Hm Fn Fm. revert ms Hm Fm.
  induction Fn as [|n ns Hno Fn IH]; [contradiction|].
  intros ms Hm Fm H. destruct ms as [|m ms]; [contradiction|].
  inversion Fm as [|? ? Hmo Fm']; subst.
  assert (Hsplit : split "/" (inter (m :: ms)) = m :: ms)
    by (apply split_inter; auto).
  destruct ns as [|n' ns].
  - change (inter [n]) with n in H.
    rewrite H, (split_app_sep _ _ Hno) in Hsplit.
    injection Hsplit as Hm' Hms. subst m.
    exists ms. split; [|reflexivity].
    intros E. rewrite E in Hms. exact (split_nonempty _ _ Hms).
  - change (inter (n :: n' :: ns)) with (n ++ "/"%char :: inter (n' :: ns))
      in H.
    rewrite <- app_assoc in H. cbn [app] in H.
    destruct ms as [|m' ms].
    + change (inter [m]) with m in H. exfalso.
      assert (Hc : contains "/" m = true).
      { rewrite H, contains_app. unfold contains at 2. cbn [existsb].
        rewrite Ascii.eqb_refl. apply orb_true_r. }
      unfold no_sep in Hmo. congruence.
    + change (inter (m :: m' :: ms)) with (m ++ "/"%char :: inter (m' :: ms))
        in H.
      assert (Hh : m :: split "/" (inter (m' :: ms))
                   = n :: split "/" (inter (n' :: ns) ++ "/"%char :: rest)).
      { rewrite <- (split_app_sep _ _ Hmo), <- (split_app_sep _ _ Hno), H.
        reflexivity. }
      injection Hh as Hmn _. subst m.
      apply app_inv_head in H. injection H as H.
      destruct (IH ltac:(discriminate) (m' :: ms) ltac:(discriminate) Fm' H)
        as [ks [Hks E]].
      exists ks. split; [exact Hks|]. cbn [app]. rewrite E. reflexivity.
Qed.

Lemma path_inj (R : str) (ns ms : chain) :
  ns <> [] -> ms <> [] -> Forall no_sep ns -> Forall no_sep ms ->
  path R ns = path R ms -> ns = ms.
Proof.
  intros Hn Hm Fn Fm H. unfold path in H. apply app_inv_head in H.
  apply inter_inj; auto.
Qed.

Lemma path_inside (R : str) (ns ms : chain) :
  ns <> [] -> ms <> [] -> Forall no_sep ns -> Forall no_sep ms ->
  inside (path R ns) (path R ms) ->
  exists ks, ks <> [] /\ ms = ns ++ ks.
Proof.
  intros Hn Hm Fn Fm [rest H]. unfold path in H.
  rewrite <- app_assoc in H. apply app_inv_head in H.
  apply (inter_inside ns ms rest); auto.
Qed.

(* ================================================================= *)
(** ** Well-formed trees *)

Lemma wf_listing_inv (l : list node) :
  wf_listing l = true ->
  distinct (map name_of l) = true /\ Forall (fun e => wf_node e = true) l.
Proof.
  unfold wf_listing. intros H. apply andb_true_iff in H.
  destruct H as [H1 H2]. split; [exact H1|].
  apply Forall_forall. apply forallb_forall. exact H2.
Qed.

Lemma wf_node_valid (e : node) :
  wf_node e = true -> valid_name (name_of e) = true.
Proof.
  destruct e; cbn [wf_node name_of]; intros H;
    apply andb_true_iff in H; tauto.
Qed.

Lemma wf_node_dir (n : str) (i : nat) (sub : list node) :
  wf_node (Dir n i sub) = true ->
  valid_name n = true /\ wf_listing sub = true.
Proof.
  cbn [wf_node name_of]. intros H. apply andb_true_iff in H.
  destruct H as [H1 H2]. split; [exact H1|exact H2].
Qed.

Lemma wf_listing_in (l : list node) (e : node) :
  wf_listing l = true -> In e l -> wf_node e = true.
Proof.
  intros H Hin. apply wf_listing_inv in H. destruct H as [_ H].
  rewrite Forall_forall in H. apply H. exact Hin.
Qed.

Lemma distinct_not_in (a : str) (l : list str) :
  existsb (str_eqb a) l = false -> ~ In a l.
Proof.
  intros H Hin.
  assert (existsb (str_eqb a) l = true).
  { apply existsb_exists. exists a. split; [exact Hin|apply str_eqb_refl]. }
  congruence.
Qed.

Lemma distinct_NoDup (l : list str) : distinct l = true <-> NoDup l.
Proof.
  induction l as [|a l IH]; cbn [distinct].
  - split; [constructor|reflexivity].
  - rewrite andb_true_iff, negb_true_iff, IH. split.
    + intros [H1 H2]. constructor; [apply distinct_not_in; exact H1|exact H2].
    + intros H. inversion H as [|? ? Hn Hd]; subst. split; [|exact Hd].
      destruct (existsb (str_eqb a) l) eqn:E; [|reflexivity].
      apply existsb_exists in E. destruct E as [x [Hx Ex]].
      apply str_eqb_eq in Ex. subst x. contradiction.
Qed.

Lemma distinct_inj (l : list node) (a b : node) :
  distinct (map name_of l) = true ->
  In a l -> In b l -> name_of a = name_of b -> a = b.
Proof.
  rewrite distinct_NoDup.
  induction l as [|c l IH]; cbn [map]; intros Hd Ha Hb Hn; [destruct Ha|].
  inversion Hd as [|? ? Hc Hl]; subst.
  destruct Ha as [Ha|Ha], Hb as [Hb|Hb].
  - congruence.
  - subst c. exfalso. apply Hc. rewrite Hn. apply in_map. exact Hb.
  - subst c. exfalso. apply Hc. rewrite <- Hn. apply in_map. exact Ha.
  - apply IH; auto.
Qed.

Lemma named_eq (n : str) (e : node) : named n e = true <-> name_of e = n.
Proof. unfold named. apply str_eqb_eq. Qed.

(* ================================================================= *)
(** ** Names and paths of entries *)

Lemma basename_pre (R n : str) :
  contains "/" n = false -> basename (pre R ++ n) = n.
Proof.
  intros Hn. unfold basename.
  rewrite (rfind_app_absent _ _ _ Hn).
  destruct (pre_shape R) as [E|[X E]]; rewrite E.
  - reflexivity.
  - rewrite (rfind_last "/" X [] eq_refl).
    replace (Z.to_nat (Z.of_nat (List.length X) + 1))
      with (List.length (X ++ ["/"%char]))
      by (rewrite length_app; cbn [List.length]; lia).
    rewrite skipn_app, Nat.sub_diag, skipn_all. reflexivity.
Qed.

Lemma is_hidden_join (R n : str) :
  valid_name n = true -> is_hidden (join R n) = startswith "." n.
Proof.
  intros H. unfold is_hidden. rewrite (join_valid R n H).
  apply valid_name_inv in H. destruct H as [_ [H _]].
  rewrite (basename_pre R n H). reflexivity.
Qed.

Lemma skipped_shown (R : str) (e : node) :
  valid_name (name_of e) = true -> skipped R e = negb (shown e).
Proof.
  intros H. unfold skipped, shown. rewrite (is_hidden_join R _ H).
  rewrite negb_andb, !negb_involutive. reflexivity.
Qed.

Lemma contains_replace (c a b : ascii) (s : str) :
  Ascii.eqb b c = false -> contains c s = false ->
  contains c (replace a b s) = false.
Proof.
  intros Hb. unfold contains, replace.
  induction s as [|x s IH]; [reflexivity|]. cbn [map existsb].
  intros H. apply orb_false_iff in H. destruct H as [Hx Hs].
  rewrite (IH Hs), orb_false_r.
  destruct (Ascii.eqb x a); [rewrite Ascii.eqb_sym; exact Hb|exact Hx].
Qed.

Lemma cleaned_no_sep (b : str) : contains "/" (cleaned b) = false.
Proof. apply tidy_no_sep, cleaned_tidy. Qed.

Lemma get_new_name_no_sep (n : str) :
  contains "/" n = false -> contains "/" (get_new_name n) = false.
Proof.
  intros H. rewrite get_new_name_split, contains_app, cleaned_no_sep.
  rewrite contains_lower_sep. cbn [orb].
  rewrite <- (splitext_concat n), contains_app in H.
  apply orb_false_iff in H. tauto.
Qed.

Lemma cleaned_head (c : ascii) (b : str) :
  Ascii.eqb c "." = false ->
  exists d r, cleaned (c :: b) = d :: r /\ Ascii.eqb d "." = false.
Proof.
  intros Hc. unfold cleaned, replace. cbn [map re_sub].
  set (c' := if Ascii.eqb (if Ascii.eqb c " " then "-"%char else c) "_"
             then "-"%char else if Ascii.eqb c " " then "-"%char else c).
  destruct (in_class c') eqn:E; cbn [lower map].
  - eexists _, _. split; [reflexivity|].
    rewrite eqb_lower_dot. subst c'. revert Hc. clear. each_char c.
  - eexists _, _. split; reflexivity.
Qed.

Lemma splitext_base_head (c : ascii) (n : str) :
  exists b, fst (splitext (c :: n)) = c :: b.
Proof.
  destruct (splitext_cases (c :: n)) as [H|[b [e [Hp [_ [_ [Hn H]]]]]]];
    rewrite H; cbn [fst].
  - eauto.
  - destruct b as [|x b].
    + cbn in Hn. discriminate Hn.
    + cbn [app] in Hp. injection Hp as Hx _. subst x. eauto.
Qed.

Lemma get_new_name_valid (n : str) :
  valid_name n = true -> startswith "." n = false ->
  valid_name (get_new_name n) = true
  /\ startswith "." (get_new_name n) = false.
Proof.
  intros Hv Hd. pose proof (valid_name_inv _ Hv) as [Hne [Hs _]].
  destruct n as [|c n]; [contradiction|]. cbn [startswith] in Hd.
  destruct (splitext_base_head c n) as [b Hb].
  destruct (cleaned_head c b Hd) as [d [r [Hc Hdd]]].
  pose proof (get_new_name_no_sep (c :: n) Hs) as Hns.
  rewrite get_new_name_split, Hb, Hc in *. cbn [app] in *.
  split; [|exact Hdd].
  unfold valid_name. rewrite Hns. cbn [negb andb].
  assert (Hx : forall t, str_eqb (d :: r ++ lower (snd (splitext (c :: n))))
                                 ("."%char :: t) = false).
  { intros t. apply str_eqb_neq. intros E. injection E as E _. subst d.
    discriminate Hdd. }
  change (lit ".") with ("."%char :: []).
  change (lit "..") with ("."%char :: ["."%char]).
  rewrite !Hx. reflexivity.
Qed.

(* ================================================================= *)
(** ** The walker on chains *)

Lemma walk_dir_unfold (n : str) (i : nat) (sub : list node) :
  walk_dir (Dir n i sub) = walk sub.
Proof. reflexivity. Qed.

Lemma walk_flat (l : list node) :
  walk l = flat_map (walk_gathered walk_dir) l ++ flat_map walk_own l.
Proof. reflexivity. Qed.

Lemma walk_item_cases (l : list node) (it : citem) :
  In it (walk l) ->
  exists e, In e l /\ shown e = true
    /\ ((isdir e = false /\ should_rename (name_of e) = true
         /\ it = own_item e)
        \/ (isdir e = true /\ it = own_item e)
        \/ (exists n i sub it', e = Dir n i sub /\ In it' (walk sub)
                                /\ it = push n it')).
Proof.
  rewrite walk_flat. intros H. apply in_app_or in H. destruct H as [H|H];
    apply in_flat_map in H; destruct H as [e [He H]]; exists e;
    (split; [exact He|]).
  - unfold walk_gathered in H. destruct (shown e) eqn:Es; [|destruct H].
    split; [reflexivity|]. destruct (isdir e) eqn:Ed.
    + right. right. destruct e as [n i|n i|n i sub]; try discriminate Ed.
      cbn [name_of] in H. rewrite walk_dir_unfold in H.
      apply in_map_iff in H. destruct H as [it' [E Hit]].
      exists n, i, sub, it'. auto.
    + left. destruct (should_rename (name_of e)); [|destruct H].
      destruct H as [H|[]]. auto.
  - unfold walk_own in H. destruct (shown e) eqn:Es; [|destruct H].
    split; [reflexivity|]. cbn [andb] in H.
    destruct (isdir e) eqn:Ed; [|destruct H].
    destruct H as [H|[]]. auto.
Qed.

Lemma walk_nonempty (l : list node) (it : citem) :
  In it (walk l) -> fst it <> [] /\ snd it <> [].
Proof.
  intros H. destruct (walk_item_cases l it H)
    as [e [_ [_ [[_ [_ E]]|[[_ E]|[n [i [sub [it' [_ [_ E]]]]]]]]]]];
    subst it; split; discriminate.
Qed.

Lemma map_flat_map {A B C : Type} (f : B -> C) (g : A -> list B)
  (l : list A) :
  map f (flat_map g l) = flat_map (fun a => map f (g a)) l.
Proof.
  induction l as [|a l IH]; [reflexivity|].
  cbn [flat_map]. rewrite map_app, IH. reflexivity.
Qed.

Lemma flat_map_ext_in {A B : Type} (f g : A -> list B) (l : list A) :
  (forall a, In a l -> f a = g a) -> flat_map f l = flat_map g l.
Proof.
  induction l as [|a l IH]; intros H; [reflexivity|].
  cbn [flat_map]. rewrite (H a (or_introl eq_refl)), IH; [reflexivity|].
  intros b Hb. apply H. right. exact Hb.
Qed.

Lemma to_paths_push (R n : str) (it : citem) :
  valid_name n = true -> fst it <> [] -> snd it <> [] ->
  to_paths (join R n) it = to_paths R (push n it).
Proof.
  intros Hv H1 H2. unfold to_paths, push. cbn [fst snd].
  rewrite (path_cons R n _ Hv H1), (path_cons R n _ Hv H2). reflexivity.
Qed.

Lemma renamed_to_paths (R : str) (e : node) :
  valid_name (name_of e) = true -> shown e = true ->
  renamed_to R e = to_paths R (own_item e).
Proof.
  intros Hv Hs. unfold renamed_to, to_paths, own_item. cbn [fst snd].
  unfold shown in Hs. apply andb_true_iff in Hs. destruct Hs as [Hs _].
  apply negb_true_iff in Hs.
  destruct (get_new_name_valid _ Hv Hs) as [Hg _].
  rewrite (path_single R _ Hv), (path_single R _ Hg). reflexivity.
Qed.

(** On a well-formed tree the plan is the walk on chains, as paths. *)
Lemma collect_walk_listing (l : list node) :
  Forall (fun d => forall R, wf_node d = true ->
                             collect_dir R d = map (to_paths R) (walk_dir d))
         l ->
  forall R, wf_listing l = true ->
            collect_renames R l = map (to_paths R) (walk l).
Proof.
  intros IH R Hwf. rewrite <- collect_tagged_erase, collect_tagged_flat.
  rewrite walk_flat, !map_app, !map_flat_map. f_equal.
  - apply flat_map_ext_in. intros e He.
    pose proof (wf_listing_in _ _ Hwf He) as Hwe.
    pose proof (wf_node_valid _ Hwe) as Hv.
    unfold gathered, walk_gathered. rewrite (skipped_shown R e Hv).
    destruct (shown e) eqn:Es; cbn [negb]; [|reflexivity].
    destruct e as [n i|n i|n i sub]; cbn [isdir name_of] in *.
    + destruct (should_rename n); [|reflexivity]. cbn [map snd].
      rewrite (renamed_to_paths R (File n i) Hv Es). reflexivity.
    + destruct (should_rename n); [|reflexivity]. cbn [map snd].
      rewrite (renamed_to_paths R (Link n i) Hv Es). reflexivity.
    + rewrite collect_tagged_erase, <- collect_dir_unfold with (n := n) (i := i).
      rewrite Forall_forall in IH. rewrite (IH _ He (join R n) Hwe).
      rewrite walk_dir_unfold, map_map. apply map_ext_in.
      intros it Hit. destruct (walk_nonempty _ _ Hit) as [H1 H2].
      apply to_paths_push; auto.
  - apply flat_map_ext_in. intros e He.
    pose proof (wf_listing_in _ _ Hwf He) as Hwe.
    pose proof (wf_node_valid _ Hwe) as Hv.
    unfold own_dir_item, walk_own. rewrite (skipped_shown R e Hv).
    rewrite negb_involutive.
    destruct (shown e) eqn:Es; cbn [andb]; [|reflexivity].
    destruct (isdir e); [|reflexivity]. cbn [map snd].
    rewrite (renamed_to_paths R _ Hv Es). reflexivity.
Qed.

Lemma collect_walk_dir (d : node) :
  forall R, wf_node d = true ->
            collect_dir R d = map (to_paths R) (walk_dir d).
Proof.
  induction d as [n i|n i|n i sub IH] using node_nested_ind; intros R Hwf;
    try reflexivity.
  rewrite collect_dir_unfold, walk_dir_unfold.
  apply collect_walk_listing; [exact IH|].
  apply wf_node_dir in Hwf. tauto.
Qed.

Lemma collect_walk (R : str) (l : list node) :
  wf_listing l = true -> collect_renames R l = map (to_paths R) (walk l).
Proof.
  apply collect_walk_listing. apply Forall_forall. intros d _.
  apply collect_walk_dir.
Qed.

(** Induction over listings: a property holds of a listing as soon as it
    holds of the listings of its subdirectories. *)
Lemma listing_ind (Q : list node -> Prop) :
  (forall l, (forall n i sub, In (Dir n i sub) l -> Q sub) -> Q l) ->
  forall l, Q l.
Proof.
  intros H.
  assert (HP : forall d, match d with Dir _ _ sub => Q sub | _ => True end).
  { induction d as [n i|n i|n i sub IH] using node_nested_ind; auto.
    apply H. intros n' i' sub' Hin. rewrite Forall_forall in IH.
    exact (IH _ Hin). }
  intros l. apply H. intros n i sub _. exact (HP (Dir n i sub)).
Qed.

Lemma wf_listing_sub (l : list node) (n : str) (i : nat) (sub : list node) :
  wf_listing l = true -> In (Dir n i sub) l ->
  valid_name n = true /\ wf_listing sub = true.
Proof.
  intros Hwf Hin. apply wf_node_dir with (i := i).
  exact (wf_listing_in _ _ Hwf Hin).
Qed.

Lemma wf_same_name (l : list node) (a b : node) :
  wf_listing l = true -> In a l -> In b l -> name_of a = name_of b -> a = b.
Proof.
  intros Hwf. apply distinct_inj. apply wf_listing_inv in Hwf. tauto.
Qed.

Lemma reach_nonempty (l : list node) (ns : chain) (e : node) :
  reach l ns e -> ns <> [].
Proof. intros H. destruct H; discriminate. Qed.

Lemma reach_valid (l : list node) (ns : chain) (e : node) :
  reach l ns e -> wf_listing l = true ->
  Forall (fun n => valid_name n = true) ns /\ wf_node e = true.
Proof.
  induction 1 as [l e Hin|l n i sub ns e Hin Hr IH]; intros Hwf.
  - pose proof (wf_listing_in _ _ Hwf Hin) as He. split; [|exact He].
    constructor; [apply wf_node_valid; exact He|constructor].
  - destruct (wf_listing_sub _ _ _ _ Hwf Hin) as [Hv Hs].
    destruct (IH Hs) as [Hns He]. split; [|exact He].
    constructor; assumption.
Qed.

Lemma valid_no_sep (ns : chain) :
  Forall (fun n => valid_name n = true) ns -> Forall no_sep ns.
Proof.
  apply Forall_impl. intros n H. apply valid_name_inv in H. unfold no_sep.
  tauto.
Qed.

(** Every item of the walk is the item of an entry of the tree. *)
Lemma walk_reach (l : list node) :
  wf_listing l = true ->
  forall it, In it (walk l) ->
    exists e, reach l (fst it) e /\ shown e = true
              /\ (isdir e = true \/ should_rename (name_of e) = true).
Proof.
  induction l as [l IH] using listing_ind. intros Hwf it Hit.
  destruct (walk_item_cases l it Hit)
    as [e [He [Hs [[Hd [Hr E]]|[[Hd E]|[n [i [sub [it' [Ee [Hit' E]]]]]]]]]]];
    subst it.
  - exists e. cbn [own_item fst]. split; [constructor; exact He|]. auto.
  - exists e. cbn [own_item fst]. split; [constructor; exact He|]. auto.
  - subst e. destruct (wf_listing_sub _ _ _ _ Hwf He) as [_ Hsub].
    destruct (IH _ _ _ He Hsub it' Hit') as [e' [Hre [Hse Hk]]].
    exists e'. cbn [push fst]. split; [|auto].
    apply reach_below with (i := i) (sub := sub); assumption.
Qed.

Lemma walk_fst_valid (l : list node) (it : citem) :
  wf_listing l = true -> In it (walk l) ->
  fst it <> [] /\ Forall no_sep (fst it).
Proof.
  intros Hwf Hit. destruct (walk_reach l Hwf it Hit) as [e [Hr _]].
  split; [exact (reach_nonempty _ _ _ Hr)|].
  apply valid_no_sep. exact (proj1 (reach_valid _ _ _ Hr Hwf)).
Qed.

(** Every entry on the way to an item of the walk is shown. *)
Lemma walk_prefix_shown (l : list node) :
  wf_listing l = true ->
  forall it, In it (walk l) ->
  forall ns ks e, fst it = ns ++ ks -> reach l ns e -> shown e = true.
Proof.
  induction l as [l IH] using listing_ind. intros Hwf it Hit ns ks e E Hr.
  destruct (walk_item_cases l it Hit)
    as [e0 [He0 [Hs0 Hcase]]].
  assert (Hhead : forall m rest, fst it = m :: rest -> m = name_of e0).
  { intros m rest Em.
    destruct Hcase as [[_ [_ Ei]]|[[_ Ei]|[n [i [sub [it' [Ee [_ Ei]]]]]]]];
      subst it; cbn [own_item push fst] in Em; injection Em as Em _;
      subst m; [reflexivity|reflexivity|subst e0; reflexivity]. }
  inversion Hr as [l' e' Hin El En Ee|l' n i sub ns' e' Hin Hr' El En Ee];
    subst.
  - cbn [app] in E.
    assert (e = e0) by (apply (wf_same_name l); auto;
                        exact (Hhead _ _ E)).
    subst e. exact Hs0.
  - cbn [app] in E. pose proof (Hhead _ _ E) as Hn.
    assert (Ed : Dir n i sub = e0) by (apply (wf_same_name l); auto).
    subst e0.
    destruct Hcase as [[Hd _]|[[_ Ei]|[n' [i' [sub' [it' [Ee [Hit' Ei]]]]]]]].
    + discriminate Hd.
    + subst it. cbn [own_item fst name_of] in E. injection E as E.
      exfalso. apply (reach_nonempty _ _ _ Hr').
      destruct ns'; [reflexivity|discriminate E].
    + injection Ee as ? ? ?. subst n' i' sub' it.
      cbn [push fst] in E. injection E as E.
      destruct (wf_listing_sub _ _ _ _ Hwf Hin) as [_ Hsub].
      exact (IH _ _ _ Hin Hsub it' Hit' ns' ks e E Hr').
Qed.

(** An item whose chain continues the chain of another one comes first. *)
Lemma walk_inside_before (l : list node) :
  wf_listing l = true ->
  forall x d ks, In x (walk l) -> In d (walk l) -> ks <> [] ->
                 fst x = fst d ++ ks -> before x d (walk l).
Proof.
  induction l as [l IH] using listing_ind. intros Hwf x d ks Hx Hd Hks E.
  destruct (walk_item_cases l x Hx)
    as [ex [Hex [Hsx Hcx]]].
  destruct (walk_item_cases l d Hd)
    as [ed [Hed [Hsd Hcd]]].
  rewrite walk_flat.
  destruct Hcd as [[Hdd [_ Ed]]|[[Hdd Ed]|[n [i [sub [d' [Eed [Hd' Ed]]]]]]]];
    subst d; cbn [own_item push fst] in E.
  - (* the item of a file *)
    destruct Hcx as [[_ [_ Ex]]|[[_ Ex]|[m [j [sub' [x' [Eex [_ Ex]]]]]]]];
      subst x; cbn [own_item push fst app] in E; injection E as En Ek.
    + congruence.
    + congruence.
    + subst ex. assert (Dir m j sub' = ed)
        by (apply (wf_same_name l); auto).
      subst ed. discriminate Hdd.
  - (* the item of a directory of this listing *)
    destruct Hcx as [[_ [_ Ex]]|[[_ Ex]|[m [j [sub' [x' [Eex [Hx' Ex]]]]]]]];
      subst x; cbn [own_item push fst app] in E; injection E as En Ek.
    + congruence.
    + congruence.
    + subst ex. assert (Dir m j sub' = ed)
        by (apply (wf_same_name l); auto).
      subst ed. apply before_app.
      * apply in_flat_map. exists (Dir m j sub'). split; [exact Hex|].
        unfold walk_gathered. rewrite Hsx. cbn [isdir name_of].
        apply in_map. exact Hx'.
      * apply in_flat_map. exists (Dir m j sub'). split; [exact Hex|].
        unfold walk_own. rewrite Hsx. left. reflexivity.
  - (* an item of the plan of a subdirectory *)
    subst ed.
    destruct Hcx as [[_ [_ Ex]]|[[_ Ex]|[m [j [sub' [x' [Eex [Hx' Ex]]]]]]]];
      subst x; cbn [own_item push fst app] in E; injection E as En Ek.
    + exfalso. apply Hks. symmetry in Ek. apply app_eq_nil in Ek. tauto.
    + exfalso. apply Hks. symmetry in Ek. apply app_eq_nil in Ek. tauto.
    + subst ex. assert (Ee : Dir m j sub' = Dir n i sub)
        by (apply (wf_same_name l); auto).
      injection Ee as ? ? ?. subst m j sub'.
      destruct (wf_listing_sub _ _ _ _ Hwf Hed) as [_ Hsub].
      apply before_app_l.
      apply before_flat_map with (a := Dir n i sub); [exact Hed|].
      unfold walk_gathered. rewrite Hsd. cbn [isdir name_of].
      apply before_map. rewrite walk_dir_unfold.
      exact (IH _ _ _ Hed Hsub x' d' ks Hx' Hd' Hks Ek).
Qed.

(** Entries located by paths, as chains. *)
Lemma located_reach (R : str) (l : list node) (p : str) (e : node) :
  located R l p e -> wf_listing l = true ->
  exists ns, reach l ns e /\ p = path R ns.
Proof.
  induction 1 as [R l e Hin|R l n i sub p e Hin Hl IH]; intros Hwf.
  - exists [name_of e]. split; [constructor; exact Hin|].
    symmetry. apply path_single. apply wf_node_valid.
    exact (wf_listing_in _ _ Hwf Hin).
  - destruct (wf_listing_sub _ _ _ _ Hwf Hin) as [Hv Hsub].
    destruct (IH Hsub) as [ns [Hr Ep]]. exists (n :: ns).
    split; [apply reach_below with (i := i) (sub := sub); assumption|].
    rewrite Ep. apply path_cons; [exact Hv|].
    exact (reach_nonempty _ _ _ Hr).
Qed.

Lemma located_hidden (R : str) (l : list node) (p : str) (e : node) :
  located R l p e -> wf_listing l = true ->
  is_hidden p = startswith "." (name_of e).
Proof.
  induction 1 as [R l e Hin|R l n i sub p e Hin Hl IH]; intros Hwf.
  - apply is_hidden_join. apply wf_node_valid.
    exact (wf_listing_in _ _ Hwf Hin).
  - apply IH. exact (proj2 (wf_listing_sub _ _ _ _ Hwf Hin)).
Qed.

Lemma in_collect_walk (R : str) (l : list node) (x : item) :
  wf_listing l = true -> In x (collect_renames R l) ->
  exists c, In c (walk l) /\ x = to_paths R c.
Proof.
  intros Hwf Hx. rewrite (collect_walk R l Hwf) in Hx.
  apply in_map_iff in Hx. destruct Hx as [c [E Hc]]. exists c. auto.
Qed.

(* ================================================================= *)
(** ** Symbolic links to directories *)

(** In a well-formed tree, an entry at or above the old path of a plan item
    is shown: neither hidden nor a link. *)
Lemma above_plan_item_shown (R : str) (l : list node) (it : item)
  (p : str) (e : node) :
  wf_listing l = true ->
  In it (collect_renames R l) ->
  located R l p e ->
  p = fst it \/ inside p (fst it) ->
  is_hidden p = false /\ islink e = false.
Proof.
  intros Hwf Hit Hloc Hp.
  destruct (in_collect_walk R l it Hwf Hit) as [c [Hc Ec]]. subst it.
  cbn [to_paths fst] in Hp.
  destruct (located_reach R l p e Hloc Hwf) as [ns [Hr Ep]].
  destruct (walk_fst_valid l c Hwf Hc) as [Hnc Hvc].
  pose proof (reach_nonempty _ _ _ Hr) as Hnn.
  pose proof (valid_no_sep _ (proj1 (reach_valid _ _ _ Hr Hwf))) as Hvn.
  assert (Hs : shown e = true).
  { destruct Hp as [Hp|Hp].
    - rewrite Ep in Hp. apply path_inj in Hp; auto.
      apply (walk_prefix_shown l Hwf c Hc ns [] e); [|exact Hr].
      rewrite app_nil_r. symmetry. exact Hp.
    - rewrite Ep in Hp.
      destruct (path_inside R _ _ Hnn Hnc Hvn Hvc Hp) as [ks [_ E]].
      exact (walk_prefix_shown l Hwf c Hc ns ks e E Hr). }
  unfold shown in Hs. apply andb_true_iff in Hs. destruct Hs as [H1 H2].
  apply negb_true_iff in H1, H2.
  rewrite (located_hidden R l p e Hloc Hwf). auto.
Qed.

Lemma entry_nested_ind (P : Symlinks.entry -> Prop) :
  (forall n i, P (Symlinks.Regular n i)) ->
  (forall n i sub, Forall P sub -> P (Symlinks.Directory n i sub)) ->
  (forall n i, P (Symlinks.Symlink n i None)) ->
  (forall n i sub, Forall P sub -> P (Symlinks.Symlink n i (Some sub))) ->
  forall e, P e.
Proof.
  intros HR HD HN HS. fix IH 1. intros [n i|n i sub|n i [sub|]].
  - apply HR.
  - apply HD. induction sub as [|c sub IHsub].
    + constructor.
    + constructor; [apply IH|exact IHsub].
  - apply HS. induction sub as [|c sub IHsub].
    + constructor.
    + constructor; [apply IH|exact IHsub].
  - apply HN.
Qed.

Lemma forget_name (e : Symlinks.entry) :
  name_of (Symlinks.forget e) = Symlinks.name_of e.
Proof. destruct e; reflexivity. Qed.

Lemma forget_islink (e : Symlinks.entry) :
  islink (Symlinks.forget e) = Symlinks.islink e.
Proof. destruct e; reflexivity. Qed.

(** The loop on a tree with links that lead somewhere is the loop on the
    tree without them, as soon as the recursive calls agree on the
    directories. *)
Lemma collect_loop_forget (R : str) (todo : list Symlinks.entry) :
  Forall (fun e => Symlinks.islink e = false ->
                   forall p, Symlinks.collect_dir p e
                             = collect_dir p (Symlinks.forget e)) todo ->
  forall F D,
    Symlinks.collect_loop Symlinks.collect_dir R todo F D
    = collect_loop collect_dir R (map Symlinks.forget todo) F D.
Proof.
  induction 1 as [|e todo He _ IH]; intros F D; [reflexivity|].
  cbn [Symlinks.collect_loop collect_loop map].
  rewrite forget_name, forget_islink.
  destruct (is_hidden (join R (Symlinks.name_of e)) || Symlinks.islink e)
    eqn:Hs; [apply IH|].
  apply orb_false_iff in Hs. destruct Hs as [_ Hl].
  destruct e as [n i|n i sub|n i t]; [| |discriminate Hl].
  - cbn [Symlinks.isdir Symlinks.forget isdir Symlinks.name_of].
    destruct (should_rename n); apply IH.
  - cbn [Symlinks.isdir isdir Symlinks.name_of].
    rewrite (He Hl). cbn [Symlinks.forget isdir]. apply IH.
Qed.

Lemma collect_dir_forget (e : Symlinks.entry) :
  Symlinks.islink e = false ->
  forall p, Symlinks.collect_dir p e = collect_dir p (Symlinks.forget e).
Proof.
  induction e as [n i|n i sub IH|n i|n i sub IH] using entry_nested_ind;
    intros Hl p; try reflexivity; [|discriminate Hl].
  cbn [Symlinks.collect_dir Symlinks.forget collect_dir].
  apply collect_loop_forget. exact IH.
Qed.

(** The walker never asks where a link leads: its plan is the plan of the
    tree without what the links lead to. *)
Lemma collect_forget (R : str) (l : list Symlinks.entry) :
  Symlinks.collect_renames R l = collect_renames R (map Symlinks.forget l).
Proof.
  apply collect_loop_forget. apply Forall_forall. intros e _.
  apply collect_dir_forget.
Qed.

Lemma wf_entry_forget (e : Symlinks.entry) :
  Symlinks.wf_entry e = true -> wf_node (Symlinks.forget e) = true.
Proof.
  induction e as [n i|n i sub IH|n i|n i sub IH] using entry_nested_ind;
    cbn [Symlinks.wf_entry Symlinks.forget wf_node Symlinks.name_of name_of];
    intros H; apply andb_true_iff in H; destruct H as [Hv H];
    rewrite Hv; try reflexivity.
  apply andb_true_iff in H. destruct H as [Hd Hf]. cbn [andb].
  rewrite map_map, (map_ext _ _ forget_name), Hd. cbn [andb].
  rewrite forallb_forall in *. intros x Hx. apply in_map_iff in Hx.
  destruct Hx as [y [E Hy]]. subst x. rewrite Forall_forall in IH.
  exact (IH y Hy (Hf y Hy)).
Qed.

Lemma wf_listing_forget (l : list Symlinks.entry) :
  Symlinks.wf_listing l = true -> wf_listing (map Symlinks.forget l) = true.
Proof.
  unfold Symlinks.wf_listing, wf_listing. intros H.
  apply andb_true_iff in H. destruct H as [Hd Hf].
  rewrite map_map, (map_ext _ _ forget_name), Hd. cbn [andb].
  rewrite forallb_forall in *. intros x Hx. apply in_map_iff in Hx.
  destruct Hx as [y [E Hy]]. subst x. apply wf_entry_forget. exact (Hf y Hy).
Qed.

Lemma wf_listing_below (l : list Symlinks.entry) (d : Symlinks.entry) :
  Symlinks.wf_listing l = true -> In d l ->
  valid_name (Symlinks.name_of d) = true
  /\ Symlinks.wf_listing (Symlinks.listing_of d) = true.
Proof.
  unfold Symlinks.wf_listing at 1. intros H Hd.
  apply andb_true_iff in H. destruct H as [_ Hf].
  rewrite forallb_forall in Hf. specialize (Hf d Hd).
  destruct d as [n i|n i sub|n i [sub|]];
    cbn [Symlinks.wf_entry Symlinks.name_of Symlinks.listing_of] in *;
    apply andb_true_iff in Hf; destruct Hf as [Hv Hs]; split; auto.
Qed.

(** A path below a directory starts with the path of the directory. *)
Lemma located_pre (R : str) (l : list Symlinks.entry) (p : str)
  (e : Symlinks.entry) :
  Symlinks.located R l p e -> Symlinks.wf_listing l = true ->
  exists rest, p = pre R ++ rest.
Proof.
  induction 1 as [R l e Hin|R l d p e Hin Hd Hl IH]; intros Hwf.
  - destruct (wf_listing_below l e Hwf Hin) as [Hv _].
    exists (Symlinks.name_of e). apply join_valid. exact Hv.
  - destruct (wf_listing_below l d Hwf Hin) as [Hv Hs].
    destruct (IH Hs) as [rest E]. rewrite (pre_join R _ Hv) in E.
    exists (Symlinks.name_of d ++ ["/"%char] ++ rest).
    rewrite E, <- !app_assoc. reflexivity.
Qed.

(** An entry found through directories and links to directories is found
    in the tree without what the links lead to, or lies inside a link of
    that tree. *)
Lemma located_forget (R : str) (l : list Symlinks.entry) (p : str)
  (e : Symlinks.entry) :
  Symlinks.located R l p e -> Symlinks.wf_listing l = true ->
  located R (map Symlinks.forget l) p (Symlinks.forget e)
  \/ exists q n i,
       located R (map Symlinks.forget l) q (Link n i) /\ inside q p.
Proof.
  induction 1 as [R l e Hin|R l d p e Hin Hd Hl IH]; intros Hwf.
  - left. rewrite <- forget_name. apply located_here.
    apply in_map. exact Hin.
  - destruct (wf_listing_below l d Hwf Hin) as [Hv Hs].
    destruct d as [n i|n i sub|n i [sub|]]; try discriminate Hd;
      cbn [Symlinks.name_of Symlinks.listing_of] in *.
    + assert (Hin' : In (Dir n i (map Symlinks.forget sub))
                        (map Symlinks.forget l))
        by (apply (in_map Symlinks.forget) in Hin; exact Hin).
      destruct (IH Hs) as [H|[q [m [j [H Hq]]]]].
      * left. apply located_below with (n := n) (i := i)
                                       (sub := map Symlinks.forget sub);
          assumption.
      * right. exists q, m, j. split; [|exact Hq].
        apply located_below with (n := n) (i := i)
                                 (sub := map Symlinks.forget sub);
          assumption.
    + right. exists (join R n), n, i. split.
      * apply (located_here R (map Symlinks.forget l) (Link n i)).
        apply (in_map Symlinks.forget) in Hin. exact Hin.
      * destruct (located_pre (join R n) sub p e Hl Hs) as [rest E].
        rewrite (pre_join R n Hv) in E. exists rest.
        rewrite E, (join_valid R n Hv), <- !app_assoc. reflexivity.
Qed.

Lemma inside_trans (a b c : str) : inside a b -> inside b c -> inside a c.
Proof.
  intros [r1 E1] [r2 E2]. exists (r1 ++ "/"%char :: r2).
  rewrite E2, E1, <- app_assoc. reflexivity.
Qed.

(** C4: in the plan of a well-formed tree, an item whose old path lies
    strictly inside the old path of another item comes before that item; the
    plan of [root/A Dir/sub_file.TXT] is the item of the file, then the item
    of [A Dir]. *)
Theorem items_inside_directory_come_first :
  (forall (R : str) (l : list node) (x d : item),
      wf_listing l = true ->
      In x (collect_renames R l) -> In d (collect_renames R l) ->
      inside (fst d) (fst x) ->
      before x d (collect_renames R l))
  /\ collect_renames (lit "root") a_dir_tree
     = [(lit "root/A Dir/sub_file.TXT", lit "root/A Dir/sub-file.txt");
        (lit "root/A Dir", lit "root/a-dir")].
Proof.
  split; [|reflexivity].
  intros R l x d Hwf Hx Hd Hin.
  destruct (in_collect_walk R l x Hwf Hx) as [cx [Hcx Ex]].
  destruct (in_collect_walk R l d Hwf Hd) as [cd [Hcd Ed]].
  subst x d. cbn [to_paths fst] in Hin.
  destruct (walk_fst_valid l cx Hwf Hcx) as [Hnx Hvx].
  destruct (walk_fst_valid l cd Hwf Hcd) as [Hnd Hvd].
  destruct (path_inside R _ _ Hnd Hnx Hvd Hvx Hin) as [ks [Hks E]].
  rewrite (collect_walk R l Hwf). apply before_map.
  exact (walk_inside_before l Hwf cx cd ks Hcx Hcd Hks E).
Qed.

Lemma items_inside_directory_come_first_witness :
  wf_listing a_dir_tree = true
  /\ In (lit "root/A Dir/sub_file.TXT", lit "root/A Dir/sub-file.txt")
        (collect_renames (lit "root") a_dir_tree)
  /\ In (lit "root/A Dir", lit "root/a-dir")
        (collect_renames (lit "root") a_dir_tree)
  /\ inside (lit "root/A Dir") (lit "root/A Dir/sub_file.TXT")
  /\ before (lit "root/A Dir/sub_file.TXT", lit "root/A Dir/sub-file.txt")
            (lit "root/A Dir", lit "root/a-dir")
            (collect_renames (lit "root") a_dir_tree).
Proof.
  assert (H1 : wf_listing a_dir_tree = true) by reflexivity.
  assert (H2 : In (lit "root/A Dir/sub_file.TXT",
                   lit "root/A Dir/sub-file.txt")
                  (collect_renames (lit "root") a_dir_tree))
    by (left; reflexivity).
  assert (H3 : In (lit "root/A Dir", lit "root/a-dir")
                  (collect_renames (lit "root") a_dir_tree))
    by (right; left; reflexivity).
  assert (H4 : inside (lit "root/A Dir") (lit "root/A Dir/sub_file.TXT"))
    by (exists (lit "sub_file.TXT"); reflexivity).
  repeat split; auto.
  exact (proj1 items_inside_directory_come_first (lit "root") a_dir_tree
               (lit "root/A Dir/sub_file.TXT", lit "root/A Dir/sub-file.txt")
               (lit "root/A Dir", lit "root/a-dir") H1 H2 H3 H4).
Defined.

(** C8: in a well-formed tree, every entry whose path is the old path of a
    plan item, or the path of a directory that old path lies inside, is
    neither hidden nor a symbolic link, whatever its name and whether or not
    the link leads to a directory: paths are followed through directories
    and through symbolic links to directories, so that no entry found
    inside a hidden directory or through a link is in the plan.  The plan
    of [root], which holds [Linked Dir] (a link to a directory that holds
    [Inner File.TXT]), [.git/My Config] and [My File.txt], is the item of
    [My File.txt] alone. *)
Theorem hidden_and_links_never_planned :
  (forall (R : str) (l : list Symlinks.entry) (it : item) (p : str)
          (e : Symlinks.entry),
      Symlinks.wf_listing l = true ->
      In it (Symlinks.collect_renames R l) ->
      Symlinks.located R l p e ->
      p = fst it \/ inside p (fst it) ->
      is_hidden p = false /\ Symlinks.islink e = false)
  /\ Symlinks.collect_renames (lit "root") Symlinks.linked_tree
     = [(lit "root/My File.txt", lit "root/my-file.txt")].
Proof.
  split; [|reflexivity].
  intros R l it p e Hwf Hit Hloc Hp. rewrite collect_forget in Hit.
  pose proof (wf_listing_forget l Hwf) as Hwf'.
  destruct (located_forget R l p e Hloc Hwf) as [H|[q [n [i [H Hq]]]]].
  - rewrite <- forget_islink.
    exact (above_plan_item_shown R _ it p _ Hwf' Hit H Hp).
  - exfalso.
    assert (Hq' : q = fst it \/ inside q (fst it)).
    { right. destruct Hp as [Hp|Hp].
      - rewrite <- Hp. exact Hq.
      - exact (inside_trans q p (fst it) Hq Hp). }
    destruct (above_plan_item_shown R _ it q _ Hwf' Hit H Hq') as [_ Hl].
    discriminate Hl.
Qed.

Lemma hidden_and_links_never_planned_witness :
  Symlinks.wf_listing Symlinks.linked_tree = true
  /\ In (lit "root/My File.txt", lit "root/my-file.txt")
        (Symlinks.collect_renames (lit "root") Symlinks.linked_tree)
  /\ Symlinks.located (lit "root") Symlinks.linked_tree
        (lit "root/My File.txt") (Symlinks.Regular (lit "My File.txt") 5)
  /\ is_hidden (lit "root/My File.txt") = false
  /\ Symlinks.islink (Symlinks.Regular (lit "My File.txt") 5) = false.
Proof.
  assert (H1 : Symlinks.wf_listing Symlinks.linked_tree = true)
    by reflexivity.
  assert (H2 : In (lit "root/My File.txt", lit "root/my-file.txt")
                  (Symlinks.collect_renames (lit "root")
                                            Symlinks.linked_tree))
    by (left; reflexivity).
  assert (H3 : Symlinks.located (lit "root") Symlinks.linked_tree
                 (lit "root/My File.txt")
                 (Symlinks.Regular (lit "My File.txt") 5)).
  { apply (Symlinks.located_here (lit "root") Symlinks.linked_tree
                                 (Symlinks.Regular (lit "My File.txt") 5)).
    right. right. left. reflexivity. }
  split; [exact H1|]. split; [exact H2|]. split; [exact H3|].
  exact (proj1 hidden_and_links_never_planned (lit "root")
           Symlinks.linked_tree
           (lit "root/My File.txt", lit "root/my-file.txt")
           (lit "root/My File.txt") (Symlinks.Regular (lit "My File.txt") 5)
           H1 H2 H3 (or_introl eq_refl)).
Defined.

(* ================================================================= *)
(** ** The executor *)

Lemma rename_recursively_empty_plan (R : str) (dry_run : bool) (w : world) :
  mount w = R -> collect_renames R (disk w) = [] ->
  rename_recursively R dry_run w = (Raises ValueError, w).
Proof.
  intros Hm Hp. unfold rename_recursively, bind, listdir.
  rewrite Hm, str_eqb_refl, Hp. reflexivity.
Qed.

(** C2 fails on the code: on an empty directory the pre-pass takes [max]
    of an empty sequence and the run ends with [ValueError], dry run or
    not, before any log is returned or saved. *)
Theorem rename_recursively_empty_directory_raises (dry_run : bool) :
  rename_recursively (lit "root") dry_run (fresh_world (lit "root") [])
  = (Raises ValueError, fresh_world (lit "root") [])
  /\ main (Arguments (lit "root") dry_run false) (fresh_world (lit "root") [])
     = (Raises ValueError, fresh_world (lit "root") []).
Proof. destruct dry_run; split; reflexivity. Qed.

Lemma rename_all_dry (plan : list item) (log : list item) (width : nat)
  (w : world) :
  rename_all plan true log width w
  = (Returns log,
     World (mount w) (disk w) (log_file w)
           (output w ++ map (dry_report width) plan) (syscalls w)).
Proof.
  revert w. induction plan as [|[old new] plan IH]; intros w.
  - cbn [rename_all map ret]. rewrite app_nil_r. destruct w; reflexivity.
  - cbn [rename_all]. unfold bind at 1. unfold rename_entry.
    unfold bind at 1. unfold logging at 1. unfold ret at 1.
    rewrite IH. cbn [mount disk log_file output syscalls map].
    rewrite <- app_assoc. reflexivity.
Qed.

(** C9: in a dry run the loop over the plan leaves the tree, the log file
    and the list of [os.rename] calls as they are, hands back the rename log
    it was given ([[]] at the start of the run), and reports each item; a
    dry [rename_recursively] leaves them as they are too, whether it returns
    the empty log or, on an empty plan, raises. *)
Theorem dry_run_changes_nothing :
  (forall (plan log : list item) (width : nat) (w : world),
      rename_all plan true log width w
      = (Returns log,
         World (mount w) (disk w) (log_file w)
               (output w ++ map (dry_report width) plan) (syscalls w)))
  /\ (forall (R : str) (w : world),
         let '(r, w') := rename_recursively R true w in
         (r = Returns [] \/ r = Raises ValueError \/ r = Outside)
         /\ disk w' = disk w /\ log_file w' = log_file w
         /\ syscalls w' = syscalls w).
Proof.
  split; [exact rename_all_dry|].
  intros R w. unfold rename_recursively, bind, listdir.
  destruct (str_eqb R (mount w)); [|auto 6].
  destruct (py_max _); [|auto 6].
  rewrite rename_all_dry. cbn [disk log_file syscalls]. auto 6.
Qed.

Lemma rename_entry_wet (old new : str) (log : list item) (width : nat)
  (w : world) :
  rename_entry old new false log width w
  = match os_rename (mount w) (disk w) old new with
    | Done d =>
        (Returns (log ++ [(new, old)]),
         World (mount w) d (log_file w)
               (output w
                ++ [Info (lit "Renamed "
                          ++ quoted (ljust (basename old) width)
                          ++ lit " to " ++ quoted (basename new))])
               (syscalls w ++ [(old, new)]))
    | OSError =>
        (Returns log,
         World (mount w) (disk w) (log_file w)
               (output w ++ [ErrorRenaming (basename old)])
               (syscalls w ++ [(old, new)]))
    | Unmodelled => (Outside, w)
    end.
Proof.
  unfold rename_entry, bind, try_rename.
  destruct (os_rename (mount w) (disk w) old new); reflexivity.
Qed.

Lemma rename_all_calls (plan : list item) :
  forall (log : list item) (width : nat) (w : world) (log' : list item)
         (w' : world),
    rename_all plan false log width w = (Returns log', w') ->
    syscalls w' = syscalls w ++ plan /\ mount w' = mount w
    /\ log_file w' = log_file w.
Proof.
  induction plan as [|[old new] plan IH]; intros log width w log' w' H.
  - cbn [rename_all ret] in H. injection H as _ Hw. subst w'.
    rewrite app_nil_r. auto.
  - cbn [rename_all] in H. unfold bind at 1 in H.
    rewrite rename_entry_wet in H.
    destruct (os_rename (mount w) (disk w) old new); try discriminate H;
      apply IH in H; cbn [syscalls mount log_file] in H;
      destruct H as [H1 [H2 H3]]; rewrite H1, <- app_assoc; auto.
Qed.

Lemma undo_all_calls (rl : list item) :
  forall (width : nat) (w w' : world),
    undo_all rl width w = (Returns tt, w') ->
    syscalls w' = syscalls w ++ rl.
Proof.
  induction rl as [|[new old] rl IH]; intros width w w' H.
  - cbn [undo_all ret] in H. injection H as Hw. subst w'.
    rewrite app_nil_r. reflexivity.
  - cbn [undo_all] in H. unfold bind at 1 in H. unfold try_rename in H.
    destruct (os_rename (mount w) (disk w) new old); try discriminate H;
      unfold bind at 1 in H; unfold logging at 1 in H;
      cbn [mount disk log_file output syscalls] in H;
      apply IH in H; cbn [syscalls] in H; rewrite H, <- app_assoc;
      reflexivity.
Qed.

(** [undo_renames] hands the log to [os.rename] from its last entry to its
    first. *)
Lemma undo_renames_calls (log : list item) (w w' : world) :
  undo_renames log w = (Returns tt, w') ->
  syscalls w' = syscalls w ++ rev log.
Proof.
  unfold undo_renames. destruct log as [|it log].
  - cbn [map py_max]. unfold logging. intros H. injection H as Hw. subst w'.
    cbn [syscalls rev]. rewrite app_nil_r. reflexivity.
  - cbn [map py_max]. apply undo_all_calls.
Qed.

Lemma visited_identity_item (R : str) (l : list node) (p : str) (e : node) :
  visited R l p e -> isdir e = true -> get_new_name (name_of e) = name_of e ->
  In (p, p) (collect_renames R l).
Proof.
  induction 1 as [R l e Hin Hs|R l n i sub p e Hin Hs Hv IH];
    intros Hd Hg; rewrite <- collect_tagged_erase, collect_tagged_flat.
  - apply in_map_iff. exists (IsDir, renamed_to R e). split.
    + unfold renamed_to. cbn [snd]. rewrite Hg. reflexivity.
    + apply in_or_app. right. apply in_flat_map. exists e.
      split; [exact Hin|]. unfold own_dir_item. rewrite Hs, Hd.
      left. reflexivity.
  - specialize (IH Hd Hg). rewrite <- collect_tagged_erase in IH.
    apply in_map_iff in IH. destruct IH as [t [Et Ht]].
    apply in_map_iff. exists t. split; [exact Et|].
    apply in_or_app. left. apply in_flat_map. exists (Dir n i sub).
    split; [exact Hin|]. unfold gathered. rewrite Hs. exact Ht.
Qed.

(** C10: a directory the walker visits and whose name [get_new_name] leaves
    as it is yields the plan item [(p, p)]; away from a dry run every plan
    item is handed to [os.rename], and when the rename of [p] to [p] goes
    through the entry [(p, p)] is appended to the log; [undo_renames] hands
    every log entry to [os.rename] again.  On a directory that holds the
    directory [docs], the run saves the log [[(root/docs, root/docs)]] and
    the undo renames [root/docs] to itself. *)
Theorem normalized_directory_identity_rename :
  (forall (R : str) (l : list node) (p : str) (e : node),
      visited R l p e -> isdir e = true ->
      get_new_name (name_of e) = name_of e ->
      In (p, p) (collect_renames R l))
  /\ (forall (plan log log' : list item) (width : nat) (w w' : world),
         rename_all plan false log width w = (Returns log', w') ->
         syscalls w' = syscalls w ++ plan)
  /\ (forall (p : str) (log : list item) (width : nat) (w : world)
             (d : list node),
         os_rename (mount w) (disk w) p p = Done d ->
         fst (rename_entry p p false log width w)
         = Returns (log ++ [(p, p)]))
  /\ (forall (log : list item) (w w' : world),
         undo_renames log w = (Returns tt, w') ->
         syscalls w' = syscalls w ++ rev log)
  /\ (let run := main (Arguments (lit "root") false false)
                      (fresh_world (lit "root") docs_tree) in
      let undo := main (Arguments (lit "root") false true) (snd run) in
      fst run = Returns tt
      /\ log_file (snd run) = Some [(lit "root/docs", lit "root/docs")]
      /\ fst undo = Returns tt
      /\ syscalls (snd undo) = [(lit "root/docs", lit "root/docs");
                                (lit "root/docs", lit "root/docs")]
      /\ disk (snd undo) = docs_tree).
Proof.
  split; [exact visited_identity_item|].
  split.
  { intros plan log log' width w w' H.
    exact (proj1 (rename_all_calls plan log width w log' w' H)). }
  split.
  { intros p log width w d H. rewrite rename_entry_wet, H. reflexivity. }
  split; [exact undo_renames_calls|].
  cbv zeta. repeat split; reflexivity.
Qed.

Lemma normalized_directory_identity_rename_witness :
  visited (lit "root") docs_tree (lit "root/docs") (Dir (lit "docs") 1 [])
  /\ isdir (Dir (lit "docs") 1 []) = true
  /\ get_new_name (lit "docs") = lit "docs"
  /\ In (lit "root/docs", lit "root/docs")
        (collect_renames (lit "root") docs_tree).
Proof.
  assert (H1 : visited (lit "root") docs_tree (lit "root/docs")
                       (Dir (lit "docs") 1 [])).
  { apply (visited_here (lit "root") docs_tree (Dir (lit "docs") 1 [])).
    - left. reflexivity.
    - reflexivity. }
  assert (H2 : isdir (Dir (lit "docs") 1 []) = true) by reflexivity.
  assert (H3 : get_new_name (name_of (Dir (lit "docs") 1 []))
               = name_of (Dir (lit "docs") 1 [])) by reflexivity.
  split; [exact H1|]. split; [exact H2|]. split; [exact H3|].
  exact (proj1 normalized_directory_identity_rename (lit "root") docs_tree
               (lit "root/docs") (Dir (lit "docs") 1 []) H1 H2 H3).
Defined.

(* ================================================================= *)
(** ** Running plans on chains *)

Lemma strip_prefix_app (a b : str) : strip_prefix a (a ++ b) = Some b.
Proof.
  induction a as [|c a IH]; [reflexivity|].
  cbn [app strip_prefix]. rewrite Ascii.eqb_refl. exact IH.
Qed.

Lemma os_rename_chains (R : str) (l : list node) (o n : chain) :
  o <> [] -> n <> [] -> Forall no_sep o -> Forall no_sep n ->
  os_rename R l (path R o) (path R n) = rename_path l o n.
Proof.
  intros Ho Hn Fo Fn. unfold os_rename, path. fold (pre R).
  rewrite !strip_prefix_app, (split_inter o Ho Fo), (split_inter n Hn Fn).
  reflexivity.
Qed.

Lemma id_at_chain (R : str) (l : list node) (o : chain) :
  o <> [] -> Forall no_sep o -> id_at R l (path R o) = idc l o.
Proof.
  intros Ho Fo. unfold id_at, path.
  rewrite strip_prefix_app, (split_inter o Ho Fo). reflexivity.
Qed.

Lemma run_app (p1 p2 : list citem) (l : list node) :
  run (p1 ++ p2) l
  = match run p1 l with
    | Some (l1, g1) =>
        match run p2 l1 with
        | Some (l2, g2) => Some (l2, g1 ++ g2)
        | None => None
        end
    | None => None
    end.
Proof.
  revert l. induction p1 as [|it p1 IH]; intros l.
  - cbn [app run]. destruct (run p2 l) as [[l2 g2]|]; reflexivity.
  - cbn [app run]. destruct (rename_path l (fst it) (snd it)).
    + rewrite IH. destruct (run p1 listing) as [[l1 g1]|]; [|reflexivity].
      destruct (run p2 l1) as [[l2 g2]|]; reflexivity.
    + apply IH.
    + reflexivity.
Qed.

Lemma find_named_unique (n : str) (l : list node) (x : node) :
  In x l -> named n x = true ->
  (forall e, In e l -> named n e = true -> e = x) ->
  find (named n) l = Some x.
Proof.
  induction l as [|a l IH]; intros Hin Hx Hu; [destruct Hin|].
  cbn [find]. destruct (named n a) eqn:Ea.
  - f_equal. apply Hu; [left; reflexivity|exact Ea].
  - destruct Hin as [Hin|Hin]; [subst a; congruence|].
    apply IH; auto. intros e He. apply Hu. right. exact He.
Qed.

Lemma find_named_none (n : str) (l : list node) :
  (forall e, In e l -> named n e = false) -> find (named n) l = None.
Proof.
  induction l as [|a l IH]; intros H; [reflexivity|].
  cbn [find]. rewrite (H a (or_introl eq_refl)). apply IH.
  intros e He. apply H. right. exact He.
Qed.

Lemma find_named_in (n : str) (l : list node) (x : node) :
  find (named n) l = Some x -> In x l /\ name_of x = n.
Proof.
  intros H. apply find_some in H. destruct H as [H1 H2].
  split; [exact H1|]. apply named_eq. exact H2.
Qed.

Lemma rename_path_push (l : list node) (n : str) (i : nat)
  (sub : list node) (o o' : chain) :
  valid_name n = true -> o <> [] -> o' <> [] ->
  find (named n) l = Some (Dir n i sub) ->
  rename_path l (n :: o) (n :: o')
  = match rename_path sub o o' with
    | Done sub' => Done (put n sub' l)
    | OSError => OSError
    | Unmodelled => Unmodelled
    end.
Proof.
  intros Hv Ho Ho' Hf. destruct o as [|a o]; [contradiction|].
  destruct o' as [|a' o']; [contradiction|].
  cbn [rename_path]. rewrite Hv, str_eqb_refl, Hf. cbn [andb].
  destruct (rename_path sub (a :: o) (a' :: o')); reflexivity.
Qed.

Lemma put_put (n : str) (s1 s2 : list node) (l : list node) :
  put n s2 (put n s1 l) = put n s2 l.
Proof.
  unfold put. rewrite map_map. apply map_ext. intros e.
  destruct (named n e) eqn:E.
  - destruct e; cbn [set_entries]; unfold named in *; cbn [name_of] in *;
      rewrite E; reflexivity.
  - rewrite E. reflexivity.
Qed.

Lemma put_same (n : str) (i : nat) (sub : list node) (l : list node) :
  (forall e, In e l -> named n e = true -> e = Dir n i sub) ->
  put n sub l = l.
Proof.
  intros H. unfold put. rewrite <- (map_id l) at 2. apply map_ext_in.
  intros e He. destruct (named n e) eqn:E; [|reflexivity].
  rewrite (H e He E). reflexivity.
Qed.

(** A plan of a subdirectory, run from the directory above. *)
Lemma run_push (n : str) (i : nat) (items : list citem) :
  valid_name n = true ->
  (forall it, In it items -> fst it <> [] /\ snd it <> []) ->
  forall (l sub : list node),
    In (Dir n i sub) l ->
    (forall e, In e l -> named n e = true -> e = Dir n i sub) ->
    run (map (push n) items) l
    = match run items sub with
      | Some (sub', g) => Some (put n sub' l, map (push n) g)
      | None => None
      end.
Proof.
  intros Hv. induction items as [|it items IH]; intros Hne l sub Hin Hu.
  - cbn [map run]. rewrite (put_same n i sub l Hu). reflexivity.
  - destruct (Hne it (or_introl eq_refl)) as [H1 H2].
    assert (Hf : find (named n) l = Some (Dir n i sub)).
    { apply find_named_unique; auto. apply str_eqb_refl. }
    cbn [map run push fst snd].
    rewrite (rename_path_push l n i sub _ _ Hv H1 H2 Hf).
    assert (Hne' : forall it0, In it0 items -> fst it0 <> [] /\ snd it0 <> [])
      by (intros it0 H0; apply Hne; right; exact H0).
    destruct (rename_path sub (fst it) (snd it)) as [sub1| |].
    + rewrite (IH Hne' (put n sub1 l) sub1).
      * destruct (run items sub1) as [[sub2 g]|]; [|reflexivity].
        rewrite put_put. reflexivity.
      * unfold put. apply in_map_iff. exists (Dir n i sub). split; [|exact Hin].
        unfold named. cbn [name_of set_entries]. rewrite str_eqb_refl.
        reflexivity.
      * intros e He Hn. unfold put in He. apply in_map_iff in He.
        destruct He as [e0 [E0 He0]]. destruct (named n e0) eqn:En.
        -- rewrite (Hu e0 He0 En) in E0. cbn [set_entries] in E0.
           symmetry. exact E0.
        -- subst e. congruence.
    + apply IH; auto.
    + reflexivity.
Qed.

Lemma run_log_from_plan (p : list citem) :
  forall (l l' : list node) (g : list citem),
    run p l = Some (l', g) -> forall it, In it g -> In (swap it) p.
Proof.
  induction p as [|x p IH]; intros l l' g H it Hit.
  - cbn [run] in H. injection H as _ Hg. subst g. destruct Hit.
  - cbn [run] in H. destruct (rename_path l (fst x) (snd x)) as [l1| |].
    + destruct (run p l1) as [[l2 g2]|] eqn:E; [|discriminate H].
      injection H as _ Hg. subst g. destruct Hit as [Hit|Hit].
      * subst it. left. destruct x; reflexivity.
      * right. exact (IH _ _ _ E it Hit).
    + right. exact (IH _ _ _ H it Hit).
    + discriminate H.
Qed.

(* ================================================================= *)
(** ** One directory while its plan runs *)

Lemma set_name_same (x : node) : set_name (name_of x) x = x.
Proof. destruct x; reflexivity. Qed.

Lemma set_name_twice (n m : str) (x : node) :
  set_name n (set_name m x) = set_name n x.
Proof. destruct x; reflexivity. Qed.

Lemma name_of_set_name (n : str) (x : node) : name_of (set_name n x) = n.
Proof. destruct x; reflexivity. Qed.

Lemma name_of_set_entries (sub : list node) (x : node) :
  name_of (set_entries sub x) = name_of x.
Proof. destruct x; reflexivity. Qed.

Lemma isdir_set_name (n : str) (x : node) : isdir (set_name n x) = isdir x.
Proof. destruct x; reflexivity. Qed.

Lemma isdir_set_entries (sub : list node) (x : node) :
  isdir (set_entries sub x) = isdir x.
Proof. destruct x; reflexivity. Qed.

Lemma id_of_set_name (n : str) (x : node) : id_of (set_name n x) = id_of x.
Proof. destruct x; reflexivity. Qed.

Lemma id_of_set_entries (sub : list node) (x : node) :
  id_of (set_entries sub x) = id_of x.
Proof. destruct x; reflexivity. Qed.

Lemma set_entries_same (x : node) : set_entries (entries_of x) x = x.
Proof. destruct x; reflexivity. Qed.

Lemma replaceable_files (src dst : node) :
  isdir src = false -> isdir dst = false -> replaceable src dst = true.
Proof. destruct src, dst; cbn; intros; congruence. Qed.

Lemma replaceable_dir_file (src dst : node) :
  isdir src = true -> isdir dst = false -> replaceable src dst = false.
Proof. destruct src, dst; cbn; intros; congruence. Qed.

Lemma filter_flat_map {A B : Type} (g : B -> bool) (h : A -> list B)
  (l : list A) :
  filter g (flat_map h l) = flat_map (fun x => filter g (h x)) l.
Proof.
  induction l as [|a l IH]; [reflexivity|].
  cbn [flat_map]. rewrite filter_app, IH. reflexivity.
Qed.

Lemma filter_all {A : Type} (g : A -> bool) (l : list A) :
  (forall a, In a l -> g a = true) -> filter g l = l.
Proof.
  induction l as [|a l IH]; intros H; [reflexivity|].
  cbn [filter]. rewrite (H a (or_introl eq_refl)), IH; [reflexivity|].
  intros b Hb. apply H. right. exact Hb.
Qed.

Lemma planned_cases (x : node) :
  planned x = true ->
  shown x = true /\ (planned_file x = true /\ shown_dir x = false
                     /\ isdir x = false
                     \/ planned_file x = false /\ shown_dir x = true
                        /\ isdir x = true).
Proof.
  unfold planned, planned_file, shown_dir.
  destruct (shown x), (isdir x), (should_rename (name_of x)); cbn;
    intros H; try discriminate H; auto.
Qed.

Lemma planned_file_planned (x : node) :
  planned_file x = true -> planned x = true.
Proof. unfold planned. intros H. rewrite H. reflexivity. Qed.

Lemma shown_dir_planned (x : node) : shown_dir x = true -> planned x = true.
Proof. unfold planned. intros H. rewrite H. apply orb_true_r. Qed.

Lemma shown_not_hidden (x : node) :
  shown x = true -> startswith "." (name_of x) = false.
Proof.
  unfold shown. intros H. apply andb_true_iff in H. destruct H as [H _].
  apply negb_true_iff in H. exact H.
Qed.

Lemma rename_within_same (l : list node) (n : str) (src : node) :
  find (named n) l = Some src -> rename_within l n n = Done l.
Proof.
  intros H. unfold rename_within. rewrite H, str_eqb_refl. reflexivity.
Qed.

Lemma rename_within_moved (l : list node) (n n' : str) (src : node) :
  find (named n) l = Some src -> n <> n' ->
  (forall dst, find (named n') l = Some dst ->
               same_file src dst = false /\ replaceable src dst = true) ->
  rename_within l n n'
  = Done (map (fun e => if named n e then set_name n' e else e)
              (filter (fun e => negb (named n' e)) l)).
Proof.
  intros Hs Hn Hd. unfold rename_within. rewrite Hs.
  apply str_eqb_neq in Hn. rewrite Hn.
  destruct (find (named n') l) as [dst|] eqn:Ed.
  - destruct (Hd dst eq_refl) as [H1 H2]. rewrite H1, H2. reflexivity.
  - rewrite filter_all; [reflexivity|].
    intros a Ha. apply negb_true_iff.
    exact (find_none _ _ Ed a Ha).
Qed.

Lemma same_file_not_dir (src dst : node) :
  isdir src = true -> same_file src dst = false.
Proof. destruct src, dst; cbn; intros; congruence. Qed.

Lemma same_file_sym (src dst : node) :
  same_file src dst = same_file dst src.
Proof. destruct src, dst; cbn [same_file]; auto using Nat.eqb_sym. Qed.

Lemma same_file_set_name (n : str) (src dst : node) :
  same_file (set_name n src) dst = same_file src dst.
Proof. destruct src, dst; reflexivity. Qed.

Lemma rename_within_refused (l : list node) (n n' : str) (src dst : node) :
  find (named n) l = Some src -> n <> n' ->
  find (named n') l = Some dst -> isdir src = true ->
  replaceable src dst = false ->
  rename_within l n n' = OSError.
Proof.
  intros Hs Hn Hd Hi Hr. unfold rename_within. rewrite Hs.
  apply str_eqb_neq in Hn.
  rewrite Hn, Hd, (same_file_not_dir src dst Hi), Hr. reflexivity.
Qed.

(** Renaming one hard link to another. *)
Lemma rename_within_twin (l : list node) (n n' : str) (src dst : node) :
  find (named n) l = Some src -> find (named n') l = Some dst ->
  same_file src dst = true ->
  rename_within l n n' = Done l.
Proof.
  intros Hs Hd Hf. unfold rename_within. rewrite Hs, Hd, Hf.
  destruct (str_eqb n n'); reflexivity.
Qed.

Lemma rename_path_single (l : list node) (n n' : str) :
  valid_name n = true -> valid_name n' = true ->
  rename_path l [n] [n'] = rename_within l n n'.
Proof. intros H H'. cbn [rename_path]. rewrite H, H'. reflexivity. Qed.

Lemma planned_file_not_dir (x : node) :
  planned_file x = true -> isdir x = false.
Proof.
  unfold planned_file. destruct (isdir x); [|reflexivity].
  rewrite andb_false_r. intros H. discriminate H.
Qed.

Lemma shown_dir_isdir (x : node) : shown_dir x = true -> isdir x = true.
Proof. unfold shown_dir. intros H. apply andb_true_iff in H. tauto. Qed.

Lemma rev_flat_map {A B : Type} (f : A -> list B) (l : list A) :
  rev (flat_map f l) = flat_map (fun x => rev (f x)) (rev l).
Proof.
  induction l as [|a l IH]; [reflexivity|].
  cbn [flat_map rev]. rewrite rev_app_distr, IH, flat_map_app.
  cbn [flat_map]. rewrite app_nil_r. reflexivity.
Qed.

Lemma flat_map_single {A : Type} (l : list A) :
  flat_map (fun x => [x]) l = l.
Proof.
  induction l as [|a l IH]; [reflexivity|].
  cbn [flat_map app]. rewrite IH. reflexivity.
Qed.

Lemma idc_single (l : list node) (n : str) :
  idc l [n] = option_map id_of (find (named n) l).
Proof. reflexivity. Qed.

Lemma idc_cons (l : list node) (n : str) (o : chain) :
  o <> [] ->
  idc l (n :: o) = match find (named n) l with
                   | Some (Dir _ _ sub) => idc sub o
                   | _ => None
                   end.
Proof. intros H. destruct o; [contradiction|reflexivity]. Qed.

Lemma NoDup_map_inv' {A B : Type} (f : A -> B) (l : list A) :
  NoDup (map f l) -> NoDup l.
Proof.
  induction l as [|a l IH]; intros H; [constructor|].
  cbn [map] in H. inversion H as [|? ? Hn Hd]; subst.
  constructor; [|apply IH; exact Hd].
  intros Hin. apply Hn. apply in_map. exact Hin.
Qed.

Lemma NoDup_map_eq {A B : Type} (f : A -> B) (l : list A) (a b : A) :
  NoDup (map f l) -> In a l -> In b l -> f a = f b -> a = b.
Proof.
  induction l as [|c l IH]; intros H Ha Hb E; [destruct Ha|].
  cbn [map] in H. inversion H as [|? ? Hn Hd]; subst.
  destruct Ha as [Ha|Ha], Hb as [Hb|Hb].
  - congruence.
  - subst c. exfalso. apply Hn. rewrite E. apply in_map. exact Hb.
  - subst c. exfalso. apply Hn. rewrite <- E. apply in_map. exact Ha.
  - apply IH; auto.
Qed.

Section Level.

Variable l0 : list node.
Hypothesis Hwf : wf_listing l0 = true.
Hypothesis Hapart :
  forall x z, In x l0 -> In z l0 -> planned x = true -> planned z = true ->
              get_new_name (name_of x) = get_new_name (name_of z) -> x = z.

Lemma same_name (x z : node) :
  In x l0 -> In z l0 -> name_of x = name_of z -> x = z.
Proof. apply wf_same_name. exact Hwf. Qed.

Lemma valid_in (x : node) : In x l0 -> valid_name (name_of x) = true.
Proof. intros H. apply wf_node_valid. exact (wf_listing_in _ _ Hwf H). Qed.

Lemma valid_new (x : node) :
  In x l0 -> planned x = true ->
  valid_name (get_new_name (name_of x)) = true.
Proof.
  intros Hx Hp. apply get_new_name_valid; [exact (valid_in x Hx)|].
  apply shown_not_hidden. exact (proj1 (planned_cases x Hp)).
Qed.

(** A planned entry whose new name is the name of a planned entry is that
    entry. *)
Lemma new_is_name (x z : node) :
  In x l0 -> In z l0 -> planned x = true -> planned z = true ->
  get_new_name (name_of z) = name_of x -> z = x.
Proof.
  intros Hx Hz Px Pz E. symmetry. apply Hapart; auto.
  rewrite <- E. apply get_new_name_idem.
Qed.

(** An entry the walker leaves alone and whose name is the new name of a
    planned entry is not a directory. *)
Lemma unplanned_not_dir (x y : node) :
  In x l0 -> In y l0 -> planned x = true -> planned y = false ->
  name_of y = get_new_name (name_of x) -> isdir y = false.
Proof.
  intros Hx Hy Px Py E. destruct (isdir y) eqn:Ed; [|reflexivity].
  exfalso. unfold planned, planned_file, shown_dir in Py. rewrite Ed in Py.
  destruct (shown y) eqn:Es; [cbn in Py; discriminate Py|].
  unfold shown in Es. destruct y as [n i|n i|n i sub]; try discriminate Ed.
  cbn [islink negb name_of] in *. rewrite andb_true_r in Es.
  apply negb_false_iff in Es. rewrite E in Es.
  pose proof (get_new_name_valid _ (valid_in x Hx)
                (shown_not_hidden x (proj1 (planned_cases x Px)))) as [_ H].
  congruence.
Qed.

Lemma unplanned_inv (z : node) :
  planned z = false -> planned_file z = false /\ shown_dir z = false.
Proof. unfold planned. apply orb_false_iff. Qed.

Lemma show_name (s : level) (z z' : node) :
  In z' (show s z) ->
  name_of z' = name_of z
  \/ (planned z = true /\ name_of z' = get_new_name (name_of z)).
Proof.
  unfold show. destruct (planned_file z) eqn:Ef.
  - intros [H|[]]. subst z'. destruct (moved s (name_of z)).
    + right. split; [apply planned_file_planned; exact Ef|].
      apply name_of_set_name.
    + left. reflexivity.
  - destruct (shown_dir z) eqn:Ed.
    + intros [H|[]]. subst z'. rewrite name_of_set_name.
      destruct (turned s (name_of z)).
      * right. split; [apply shown_dir_planned; exact Ed|reflexivity].
      * left. reflexivity.
    + destruct (taken s (name_of z)); [intros []|].
      intros [H|[]]. subst z'. left. reflexivity.
Qed.

Lemma show_unplanned (s : level) (z z' : node) :
  planned z = false -> In z' (show s z) ->
  z' = z /\ taken s (name_of z) = false.
Proof.
  intros Hp. destruct (unplanned_inv z Hp) as [Ef Ed].
  unfold show. rewrite Ef, Ed.
  destruct (taken s (name_of z)); [intros []|].
  intros [H|[]]. auto.
Qed.

Lemma who_orig (s : level) (x z z' : node) :
  In x l0 -> planned x = true -> In z l0 -> In z' (show s z) ->
  name_of z' = name_of x -> z = x.
Proof.
  intros Hx Px Hz Hz' E. destruct (show_name s z z' Hz') as [H|[Pz H]].
  - apply same_name; auto. congruence.
  - apply new_is_name; auto. congruence.
Qed.

Lemma who_new (s : level) (x z z' : node) :
  In x l0 -> planned x = true -> In z l0 -> In z' (show s z) ->
  name_of z' = get_new_name (name_of x) ->
  z = x \/ (planned z = false /\ z' = z /\ taken s (name_of z) = false).
Proof.
  intros Hx Px Hz Hz' E. destruct (planned z) eqn:Pz.
  - left. destruct (show_name s z z' Hz') as [H|[_ H]].
    + symmetry. apply new_is_name; auto. congruence.
    + apply Hapart; auto. congruence.
  - right. destruct (show_unplanned s z z' Pz Hz'). auto.
Qed.

Lemma in_cur (s : level) (e : node) :
  In e (cur l0 s) <-> exists z, In z l0 /\ In e (show s z).
Proof. unfold cur. apply in_flat_map. Qed.

Lemma cur_ext (s s' : level) :
  (forall z, In z l0 -> show s z = show s' z) -> cur l0 s = cur l0 s'.
Proof. unfold cur. apply flat_map_ext_in. Qed.

Lemma cur_map_filter (f : node -> node) (g : node -> bool) (s s' : level) :
  (forall z, In z l0 -> map f (filter g (show s z)) = show s' z) ->
  map f (filter g (cur l0 s)) = cur l0 s'.
Proof.
  intros H. unfold cur. rewrite filter_flat_map, map_flat_map.
  apply flat_map_ext_in. exact H.
Qed.

Lemma cur_map (f : node -> node) (s s' : level) :
  (forall z, In z l0 -> map f (show s z) = show s' z) ->
  map f (cur l0 s) = cur l0 s'.
Proof.
  intros H. unfold cur. rewrite map_flat_map.
  apply flat_map_ext_in. exact H.
Qed.

(** Finding an entry of the current listing by its current name. *)
Lemma cur_find (s : level) (x x' : node) :
  In x l0 -> In x' (show s x) ->
  (forall z z', In z l0 -> In z' (show s z) ->
                name_of z' = name_of x' -> z = x) ->
  (forall a b, In a (show s x) -> In b (show s x) -> a = b) ->
  find (named (name_of x')) (cur l0 s) = Some x'.
Proof.
  intros Hx Hx' Hu Hone. apply find_named_unique.
  - apply in_cur. exists x. auto.
  - apply str_eqb_refl.
  - intros e He Hn. apply in_cur in He. destruct He as [z [Hz Hez]].
    apply named_eq in Hn. assert (z = x) by (apply (Hu z e); auto).
    subst z. apply Hone; auto.
Qed.

Lemma show_one (s : level) (x a b : node) :
  In a (show s x) -> In b (show s x) -> a = b.
Proof.
  unfold show. destruct (planned_file x).
  - intros [H|[]] [H'|[]]. congruence.
  - destruct (shown_dir x).
    + intros [H|[]] [H'|[]]. congruence.
    + destruct (taken s (name_of x)); [intros []|].
      intros [H|[]] [H'|[]]. congruence.
Qed.

Lemma cur_find_none (s : level) (m : str) :
  (forall z z', In z l0 -> In z' (show s z) -> name_of z' <> m) ->
  find (named m) (cur l0 s) = None.
Proof.
  intros H. apply find_named_none. intros e He.
  apply in_cur in He. destruct He as [z [Hz Hez]].
  destruct (named m e) eqn:E; [|reflexivity].
  apply named_eq in E. exfalso. exact (H z e Hz Hez E).
Qed.

Lemma with_name_same (f : str -> bool) (n : str) (b : bool) :
  with_name f n b n = b.
Proof. unfold with_name. rewrite str_eqb_refl. reflexivity. Qed.

Lemma with_name_other (f : str -> bool) (n m : str) (b : bool) :
  m <> n -> with_name f n b m = f m.
Proof.
  intros H. unfold with_name. apply str_eqb_neq in H. rewrite H. reflexivity.
Qed.

Lemma with_inner_same (f : str -> list node) (n : str) (sub : list node) :
  with_inner f n sub n = sub.
Proof. unfold with_inner. rewrite str_eqb_refl. reflexivity. Qed.

Lemma with_inner_other (f : str -> list node) (n m : str) (sub : list node) :
  m <> n -> with_inner f n sub m = f m.
Proof.
  intros H. unfold with_inner. apply str_eqb_neq in H. rewrite H.
  reflexivity.
Qed.

Lemma show_congr_planned (s s' : level) (z : node) :
  planned z = true ->
  moved s' (name_of z) = moved s (name_of z) ->
  turned s' (name_of z) = turned s (name_of z) ->
  inner s' (name_of z) = inner s (name_of z) ->
  show s' z = show s z.
Proof.
  intros Pz Hm Ht Hi. unfold show. rewrite Hm, Ht, Hi.
  destruct (planned_cases z Pz) as [_ [[Ef [Ed _]]|[Ef [Ed _]]]];
    rewrite Ef, ?Ed; reflexivity.
Qed.

Lemma show_congr_unplanned (s s' : level) (z : node) :
  planned z = false ->
  taken s' (name_of z) = taken s (name_of z) ->
  show s' z = show s z.
Proof.
  intros Pz Ht. destruct (unplanned_inv z Pz) as [Ef Ed].
  unfold show. rewrite Ef, Ed, Ht. reflexivity.
Qed.

Lemma map_filter_id {A : Type} (f : A -> A) (keep : A -> bool)
  (l : list A) :
  (forall a, In a l -> keep a = true /\ f a = a) ->
  map f (filter keep l) = l.
Proof.
  induction l as [|a l IH]; intros H; [reflexivity|].
  destruct (H a (or_introl eq_refl)) as [Hk Hf].
  cbn [filter]. rewrite Hk. cbn [map]. rewrite Hf, IH; [reflexivity|].
  intros b Hb. apply H. right. exact Hb.
Qed.

(** A change of the current listing that touches only entries named as a
    planned entry [x] was or will be. *)
Lemma cur_step (s s' : level) (f : node -> node) (keep : node -> bool)
  (x : node) :
  In x l0 -> planned x = true ->
  (forall a, name_of a <> name_of x ->
             name_of a <> get_new_name (name_of x) ->
             keep a = true /\ f a = a) ->
  map f (filter keep (show s x)) = show s' x ->
  (forall z, In z l0 -> z <> x -> planned z = true -> show s' z = show s z) ->
  (forall z, In z l0 -> planned z = false ->
             map f (filter keep (show s z)) = show s' z) ->
  map f (filter keep (cur l0 s)) = cur l0 s'.
Proof.
  intros Hx Px Hother Hsame Hpl Hun. apply cur_map_filter. intros z Hz.
  destruct (str_eqb (name_of z) (name_of x)) eqn:E.
  - apply str_eqb_eq in E. assert (z = x) by (apply same_name; auto).
    subst z. exact Hsame.
  - apply str_eqb_neq in E. assert (Hzx : z <> x) by congruence.
    destruct (planned z) eqn:Pz.
    + rewrite (Hpl z Hz Hzx Pz). apply map_filter_id. intros a Ha.
      apply Hother.
      * intros Ea. apply Hzx. exact (who_orig s x z a Hx Px Hz Ha Ea).
      * intros Ea. destruct (who_new s x z a Hx Px Hz Ha Ea) as [H|[H _]];
          [exact (Hzx H)|congruence].
    + apply Hun; auto.
Qed.

Lemma show_planned_file (s : level) (x : node) :
  planned_file x = true ->
  show s x = [if moved s (name_of x)
              then set_name (get_new_name (name_of x)) x else x].
Proof. intros H. unfold show. rewrite H. reflexivity. Qed.

Lemma show_shown_dir (s : level) (x : node) :
  shown_dir x = true ->
  show s x = [set_name (if turned s (name_of x)
                        then get_new_name (name_of x) else name_of x)
                       (set_entries (inner s (name_of x)) x)].
Proof.
  intros H. unfold show. rewrite H.
  destruct (planned_cases x (shown_dir_planned x H)) as [_ [[_ [E _]]|[E _]]];
    [congruence|]. rewrite E. reflexivity.
Qed.

Lemma named_false (n : str) (e : node) : name_of e <> n -> named n e = false.
Proof. intros H. unfold named. apply str_eqb_neq. exact H. Qed.

Lemma named_true (n : str) (e : node) : name_of e = n -> named n e = true.
Proof. intros H. apply named_eq. exact H. Qed.

Lemma cur_find_at (s : level) (x x' : node) (m : str) :
  In x l0 -> In x' (show s x) -> name_of x' = m ->
  (forall z z', In z l0 -> In z' (show s z) -> name_of z' = m -> z = x) ->
  find (named m) (cur l0 s) = Some x'.
Proof.
  intros Hx Hx' Hm Hu. subst m. apply (cur_find s x x'); auto.
  apply show_one.
Qed.

Lemma twin_inv (x : node) :
  twin l0 x = true ->
  exists y, In y l0 /\ planned y = false
            /\ name_of y = get_new_name (name_of x)
            /\ same_file x y = true.
Proof.
  unfold twin. intros H. apply existsb_exists in H.
  destruct H as [y [Hy H]]. apply andb_true_iff in H. destruct H as [H H3].
  apply andb_true_iff in H. destruct H as [H1 H2].
  apply negb_true_iff in H1. apply named_eq in H2. exists y. auto.
Qed.

Lemma twin_intro (x y : node) :
  In y l0 -> planned y = false -> name_of y = get_new_name (name_of x) ->
  same_file x y = true -> twin l0 x = true.
Proof.
  intros Hy Py E Hf. unfold twin. apply existsb_exists. exists y.
  split; [exact Hy|]. rewrite Py, (named_true _ _ E), Hf. reflexivity.
Qed.

Lemma find_unmoved (s : level) (x : node) :
  In x l0 -> planned_file x = true -> moved s (name_of x) = false ->
  find (named (name_of x)) (cur l0 s) = Some x.
Proof.
  intros Hx Ef Hm. pose proof (planned_file_planned x Ef) as Px.
  apply (cur_find s x x); auto.
  - rewrite (show_planned_file s x Ef), Hm. left. reflexivity.
  - intros z z' Hz Hz' E. exact (who_orig s x z z' Hx Px Hz Hz' E).
  - apply show_one.
Qed.

(** The other hard link of a planned file that was not renamed is in its
    place. *)
Lemma find_twin (s : level) (x y : node) :
  In x l0 -> planned_file x = true -> moved s (name_of x) = false ->
  twin l0 x = true ->
  In y l0 -> planned y = false -> name_of y = get_new_name (name_of x) ->
  (forall m, taken s m = true ->
             exists f, In f l0 /\ planned_file f = true
                       /\ get_new_name (name_of f) = m
                       /\ twin l0 f = false) ->
  find (named (get_new_name (name_of x))) (cur l0 s) = Some y.
Proof.
  intros Hx Ef Hm Tw Hy Py E Htaken.
  pose proof (planned_file_planned x Ef) as Px.
  assert (Hty : taken s (name_of y) = false).
  { destruct (taken s (name_of y)) eqn:T; [|reflexivity]. exfalso.
    destruct (Htaken _ T) as [f [Hf [Pf [Ef' Tf]]]].
    assert (f = x)
      by (apply Hapart; auto using planned_file_planned; congruence).
    subst f. congruence. }
  assert (Hsy : show s y = [y]).
  { destruct (unplanned_inv y Py) as [E1 E2]. unfold show.
    rewrite E1, E2, Hty. reflexivity. }
  apply (cur_find_at s y); auto.
  - rewrite Hsy. left. reflexivity.
  - intros z z' Hz Hz' Ez.
    destruct (who_new s x z z' Hx Px Hz Hz' Ez) as [H|[Pz [H _]]].
    + subst z. rewrite (show_planned_file s x Ef), Hm in Hz'.
      destruct Hz' as [H|[]]. subst z'. apply same_name; auto. congruence.
    + subst z'. apply same_name; auto. congruence.
Qed.

(** The rename of a planned file goes through: it moves the file, or does
    nothing when the new name is another hard link of the file. *)
Lemma step_file_fwd (s : level) (x : node) :
  In x l0 -> planned_file x = true -> moved s (name_of x) = false ->
  (forall m, taken s m = true ->
             exists f, In f l0 /\ planned_file f = true
                       /\ get_new_name (name_of f) = m
                       /\ twin l0 f = false) ->
  rename_path (cur l0 s) [name_of x] [get_new_name (name_of x)]
  = Done (cur l0 (gstep l0 x s)).
Proof.
  intros Hx Ef Hm Htaken. pose proof (planned_file_planned x Ef) as Px.
  rewrite rename_path_single by (auto using valid_in, valid_new).
  assert (Hshow : show s x = [x])
    by (rewrite (show_planned_file s x Ef), Hm; reflexivity).
  pose proof (find_unmoved s x Hx Ef Hm) as Hsrc.
  unfold gstep. rewrite Ef. destruct (twin l0 x) eqn:Tw.
  { destruct (twin_inv x Tw) as [y [Hy [Py [E Hf]]]].
    rewrite (rename_within_twin _ _ _ x y Hsrc
               (find_twin s x y Hx Ef Hm Tw Hy Py E Htaken) Hf).
    reflexivity. }
  set (s' := set_taken (set_moved s (name_of x) true)
                       (get_new_name (name_of x))).
  assert (Hpl : forall z, In z l0 -> z <> x -> planned z = true ->
                          show s' z = show s z).
  { intros z Hz Hzx Pz. apply show_congr_planned; auto.
    cbn [s' set_taken set_moved moved]. apply with_name_other.
    intros E. apply Hzx. apply same_name; auto. }
  assert (Hx' : show s' x = [set_name (get_new_name (name_of x)) x]).
  { rewrite (show_planned_file s' x Ef). cbn [s' set_taken set_moved moved].
    rewrite with_name_same. reflexivity. }
  destruct (str_eqb (name_of x) (get_new_name (name_of x))) eqn:En.
  - apply str_eqb_eq in En.
    assert (Hw : rename_within (cur l0 s) (name_of x)
                               (get_new_name (name_of x))
                 = Done (cur l0 s))
      by (rewrite <- En; exact (rename_within_same _ _ _ Hsrc)).
    rewrite Hw. f_equal. apply cur_ext. intros z Hz.
    destruct (str_eqb (name_of z) (name_of x)) eqn:E.
    + apply str_eqb_eq in E. assert (z = x) by (apply same_name; auto).
      subst z. rewrite Hshow, Hx', <- En, set_name_same. reflexivity.
    + apply str_eqb_neq in E. destruct (planned z) eqn:Pz.
      * symmetry. apply Hpl; auto. congruence.
      * symmetry. apply show_congr_unplanned; auto.
        cbn [s' set_taken set_moved taken]. apply with_name_other.
        congruence.
  - apply str_eqb_neq in En.
    rewrite (rename_within_moved _ _ _ x Hsrc En).
    + f_equal. apply (cur_step s s' _ _ x Hx Px).
      * intros a H1 H2. rewrite !named_false by assumption. auto.
      * rewrite Hshow, Hx'. cbn [filter]. rewrite named_false by congruence.
        cbn [negb map]. rewrite named_true by reflexivity. reflexivity.
      * exact Hpl.
      * intros z Hz Pz. destruct (unplanned_inv z Pz) as [Ezf Ezd].
        assert (Hzx : name_of z <> name_of x).
        { intros E. assert (z = x) by (apply same_name; auto). congruence. }
        unfold show. rewrite Ezf, Ezd. cbn [s' set_taken set_moved taken].
        destruct (str_eqb (name_of z) (get_new_name (name_of x))) eqn:Ez.
        -- apply str_eqb_eq in Ez. rewrite Ez, with_name_same.
           destruct (taken s (get_new_name (name_of x))); [reflexivity|].
           cbn [filter]. rewrite named_true by exact Ez. reflexivity.
        -- apply str_eqb_neq in Ez. rewrite with_name_other by exact Ez.
           destruct (taken s (name_of z)); [reflexivity|].
           cbn [filter]. rewrite named_false by exact Ez. cbn [negb map].
           rewrite named_false by exact Hzx. reflexivity.
    + intros dst Hd. apply find_named_in in Hd. destruct Hd as [Hin Hn].
      apply in_cur in Hin. destruct Hin as [z [Hz Hz']].
      destruct (who_new s x z dst Hx Px Hz Hz' Hn) as [H|[Pz [H _]]].
      * subst z. rewrite Hshow in Hz'. destruct Hz' as [H|[]]. subst dst.
        congruence.
      * subst dst. split.
        -- destruct (same_file x z) eqn:Sf; [|reflexivity].
           rewrite (twin_intro x z Hz Pz Hn Sf) in Tw. discriminate Tw.
        -- apply replaceable_files.
           ++ exact (planned_file_not_dir x Ef).
           ++ exact (unplanned_not_dir x z Hx Hz Px Pz Hn).
Qed.

(** Undoing the rename of a planned file goes through. *)
Lemma step_file_bwd (s : level) (x : node) :
  In x l0 -> planned_file x = true -> moved s (name_of x) = true ->
  taken s (get_new_name (name_of x)) = true ->
  rename_path (cur l0 s) [get_new_name (name_of x)] [name_of x]
  = Done (cur l0 (set_moved s (name_of x) false)).
Proof.
  intros Hx Ef Hm Ht. pose proof (planned_file_planned x Ef) as Px.
  rewrite rename_path_single by (auto using valid_in, valid_new).
  assert (Hshow : show s x = [set_name (get_new_name (name_of x)) x])
    by (rewrite (show_planned_file s x Ef), Hm; reflexivity).
  assert (Hsrc : find (named (get_new_name (name_of x))) (cur l0 s)
                 = Some (set_name (get_new_name (name_of x)) x)).
  { apply (cur_find_at s x); auto.
    - rewrite Hshow. left. reflexivity.
    - apply name_of_set_name.
    - intros z z' Hz Hz' E.
      destruct (who_new s x z z' Hx Px Hz Hz' E) as [H|[Pz [H1 H2]]]; auto.
      subst z'. rewrite E in H2. congruence. }
  set (s' := set_moved s (name_of x) false).
  assert (Hpl : forall z, In z l0 -> z <> x -> planned z = true ->
                          show s' z = show s z).
  { intros z Hz Hzx Pz. apply show_congr_planned; auto.
    cbn [s' set_moved moved]. apply with_name_other.
    intros E. apply Hzx. apply same_name; auto. }
  assert (Hx' : show s' x = [x]).
  { rewrite (show_planned_file s' x Ef). cbn [s' set_moved moved].
    rewrite with_name_same. reflexivity. }
  assert (Hun : forall z, planned z = false -> show s' z = show s z).
  { intros z Pz. apply show_congr_unplanned; auto. }
  destruct (str_eqb (get_new_name (name_of x)) (name_of x)) eqn:En.
  - apply str_eqb_eq in En.
    assert (Hw : rename_within (cur l0 s) (get_new_name (name_of x))
                               (name_of x)
                 = Done (cur l0 s)).
    { rewrite <- En at 2. exact (rename_within_same _ _ _ Hsrc). }
    rewrite Hw. f_equal. apply cur_ext. intros z Hz.
    destruct (str_eqb (name_of z) (name_of x)) eqn:E.
    + apply str_eqb_eq in E. assert (z = x) by (apply same_name; auto).
      subst z. rewrite Hshow, Hx', En, set_name_same. reflexivity.
    + apply str_eqb_neq in E. destruct (planned z) eqn:Pz.
      * symmetry. apply Hpl; auto. congruence.
      * symmetry. apply Hun. exact Pz.
  - apply str_eqb_neq in En.
    rewrite (rename_within_moved _ _ _ _ Hsrc En).
    + f_equal. apply (cur_step s s' _ _ x Hx Px).
      * intros a H1 H2. rewrite !named_false by assumption. auto.
      * rewrite Hshow, Hx'. cbn [filter].
        rewrite named_false by (rewrite name_of_set_name; exact En).
        cbn [negb map].
        rewrite named_true by apply name_of_set_name.
        rewrite set_name_twice, set_name_same. reflexivity.
      * exact Hpl.
      * intros z Hz Pz. rewrite (Hun z Pz). apply map_filter_id.
        intros a Ha. destruct (show_unplanned s z a Pz Ha) as [E Hta].
        subst a.
        assert (name_of z <> name_of x).
        { intros E. assert (z = x) by (apply same_name; auto). congruence. }
        assert (name_of z <> get_new_name (name_of x)) by congruence.
        rewrite !named_false by assumption. auto.
    + intros dst Hd. exfalso. apply find_named_in in Hd.
      destruct Hd as [Hin Hn]. apply in_cur in Hin.
      destruct Hin as [z [Hz Hz']].
      assert (z = x) by exact (who_orig s x z dst Hx Px Hz Hz' Hn).
      subst z. rewrite Hshow in Hz'. destruct Hz' as [H|[]]. subst dst.
      rewrite name_of_set_name in Hn. exact (En Hn).
Qed.

(** Undoing the rename of a planned file that did nothing does nothing. *)
Lemma step_file_bwd_twin (s : level) (x : node) :
  In x l0 -> planned_file x = true -> moved s (name_of x) = false ->
  twin l0 x = true ->
  (forall m, taken s m = true ->
             exists f, In f l0 /\ planned_file f = true
                       /\ get_new_name (name_of f) = m
                       /\ twin l0 f = false) ->
  rename_path (cur l0 s) [get_new_name (name_of x)] [name_of x]
  = Done (cur l0 s).
Proof.
  intros Hx Ef Hm Tw Htaken. pose proof (planned_file_planned x Ef) as Px.
  rewrite rename_path_single by (auto using valid_in, valid_new).
  destruct (twin_inv x Tw) as [y [Hy [Py [E Hf]]]].
  apply (rename_within_twin _ _ _ y x
           (find_twin s x y Hx Ef Hm Tw Hy Py E Htaken)
           (find_unmoved s x Hx Ef Hm)).
  rewrite same_file_sym. exact Hf.
Qed.

Lemma blocked_inv (d : node) :
  blocked l0 d = true ->
  exists y, In y l0 /\ planned y = false
            /\ name_of y = get_new_name (name_of d).
Proof.
  unfold blocked. intros H. apply existsb_exists in H.
  destruct H as [y [Hy H]]. apply andb_true_iff in H. destruct H as [H1 H2].
  apply negb_true_iff in H1. apply named_eq in H2. exists y. auto.
Qed.

Lemma blocked_intro (d y : node) :
  In y l0 -> planned y = false -> name_of y = get_new_name (name_of d) ->
  blocked l0 d = true.
Proof.
  intros Hy Py E. unfold blocked. apply existsb_exists. exists y.
  split; [exact Hy|]. rewrite Py, (named_true _ _ E). reflexivity.
Qed.

Lemma file_not_dir (f d : node) :
  planned_file f = true -> shown_dir d = true -> f <> d.
Proof.
  intros Hf Hd E. subst f. apply planned_file_not_dir in Hf.
  apply shown_dir_isdir in Hd. congruence.
Qed.

(** The rename of a shown directory goes through unless its new name is the
    name of an entry the walker leaves alone. *)
Lemma step_dir_fwd (s : level) (d : node) :
  In d l0 -> shown_dir d = true -> turned s (name_of d) = false ->
  (forall m, taken s m = true ->
             exists f, In f l0 /\ planned_file f = true
                       /\ get_new_name (name_of f) = m
                       /\ twin l0 f = false) ->
  rename_path (cur l0 s) [name_of d] [get_new_name (name_of d)]
  = if blocked l0 d then OSError
    else Done (cur l0 (set_turned s (name_of d) true)).
Proof.
  intros Hd Ed Ht Htaken. pose proof (shown_dir_planned d Ed) as Pd.
  rewrite rename_path_single by (auto using valid_in, valid_new).
  pose proof (show_shown_dir s d Ed) as Hshow. rewrite Ht in Hshow.
  set (d1 := set_name (name_of d) (set_entries (inner s (name_of d)) d))
    in Hshow.
  assert (Hn1 : name_of d1 = name_of d) by apply name_of_set_name.
  assert (Hsrc : find (named (name_of d)) (cur l0 s) = Some d1).
  { apply (cur_find_at s d); auto.
    - rewrite Hshow. left. reflexivity.
    - intros z z' Hz Hz' E. exact (who_orig s d z z' Hd Pd Hz Hz' E). }
  set (s' := set_turned s (name_of d) true).
  assert (Hpl : forall z, In z l0 -> z <> d -> planned z = true ->
                          show s' z = show s z).
  { intros z Hz Hzd Pz. apply show_congr_planned; auto.
    cbn [s' set_turned turned]. apply with_name_other.
    intros E. apply Hzd. apply same_name; auto. }
  assert (Hd' : show s' d
                = [set_name (get_new_name (name_of d))
                            (set_entries (inner s (name_of d)) d)]).
  { rewrite (show_shown_dir s' d Ed). cbn [s' set_turned turned inner].
    rewrite with_name_same. reflexivity. }
  assert (Hun : forall z, planned z = false -> show s' z = show s z).
  { intros z Pz. apply show_congr_unplanned; auto. }
  destruct (str_eqb (name_of d) (get_new_name (name_of d))) eqn:En.
  - apply str_eqb_eq in En.
    assert (B : blocked l0 d = false).
    { destruct (blocked l0 d) eqn:B; [|reflexivity]. exfalso.
      destruct (blocked_inv d B) as [y [Hy [Py E]]].
      assert (y = d) by (apply same_name; auto; congruence). congruence. }
    rewrite B.
    assert (Hw : rename_within (cur l0 s) (name_of d)
                               (get_new_name (name_of d))
                 = Done (cur l0 s))
      by (rewrite <- En; exact (rename_within_same _ _ _ Hsrc)).
    rewrite Hw. f_equal. apply cur_ext. intros z Hz.
    destruct (str_eqb (name_of z) (name_of d)) eqn:E.
    + apply str_eqb_eq in E. assert (z = d) by (apply same_name; auto).
      subst z. rewrite Hshow, Hd'. unfold d1. rewrite <- En. reflexivity.
    + apply str_eqb_neq in E. destruct (planned z) eqn:Pz.
      * symmetry. apply Hpl; auto. congruence.
      * symmetry. apply Hun. exact Pz.
  - apply str_eqb_neq in En. destruct (blocked l0 d) eqn:B.
    + destruct (blocked_inv d B) as [y [Hy [Py E]]].
      assert (Hty : taken s (name_of y) = false).
      { destruct (taken s (name_of y)) eqn:T; [|reflexivity]. exfalso.
        destruct (Htaken _ T) as [f [Hf [Pf [Ef _]]]].
        apply (file_not_dir f d Pf Ed).
        apply Hapart; auto using planned_file_planned. congruence. }
      assert (Hsy : show s y = [y]).
      { destruct (unplanned_inv y Py) as [E1 E2]. unfold show.
        rewrite E1, E2, Hty. reflexivity. }
      assert (Hdst : find (named (get_new_name (name_of d))) (cur l0 s)
                     = Some y).
      { apply (cur_find_at s y); auto.
        - rewrite Hsy. left. reflexivity.
        - intros z z' Hz Hz' Ez.
          destruct (who_new s d z z' Hd Pd Hz Hz' Ez) as [H|[Pz [H _]]].
          + subst z. rewrite Hshow in Hz'. destruct Hz' as [H|[]].
            subst z'. congruence.
          + subst z'. apply same_name; auto. congruence. }
      assert (Hd1 : isdir d1 = true).
      { unfold d1. rewrite isdir_set_name, isdir_set_entries.
        exact (shown_dir_isdir d Ed). }
      apply (rename_within_refused _ _ _ d1 y Hsrc En Hdst Hd1).
      apply replaceable_dir_file; [exact Hd1|].
      exact (unplanned_not_dir d y Hd Hy Pd Py E).
    + rewrite (rename_within_moved _ _ _ _ Hsrc En).
      * f_equal. apply (cur_step s s' _ _ d Hd Pd).
        -- intros a H1 H2. rewrite !named_false by assumption. auto.
        -- rewrite Hshow, Hd'. cbn [filter].
           rewrite named_false by (rewrite Hn1; exact En).
           cbn [negb map]. rewrite named_true by exact Hn1.
           unfold d1. rewrite set_name_twice. reflexivity.
        -- exact Hpl.
        -- intros z Hz Pz. rewrite (Hun z Pz). apply map_filter_id.
           intros a Ha. destruct (show_unplanned s z a Pz Ha) as [E _].
           subst a.
           assert (name_of z <> name_of d).
           { intros E. assert (z = d) by (apply same_name; auto).
             congruence. }
           assert (name_of z <> get_new_name (name_of d)).
           { intros E. rewrite (blocked_intro d z Hz Pz E) in B.
             discriminate B. }
           rewrite !named_false by assumption. auto.
      * intros dst Hdst. exfalso. apply find_named_in in Hdst.
        destruct Hdst as [Hin Hn]. apply in_cur in Hin.
        destruct Hin as [z [Hz Hz']].
        destruct (who_new s d z dst Hd Pd Hz Hz' Hn) as [H|[Pz [H _]]].
        -- subst z. rewrite Hshow in Hz'. destruct Hz' as [H|[]].
           subst dst. congruence.
        -- subst dst. rewrite (blocked_intro d z Hz Pz Hn) in B.
           discriminate B.
Qed.

(** Undoing the rename of a shown directory that was not blocked goes
    through. *)
Lemma step_dir_bwd (s : level) (d : node) :
  In d l0 -> shown_dir d = true -> turned s (name_of d) = true ->
  blocked l0 d = false ->
  rename_path (cur l0 s) [get_new_name (name_of d)] [name_of d]
  = Done (cur l0 (set_turned s (name_of d) false)).
Proof.
  intros Hd Ed Ht B. pose proof (shown_dir_planned d Ed) as Pd.
  rewrite rename_path_single by (auto using valid_in, valid_new).
  pose proof (show_shown_dir s d Ed) as Hshow. rewrite Ht in Hshow.
  set (d2 := set_name (get_new_name (name_of d))
                      (set_entries (inner s (name_of d)) d)) in Hshow.
  assert (Hn2 : name_of d2 = get_new_name (name_of d))
    by apply name_of_set_name.
  assert (Hsrc : find (named (get_new_name (name_of d))) (cur l0 s)
                 = Some d2).
  { apply (cur_find_at s d); auto.
    - rewrite Hshow. left. reflexivity.
    - intros z z' Hz Hz' E.
      destruct (who_new s d z z' Hd Pd Hz Hz' E) as [H|[Pz [H _]]]; auto.
      subst z'. rewrite (blocked_intro d z Hz Pz E) in B. discriminate B. }
  set (s' := set_turned s (name_of d) false).
  assert (Hpl : forall z, In z l0 -> z <> d -> planned z = true ->
                          show s' z = show s z).
  { intros z Hz Hzd Pz. apply show_congr_planned; auto.
    cbn [s' set_turned turned]. apply with_name_other.
    intros E. apply Hzd. apply same_name; auto. }
  assert (Hd' : show s' d
                = [set_name (name_of d)
                            (set_entries (inner s (name_of d)) d)]).
  { rewrite (show_shown_dir s' d Ed). cbn [s' set_turned turned inner].
    rewrite with_name_same. reflexivity. }
  assert (Hun : forall z, planned z = false -> show s' z = show s z).
  { intros z Pz. apply show_congr_unplanned; auto. }
  destruct (str_eqb (get_new_name (name_of d)) (name_of d)) eqn:En.
  - apply str_eqb_eq in En.
    assert (Hw : rename_within (cur l0 s) (get_new_name (name_of d))
                               (name_of d)
                 = Done (cur l0 s)).
    { rewrite <- En at 2. exact (rename_within_same _ _ _ Hsrc). }
    rewrite Hw. f_equal. apply cur_ext. intros z Hz.
    destruct (str_eqb (name_of z) (name_of d)) eqn:E.
    + apply str_eqb_eq in E. assert (z = d) by (apply same_name; auto).
      subst z. rewrite Hshow, Hd'. unfold d2. rewrite En. reflexivity.
    + apply str_eqb_neq in E. destruct (planned z) eqn:Pz.
      * symmetry. apply Hpl; auto. congruence.
      * symmetry. apply Hun. exact Pz.
  - apply str_eqb_neq in En.
    rewrite (rename_within_moved _ _ _ _ Hsrc En).
    + f_equal. apply (cur_step s s' _ _ d Hd Pd).
      * intros a H1 H2. rewrite !named_false by assumption. auto.
      * rewrite Hshow, Hd'. cbn [filter].
        rewrite named_false by (rewrite Hn2; exact En).
        cbn [negb map]. rewrite named_true by exact Hn2.
        unfold d2. rewrite set_name_twice. reflexivity.
      * exact Hpl.
      * intros z Hz Pz. rewrite (Hun z Pz). apply map_filter_id.
        intros a Ha. destruct (show_unplanned s z a Pz Ha) as [E _].
        subst a.
        assert (name_of z <> name_of d).
        { intros E. assert (z = d) by (apply same_name; auto). congruence. }
        assert (name_of z <> get_new_name (name_of d)).
        { intros E. rewrite (blocked_intro d z Hz Pz E) in B.
          discriminate B. }
        rewrite !named_false by assumption. auto.
    + intros dst Hdst. exfalso. apply find_named_in in Hdst.
      destruct Hdst as [Hin Hn]. apply in_cur in Hin.
      destruct Hin as [z [Hz Hz']].
      assert (z = d) by exact (who_orig s d z dst Hd Pd Hz Hz' Hn).
      subst z. rewrite Hshow in Hz'. destruct Hz' as [H|[]]. subst dst.
      rewrite Hn2 in Hn. exact (En Hn).
Qed.

(** Running a plan of the subdirectory [n], while it has its own name. *)
Lemma step_sub (s : level) (n : str) (i : nat) (sub0 : list node)
  (items : list citem) :
  In (Dir n i sub0) l0 -> shown_dir (Dir n i sub0) = true ->
  turned s n = false ->
  (forall it, In it items -> fst it <> [] /\ snd it <> []) ->
  run (map (push n) items) (cur l0 s)
  = match run items (inner s n) with
    | Some (sub', g) => Some (cur l0 (set_inner s n sub'), map (push n) g)
    | None => None
    end.
Proof.
  intros Hd Ed Ht Hne. set (d := Dir n i sub0) in *.
  pose proof (shown_dir_planned d Ed) as Pd.
  pose proof (show_shown_dir s d Ed) as Hshow.
  cbn [d name_of] in Hshow. rewrite Ht in Hshow. cbn [set_entries set_name]
    in Hshow.
  rewrite (run_push n i items (valid_in d Hd) Hne (cur l0 s) (inner s n)).
  - destruct (run items (inner s n)) as [[sub' g]|]; [|reflexivity].
    f_equal. f_equal. unfold put.
    rewrite <- (filter_all (fun _ => true) (cur l0 s)) by reflexivity.
    apply (cur_step s (set_inner s n sub') _ _ d Hd Pd).
    + intros a H1 _. split; [reflexivity|].
      rewrite named_false by exact H1. reflexivity.
    + rewrite Hshow, (show_shown_dir _ d Ed).
      cbn [d name_of set_inner turned inner filter map].
      rewrite Ht, with_inner_same. unfold named. cbn [name_of].
      rewrite str_eqb_refl. reflexivity.
    + intros z Hz Hzd Pz. apply show_congr_planned; auto.
      cbn [set_inner inner]. apply with_inner_other.
      intros E. apply Hzd. apply same_name; auto.
    + intros z Hz Pz. rewrite (show_congr_unplanned s (set_inner s n sub') z)
        by auto.
      apply map_filter_id. intros a Ha.
      destruct (show_unplanned s z a Pz Ha) as [E _]. subst a.
      split; [reflexivity|]. rewrite named_false; [reflexivity|].
      intros E. assert (z = d) by (apply same_name; auto). congruence.
  - apply in_cur. exists d. split; [exact Hd|]. rewrite Hshow. left.
    reflexivity.
  - intros e He Hn. apply in_cur in He. destruct He as [z [Hz Hz']].
    apply named_eq in Hn.
    assert (z = d) by exact (who_orig s d z e Hd Pd Hz Hz' Hn).
    subst z. rewrite Hshow in Hz'. destruct Hz' as [H|[]]. auto.
Qed.

(* ----------------------------------------------------------------- *)
(** The passes over the directory. *)

Lemma stage_agree (a b : node -> bool) (c : node -> list node)
  (s s' : level) (e : node) :
  agree s s' e -> stage_ok a b c s e -> stage_ok a b c s' e.
Proof.
  intros [A1 [A2 A3]] [S1 [S2 S3]]. unfold stage_ok.
  rewrite A1, A2, A3. auto.
Qed.

Lemma agree_refl (s : level) (e : node) : agree s s e.
Proof. unfold agree. auto. Qed.

Lemma agree_trans (s1 s2 s3 : level) (e : node) :
  agree s1 s2 e -> agree s2 s3 e -> agree s1 s3 e.
Proof.
  intros [A1 [A2 A3]] [B1 [B2 B3]]. unfold agree.
  rewrite B1, B2, B3. auto.
Qed.

Lemma pass (frag lg : node -> list citem) (step : node -> level -> level)
  (a b : node -> bool) (c : node -> list node)
  (a' b' : node -> bool) (c' : node -> list node) :
  (forall e s, In e l0 -> taken_ok l0 s -> stage_ok a b c s e ->
     run (frag e) (cur l0 s) = Some (cur l0 (step e s), lg e)
     /\ taken_ok l0 (step e s)
     /\ stage_ok a' b' c' (step e s) e
     /\ (forall e', In e' l0 -> e' <> e -> agree s (step e s) e')) ->
  forall todo s,
    (forall e, In e todo -> In e l0) -> NoDup todo -> taken_ok l0 s ->
    (forall e, In e todo -> stage_ok a b c s e) ->
    exists s',
      run (flat_map frag todo) (cur l0 s)
      = Some (cur l0 s', flat_map lg todo)
      /\ taken_ok l0 s'
      /\ (forall e, In e todo -> stage_ok a' b' c' s' e)
      /\ (forall e', In e' l0 -> ~ In e' todo -> agree s s' e').
Proof.
  intros Hstep. induction todo as [|e todo IH]; intros s Hin Hnd Ht Hpre.
  - exists s. cbn [flat_map run]. split; [reflexivity|].
    split; [exact Ht|]. split.
    + intros e [].
    + intros. apply agree_refl.
  - inversion Hnd as [|? ? Hne Hnd']; subst.
    assert (He : In e l0) by (apply Hin; left; reflexivity).
    destruct (Hstep e s He Ht (Hpre e (or_introl eq_refl)))
      as [Hrun [Ht1 [Hpost Hag]]].
    destruct (IH (step e s)) as [s' [Hrun' [Ht' [Hpost' Hag']]]]; auto.
    + intros e' He'. apply Hin. right. exact He'.
    + intros e' He'. apply (stage_agree _ _ _ s).
      * apply Hag; [apply Hin; right; exact He'|]. intros E. subst e'.
        exact (Hne He').
      * apply Hpre. right. exact He'.
    + exists s'. cbn [flat_map]. rewrite run_app, Hrun, Hrun'.
      split; [reflexivity|]. split; [exact Ht'|]. split.
      * intros e' [E|He'].
        -- subst e'. apply (stage_agree _ _ _ (step e s)); [|exact Hpost].
           apply Hag'; auto.
        -- apply Hpost'. exact He'.
      * intros e' He' Hn. apply (agree_trans s (step e s) s').
        -- apply Hag; auto. intros E. apply Hn. left. auto.
        -- apply Hag'; auto. intros H. apply Hn. right. exact H.
Qed.

Lemma run_single (it : citem) (l : list node) :
  run [it] l
  = match rename_path l (fst it) (snd it) with
    | Done l' => Some (l', [swap it])
    | OSError => Some (l, [])
    | Unmodelled => None
    end.
Proof.
  cbn [run]. destruct (rename_path l (fst it) (snd it)); reflexivity.
Qed.

Lemma walk_gathered_file (e : node) :
  planned_file e = true -> walk_gathered walk_dir e = [own_item e].
Proof.
  unfold planned_file, walk_gathered. intros H.
  apply andb_true_iff in H. destruct H as [H H3].
  apply andb_true_iff in H. destruct H as [H1 H2].
  apply negb_true_iff in H2. rewrite H1, H2, H3. reflexivity.
Qed.

Lemma walk_gathered_dir (n : str) (i : nat) (sub : list node) :
  shown_dir (Dir n i sub) = true ->
  walk_gathered walk_dir (Dir n i sub) = map (push n) (walk sub).
Proof.
  unfold shown_dir, walk_gathered. intros H.
  apply andb_true_iff in H. destruct H as [H1 _]. rewrite H1. reflexivity.
Qed.

Lemma walk_gathered_none (e : node) :
  planned_file e = false -> shown_dir e = false ->
  walk_gathered walk_dir e = [].
Proof.
  unfold planned_file, shown_dir, walk_gathered.
  destruct (shown e), (isdir e), (should_rename (name_of e)); cbn;
    intros H1 H2; try discriminate; reflexivity.
Qed.

Lemma taken_ok_moved_true (s : level) (x : node) :
  In x l0 -> planned_file x = true -> twin l0 x = false -> taken_ok l0 s ->
  taken_ok l0 (set_taken (set_moved s (name_of x) true)
                         (get_new_name (name_of x))).
Proof.
  intros Hx Ef Tw [J2 J3]. split.
  - intros f Hf Pf. cbn [set_taken set_moved moved taken]. intros Hm.
    destruct (str_eqb (get_new_name (name_of f)) (get_new_name (name_of x)))
      eqn:E.
    + apply str_eqb_eq in E. rewrite E. apply with_name_same.
    + apply str_eqb_neq in E. rewrite with_name_other by exact E.
      apply J2; auto. rewrite with_name_other in Hm; [exact Hm|].
      intros En. apply E. congruence.
  - intros m. cbn [set_taken set_moved taken]. unfold with_name.
    destruct (str_eqb m (get_new_name (name_of x))) eqn:E.
    + apply str_eqb_eq in E. intros _. exists x. auto.
    + apply J3.
Qed.

Lemma taken_ok_moved_false (s : level) (x : node) :
  taken_ok l0 s -> taken_ok l0 (set_moved s (name_of x) false).
Proof.
  intros [J2 J3]. split; [|exact J3].
  intros f Hf Pf. cbn [set_moved moved taken]. unfold with_name.
  destruct (str_eqb (name_of f) (name_of x)); [discriminate|].
  apply J2; auto.
Qed.

Lemma taken_ok_turned (s : level) (n : str) (b : bool) :
  taken_ok l0 s -> taken_ok l0 (set_turned s n b).
Proof. intros H. exact H. Qed.

Lemma taken_ok_inner (s : level) (n : str) (sub : list node) :
  taken_ok l0 s -> taken_ok l0 (set_inner s n sub).
Proof. intros H. exact H. Qed.

Lemma agree_other_name (s s' : level) (e e' : node) (n : str) :
  In e l0 -> In e' l0 -> e' <> e ->
  (forall m, m <> name_of e -> moved s' m = moved s m) ->
  (forall m, m <> name_of e -> turned s' m = turned s m) ->
  (forall m, m <> name_of e -> inner s' m = inner s m) ->
  agree s s' e'.
Proof.
  intros He He' Hne H1 H2 H3.
  assert (name_of e' <> name_of e).
  { intros E. apply Hne. apply same_name; auto. }
  unfold agree. auto.
Qed.

Hypothesis Hsub :
  forall n i sub, In (Dir n i sub) l0 -> shown_dir (Dir n i sub) = true ->
                  good sub.

Lemma planned_file_not_shown_dir (e : node) :
  planned_file e = true -> shown_dir e = false.
Proof.
  intros H. destruct (shown_dir e) eqn:E; [|reflexivity].
  apply planned_file_not_dir in H. apply shown_dir_isdir in E. congruence.
Qed.

Lemma logs_nonempty (sub : list node) (it : citem) :
  good sub -> In it (logs sub) -> fst it <> [] /\ snd it <> [].
Proof.
  intros [H _] Hit.
  pose proof (run_log_from_plan _ _ _ _ H it Hit) as Hs.
  destruct (walk_nonempty _ _ Hs) as [H1 H2]. cbn [swap fst snd] in *.
  auto.
Qed.

Lemma gpass_step (e : node) (s : level) :
  In e l0 -> taken_ok l0 s -> stage_ok never never entries_of s e ->
  run (walk_gathered walk_dir e) (cur l0 s)
  = Some (cur l0 (gstep l0 e s), glog e)
  /\ taken_ok l0 (gstep l0 e s)
  /\ stage_ok (moves l0) never inner_after (gstep l0 e s) e
  /\ (forall e', In e' l0 -> e' <> e -> agree s (gstep l0 e s) e').
Proof.
  intros He Ht [Sm [St Si]]. unfold never in *. unfold glog.
  destruct (planned_file e) eqn:Ef.
  - rewrite (walk_gathered_file e Ef), run_single. cbn [own_item fst snd].
    rewrite (step_file_fwd s e He Ef Sm (proj2 Ht)).
    unfold gstep. rewrite Ef. destruct (twin l0 e) eqn:Tw.
    + split; [reflexivity|]. split; [exact Ht|]. split.
      * unfold stage_ok, moves, inner_after.
        rewrite Ef, Tw, (planned_file_not_shown_dir e Ef). auto.
      * intros. apply agree_refl.
    + split; [reflexivity|]. split; [apply taken_ok_moved_true; auto|].
      split.
      * unfold stage_ok, moves, inner_after.
        rewrite Ef, Tw, (planned_file_not_shown_dir e Ef).
        cbn [set_taken set_moved moved turned inner negb andb].
        rewrite with_name_same. auto.
      * intros e' He' Hne.
        apply (agree_other_name s _ e e' (name_of e)); auto.
        intros m Hm. cbn [set_taken set_moved moved].
        apply with_name_other. exact Hm.
  - unfold gstep. rewrite Ef.
    destruct (shown_dir e) eqn:Ed.
    + destruct e as [n i|n i|n i sub];
        try (unfold shown_dir in Ed; cbn [isdir] in Ed;
             rewrite andb_false_r in Ed; discriminate Ed).
      cbn [name_of entries_of] in *.
      pose proof (Hsub n i sub He Ed) as Hg.
      rewrite (walk_gathered_dir n i sub Ed).
      rewrite (step_sub s n i sub (walk sub) He Ed St (walk_nonempty sub)).
      rewrite Si, (proj1 Hg).
      split; [reflexivity|]. split; [exact Ht|]. split.
      * unfold stage_ok, moves, inner_after. rewrite Ef, Ed.
        cbn [set_inner moved turned inner name_of entries_of andb].
        rewrite with_inner_same. auto.
      * intros e' He' Hne.
        apply (agree_other_name s _ (Dir n i sub) e' n); auto.
        intros m Hm. cbn [set_inner inner]. apply with_inner_other.
        exact Hm.
    + rewrite (walk_gathered_none e Ef Ed). cbn [run].
      split; [reflexivity|]. split; [exact Ht|]. split.
      * unfold stage_ok, moves, inner_after. rewrite Ef, Ed. auto.
      * intros. apply agree_refl.
Qed.

Lemma opass_step (e : node) (s : level) :
  In e l0 -> taken_ok l0 s -> stage_ok (moves l0) never inner_after s e ->
  run (walk_own e) (cur l0 s) = Some (cur l0 (ostep l0 e s), olog l0 e)
  /\ taken_ok l0 (ostep l0 e s)
  /\ stage_ok (moves l0) (turns l0) inner_after (ostep l0 e s) e
  /\ (forall e', In e' l0 -> e' <> e -> agree s (ostep l0 e s) e').
Proof.
  intros He Ht [Sm [St Si]]. unfold never in *.
  unfold ostep, olog, walk_own. fold (shown_dir e).
  destruct (shown_dir e) eqn:Ed.
  - rewrite run_single. cbn [own_item fst snd].
    rewrite (step_dir_fwd s e He Ed St (proj2 Ht)).
    unfold stage_ok, turns. rewrite Ed.
    destruct (blocked l0 e) eqn:B; cbn [negb andb].
    + split; [reflexivity|]. split; [exact Ht|]. split.
      * auto.
      * intros. apply agree_refl.
    + split; [reflexivity|]. split; [exact Ht|]. split.
      * cbn [set_turned moved turned inner].
        rewrite with_name_same. auto.
      * intros e' He' Hne.
        apply (agree_other_name s _ e e' (name_of e)); auto.
        intros m Hm. cbn [set_turned turned]. apply with_name_other.
        exact Hm.
  - unfold stage_ok, turns. rewrite Ed. cbn [andb run].
    split; [reflexivity|]. split; [exact Ht|]. split.
    + auto.
    + intros. apply agree_refl.
Qed.

Lemma uopass_step (e : node) (s : level) :
  In e l0 -> taken_ok l0 s ->
  stage_ok (moves l0) (turns l0) inner_after s e ->
  run (uofrag l0 e) (cur l0 s) = Some (cur l0 (uostep l0 e s), uolog l0 e)
  /\ taken_ok l0 (uostep l0 e s)
  /\ stage_ok (moves l0) never inner_after (uostep l0 e s) e
  /\ (forall e', In e' l0 -> e' <> e -> agree s (uostep l0 e s) e').
Proof.
  intros He Ht [Sm [St Si]]. unfold uostep, uofrag, uolog, never.
  destruct (turns l0 e) eqn:Et.
  - unfold turns in Et. apply andb_true_iff in Et. destruct Et as [Ed B].
    apply negb_true_iff in B.
    rewrite run_single. cbn [swap own_item fst snd].
    rewrite (step_dir_bwd s e He Ed St B).
    split; [reflexivity|]. split; [exact Ht|]. split.
    + unfold stage_ok. cbn [set_turned moved turned inner].
      rewrite with_name_same. auto.
    + intros e' He' Hne.
      apply (agree_other_name s _ e e' (name_of e)); auto.
      intros m Hm. cbn [set_turned turned]. apply with_name_other.
      exact Hm.
  - cbn [run]. split; [reflexivity|]. split; [exact Ht|]. split.
    + unfold stage_ok. auto.
    + intros. apply agree_refl.
Qed.

Lemma ugpass_step (e : node) (s : level) :
  In e l0 -> taken_ok l0 s -> stage_ok (moves l0) never inner_after s e ->
  run (ugfrag e) (cur l0 s) = Some (cur l0 (ugstep l0 e s), uglog e)
  /\ taken_ok l0 (ugstep l0 e s)
  /\ stage_ok never never inner_back (ugstep l0 e s) e
  /\ (forall e', In e' l0 -> e' <> e -> agree s (ugstep l0 e s) e').
Proof.
  intros He Ht [Sm [St Si]]. unfold never in *.
  unfold ugstep, ugfrag, uglog, glog, moves in *.
  destruct (planned_file e) eqn:Ef.
  - cbn [rev app]. rewrite run_single. cbn [swap own_item fst snd].
    destruct (twin l0 e) eqn:Tw; cbn [andb negb] in Sm.
    + rewrite (step_file_bwd_twin s e He Ef Sm Tw (proj2 Ht)).
      split; [reflexivity|]. split; [exact Ht|]. split.
      * unfold stage_ok, inner_back, inner_after in *.
        rewrite (planned_file_not_shown_dir e Ef) in *. auto.
      * intros. apply agree_refl.
    + rewrite (step_file_bwd s e He Ef Sm (proj1 Ht e He Ef Sm)).
      split; [reflexivity|]. split; [apply taken_ok_moved_false; exact Ht|].
      split.
      * unfold stage_ok, inner_back, inner_after in *.
        rewrite (planned_file_not_shown_dir e Ef) in *.
        cbn [set_moved moved turned inner]. rewrite with_name_same. auto.
      * intros e' He' Hne.
        apply (agree_other_name s _ e e' (name_of e)); auto.
        intros m Hm. cbn [set_moved moved]. apply with_name_other. exact Hm.
  - destruct (shown_dir e) eqn:Ed.
    + destruct e as [n i|n i|n i sub];
        try (unfold shown_dir in Ed; cbn [isdir] in Ed;
             rewrite andb_false_r in Ed; discriminate Ed).
      cbn [name_of entries_of] in *.
      pose proof (Hsub n i sub He Ed) as Hg.
      rewrite <- map_rev.
      rewrite (step_sub s n i sub (rev (logs sub)) He Ed St).
      * unfold inner_after in Si. rewrite Ed in Si. cbn [entries_of] in Si.
        rewrite Si, (proj1 (proj2 Hg)).
        split; [reflexivity|]. split; [exact Ht|]. split.
        -- unfold stage_ok, inner_back. rewrite Ed.
           cbn [set_inner moved turned inner name_of entries_of].
           rewrite with_inner_same. auto.
        -- intros e' He' Hne.
           apply (agree_other_name s _ (Dir n i sub) e' n); auto.
           intros m Hm. cbn [set_inner inner]. apply with_inner_other.
           exact Hm.
      * intros it Hit. apply in_rev in Hit.
        exact (logs_nonempty sub it Hg Hit).
    + cbn [rev run]. split; [reflexivity|]. split; [exact Ht|]. split.
      * unfold stage_ok, inner_back, inner_after in *. rewrite Ed in *.
        auto.
      * intros. apply agree_refl.
Qed.

Lemma find_orig (x : node) : In x l0 -> find (named (name_of x)) l0 = Some x.
Proof.
  intros Hx. apply find_named_unique; auto.
  - apply str_eqb_refl.
  - intros e He Hn. apply named_eq in Hn. apply same_name; auto.
Qed.

Lemma level0_cur : cur l0 (level0 l0) = l0.
Proof.
  unfold cur. transitivity (flat_map (fun x : node => [x]) l0);
    [|apply flat_map_single].
  apply flat_map_ext_in. intros x Hx. unfold show.
  cbn [level0 moved turned taken inner]. rewrite (find_orig x Hx).
  rewrite set_entries_same, set_name_same.
  destruct (planned_file x), (shown_dir x); reflexivity.
Qed.

Lemma level0_ok :
  taken_ok l0 (level0 l0)
  /\ (forall e, In e l0 -> stage_ok never never entries_of (level0 l0) e).
Proof.
  split; [split|].
  - intros f _ _ H. discriminate H.
  - intros m H. discriminate H.
  - intros e He. unfold stage_ok, never. cbn [level0 moved turned inner].
    rewrite (find_orig e He). auto.
Qed.

Lemma NoDup_l0 : NoDup l0.
Proof.
  apply (NoDup_map_inv' name_of). apply distinct_NoDup.
  apply wf_listing_inv in Hwf. tauto.
Qed.

Lemma cur_find_orig (s : level) (x x' : node) :
  In x l0 -> planned x = true -> show s x = [x'] ->
  name_of x' = name_of x ->
  find (named (name_of x)) (cur l0 s) = Some x'.
Proof.
  intros Hx Px Hs Hn. apply (cur_find_at s x); auto.
  - rewrite Hs. left. reflexivity.
  - intros z z' Hz Hz' E. exact (who_orig s x z z' Hx Px Hz Hz' E).
Qed.

(** The run of the plan of the directory and its undo. *)
Lemma level_runs :
  exists s2 s4,
    run (walk l0) l0
    = Some (cur l0 s2, flat_map glog l0 ++ flat_map (olog l0) l0)
    /\ run (rev (flat_map glog l0 ++ flat_map (olog l0) l0)) (cur l0 s2)
       = Some (cur l0 s4,
               flat_map (uolog l0) (rev l0) ++ flat_map uglog (rev l0))
    /\ (forall e, In e l0 -> stage_ok never never inner_back s4 e).
Proof.
  destruct level0_ok as [Ht0 Hs0].
  destruct (pass _ _ _ _ _ _ _ _ _ gpass_step l0 (level0 l0))
    as [s1 [R1 [Ht1 [Hs1 _]]]]; auto using NoDup_l0.
  destruct (pass _ _ _ _ _ _ _ _ _ opass_step l0 s1)
    as [s2 [R2 [Ht2 [Hs2 _]]]]; auto using NoDup_l0.
  assert (Hrev : forall e, In e (rev l0) -> In e l0)
    by (intros e He; apply in_rev; exact He).
  assert (Hnd : NoDup (rev l0)) by (apply NoDup_rev; exact NoDup_l0).
  destruct (pass _ _ _ _ _ _ _ _ _ uopass_step (rev l0) s2)
    as [s3 [R3 [Ht3 [Hs3 _]]]]; auto.
  destruct (pass _ _ _ _ _ _ _ _ _ ugpass_step (rev l0) s3)
    as [s4 [R4 [Ht4 [Hs4 _]]]]; auto.
  exists s2, s4. split; [|split].
  - rewrite walk_flat, run_app. rewrite level0_cur in R1. rewrite R1, R2.
    reflexivity.
  - rewrite rev_app_distr, !rev_flat_map, run_app.
    assert (E1 : flat_map (fun x => rev (olog l0 x)) (rev l0)
                 = flat_map (uofrag l0) (rev l0)).
    { apply flat_map_ext_in. intros e _. unfold olog, uofrag.
      destruct (turns l0 e); reflexivity. }
    rewrite E1, R3. fold ugfrag.
    change (fun x => rev (glog x)) with ugfrag. rewrite R4. reflexivity.
  - intros e He. apply Hs4. apply in_rev. rewrite rev_involutive. exact He.
Qed.

Lemma level_good : good l0.
Proof.
  destruct level_runs as [s2 [s4 [R1 [R2 Hs4]]]].
  assert (Ea : after l0 = cur l0 s2) by (unfold after; rewrite R1; reflexivity).
  assert (El : logs l0 = flat_map glog l0 ++ flat_map (olog l0) l0)
    by (unfold logs; rewrite R1; reflexivity).
  assert (Eb : back l0 = cur l0 s4)
    by (unfold back; rewrite El, Ea, R2; reflexivity).
  assert (Er : relog l0
               = flat_map (uolog l0) (rev l0) ++ flat_map uglog (rev l0))
    by (unfold relog; rewrite El, Ea, R2; reflexivity).
  split; [rewrite Ea, El; exact R1|].
  split; [rewrite Ea, El, Eb, Er; exact R2|].
  rewrite El, Eb.
  assert (Hown : forall e, In e l0 -> planned e = true ->
            exists i, idc l0 [name_of e] = Some i
                      /\ idc (cur l0 s4) [name_of e] = Some i).
  { intros e He Pe. exists (id_of e). rewrite !idc_single, (find_orig e He).
    split; [reflexivity|]. destruct (Hs4 e He) as [Sm [St Si]].
    unfold never in *.
    destruct (planned_cases e Pe) as [_ [[Ef _]|[_ [Ed _]]]].
    - rewrite (cur_find_orig s4 e e He Pe); [reflexivity| |reflexivity].
      rewrite (show_planned_file s4 e Ef), Sm. reflexivity.
    - rewrite (cur_find_orig s4 e _ He Pe (show_shown_dir s4 e Ed)).
      + cbn [option_map]. rewrite id_of_set_name, id_of_set_entries.
        reflexivity.
      + rewrite St. apply name_of_set_name. }
  intros it Hit. apply in_app_or in Hit. destruct Hit as [Hit|Hit];
    apply in_flat_map in Hit; destruct Hit as [e [He Hit]].
  - unfold glog in Hit. destruct (planned_file e) eqn:Ef.
    + destruct Hit as [Hit|[]]. subst it. cbn [swap own_item fst snd].
      apply Hown; auto using planned_file_planned.
    + destruct (shown_dir e) eqn:Ed; [|destruct Hit].
      destruct e as [n i|n i|n i sub];
        try (unfold shown_dir in Ed; cbn [isdir] in Ed;
             rewrite andb_false_r in Ed; discriminate Ed).
      cbn [name_of entries_of] in Hit. apply in_map_iff in Hit.
      destruct Hit as [it' [E Hit']]. subst it. cbn [push snd].
      pose proof (Hsub n i sub He Ed) as Hg.
      destruct (logs_nonempty sub it' Hg Hit') as [_ Hne].
      destruct (proj2 (proj2 Hg) it' Hit') as [j [H1 H2]].
      exists j. rewrite !(idc_cons _ n _ Hne).
      pose proof (find_orig (Dir n i sub) He) as Hfo.
      cbn [name_of] in Hfo. rewrite Hfo.
      destruct (Hs4 _ He) as [Sm [St Si]]. unfold never in *.
      pose proof (show_shown_dir s4 _ Ed) as Hsh.
      cbn [name_of] in Hsh, St, Si. rewrite St, Si in Hsh.
      unfold inner_back in Hsh. rewrite Ed in Hsh.
      cbn [entries_of set_entries set_name] in Hsh.
      pose proof (cur_find_orig s4 (Dir n i sub) _ He
                    (shown_dir_planned _ Ed) Hsh eq_refl) as Hfc.
      cbn [name_of] in Hfc. rewrite Hfc. auto.
  - unfold olog in Hit. destruct (turns l0 e) eqn:Et; [|destruct Hit].
    destruct Hit as [Hit|[]]. subst it. cbn [swap own_item fst snd].
    apply Hown; auto. unfold turns in Et. apply andb_true_iff in Et.
    apply shown_dir_planned. tauto.
Qed.

(** The same run, with the state of the directory after the run and what
    holds of the names taken over. *)
Lemma level_runs_taken :
  exists s2 s4,
    run (walk l0) l0
    = Some (cur l0 s2, flat_map glog l0 ++ flat_map (olog l0) l0)
    /\ run (rev (flat_map glog l0 ++ flat_map (olog l0) l0)) (cur l0 s2)
       = Some (cur l0 s4,
               flat_map (uolog l0) (rev l0) ++ flat_map uglog (rev l0))
    /\ (forall e, In e l0 -> stage_ok never never inner_back s4 e)
    /\ taken_ok l0 s4
    /\ (forall e, In e l0 ->
          stage_ok (moves l0) (turns l0) inner_after s2 e)
    /\ taken_ok l0 s2.
Proof.
  destruct level0_ok as [Ht0 Hs0].
  destruct (pass _ _ _ _ _ _ _ _ _ gpass_step l0 (level0 l0))
    as [s1 [R1 [Ht1 [Hs1 _]]]]; auto using NoDup_l0.
  destruct (pass _ _ _ _ _ _ _ _ _ opass_step l0 s1)
    as [s2 [R2 [Ht2 [Hs2 _]]]]; auto using NoDup_l0.
  assert (Hrev : forall e, In e (rev l0) -> In e l0)
    by (intros e He; apply in_rev; exact He).
  assert (Hnd : NoDup (rev l0)) by (apply NoDup_rev; exact NoDup_l0).
  destruct (pass _ _ _ _ _ _ _ _ _ uopass_step (rev l0) s2)
    as [s3 [R3 [Ht3 [Hs3 _]]]]; auto.
  destruct (pass _ _ _ _ _ _ _ _ _ ugpass_step (rev l0) s3)
    as [s4 [R4 [Ht4 [Hs4 _]]]]; auto.
  exists s2, s4. split; [|split; [|split; [|split; [|split]]]].
  - rewrite walk_flat, run_app. rewrite level0_cur in R1. rewrite R1, R2.
    reflexivity.
  - rewrite rev_app_distr, !rev_flat_map, run_app.
    assert (E1 : flat_map (fun x => rev (olog l0 x)) (rev l0)
                 = flat_map (uofrag l0) (rev l0)).
    { apply flat_map_ext_in. intros e _. unfold olog, uofrag.
      destruct (turns l0 e); reflexivity. }
    rewrite E1, R3. fold ugfrag.
    change (fun x => rev (glog x)) with ugfrag. rewrite R4. reflexivity.
  - intros e He. apply Hs4. apply in_rev. rewrite rev_involutive. exact He.
  - exact Ht4.
  - exact Hs2.
  - exact Ht2.
Qed.

Lemma normalised_planned_file (x : node) :
  planned_file x = true ->
  normalised x = set_name (get_new_name (name_of x)) x.
Proof.
  intros Ef. destruct x as [n i|n i|n i sub].
  - unfold planned_file in Ef. cbn [isdir negb name_of] in Ef.
    rewrite andb_true_r in Ef. cbn [normalised]. rewrite Ef. reflexivity.
  - unfold planned_file, shown in Ef. cbn [islink negb] in Ef.
    rewrite andb_false_r in Ef. discriminate Ef.
  - apply planned_file_not_dir in Ef. discriminate Ef.
Qed.

Lemma normalised_unplanned (x : node) :
  planned_file x = false -> shown_dir x = false -> normalised x = x.
Proof.
  intros Ef Ed. destruct x as [n i|n i|n i sub].
  - unfold planned_file in Ef. cbn [isdir negb name_of] in Ef.
    rewrite andb_true_r in Ef. cbn [normalised]. rewrite Ef. reflexivity.
  - reflexivity.
  - unfold shown_dir in Ed. cbn [isdir] in Ed. rewrite andb_true_r in Ed.
    cbn [normalised]. rewrite Ed. reflexivity.
Qed.

Lemma flat_map_one {A B : Type} (f : A -> B) (l : list A) :
  flat_map (fun x => [f x]) l = map f l.
Proof.
  induction l as [|a l IH]; [reflexivity|].
  cbn [flat_map map app]. rewrite IH. reflexivity.
Qed.

(** When no new name is the name of an entry the walker leaves alone, every
    item is renamed, the directory is left normalised, and the undo gives
    it back as it was. *)
Hypothesis Hfree :
  forall f y, In f l0 -> In y l0 -> planned f = true -> planned y = false ->
              get_new_name (name_of f) <> name_of y.

Hypothesis Hclean :
  forall n i sub, In (Dir n i sub) l0 -> shown_dir (Dir n i sub) = true ->
                  back sub = sub /\ logs sub = map swap (walk sub)
                  /\ after sub = map normalised sub.

Lemma never_blocked (e : node) :
  In e l0 -> shown_dir e = true -> blocked l0 e = false.
Proof.
  intros He Ed. destruct (blocked l0 e) eqn:B; [|reflexivity]. exfalso.
  destruct (blocked_inv e B) as [y [Hy [Py Ey]]].
  apply (Hfree e y He Hy (shown_dir_planned e Ed) Py). symmetry. exact Ey.
Qed.

Lemma never_taken (s : level) (x : node) :
  taken_ok l0 s -> In x l0 -> planned_file x = false ->
  shown_dir x = false -> taken s (name_of x) = false.
Proof.
  intros [_ J] Hx Ef Ed. destruct (taken s (name_of x)) eqn:Et;
    [|reflexivity]. exfalso.
  destruct (J _ Et) as [f [Hf [Pf [Ef' _]]]].
  apply (Hfree f x Hf Hx (planned_file_planned f Pf)); [|exact Ef'].
  unfold planned. rewrite Ef, Ed. reflexivity.
Qed.

Lemma never_twin (x : node) :
  In x l0 -> planned_file x = true -> twin l0 x = false.
Proof.
  intros Hx Ef. destruct (twin l0 x) eqn:Tw; [|reflexivity]. exfalso.
  destruct (twin_inv x Tw) as [y [Hy [Py [E _]]]].
  apply (Hfree x y Hx Hy (planned_file_planned x Ef) Py). symmetry. exact E.
Qed.

Lemma level_clean :
  back l0 = l0 /\ logs l0 = map swap (walk l0)
  /\ after l0 = map normalised l0.
Proof.
  destruct level_runs_taken as [s2 [s4 [R1 [R2 [Hs4 [Ht4 [Hs2 Ht2]]]]]]].
  assert (Ea : after l0 = cur l0 s2) by (unfold after; rewrite R1; reflexivity).
  assert (El : logs l0 = flat_map glog l0 ++ flat_map (olog l0) l0)
    by (unfold logs; rewrite R1; reflexivity).
  assert (Eb : back l0 = cur l0 s4)
    by (unfold back; rewrite El, Ea, R2; reflexivity).
  split; [|split].
  - rewrite Eb. unfold cur.
    transitivity (flat_map (fun x : node => [x]) l0);
      [|apply flat_map_single].
    apply flat_map_ext_in. intros x Hx.
    destruct (Hs4 x Hx) as [Sm [St Si]]. unfold never in Sm, St.
    unfold show. cbv zeta. rewrite Sm, St, Si.
    destruct (planned_file x) eqn:Ef; [reflexivity|].
    destruct (shown_dir x) eqn:Ed.
    + unfold inner_back. rewrite Ed.
      destruct x as [n i|n i|n i sub];
        try (unfold shown_dir in Ed; cbn [isdir] in Ed;
             rewrite andb_false_r in Ed; discriminate Ed).
      cbn [name_of entries_of]. rewrite (proj1 (Hclean n i sub Hx Ed)).
      reflexivity.
    + rewrite (never_taken s4 x Ht4 Hx Ef Ed). reflexivity.
  - rewrite El, walk_flat, map_app, !map_flat_map. f_equal;
      apply flat_map_ext_in; intros e He.
    + unfold glog. destruct (planned_file e) eqn:Ef.
      * rewrite (walk_gathered_file e Ef). reflexivity.
      * destruct (shown_dir e) eqn:Ed.
        -- destruct e as [n i|n i|n i sub];
             try (unfold shown_dir in Ed; cbn [isdir] in Ed;
                  rewrite andb_false_r in Ed; discriminate Ed).
           rewrite (walk_gathered_dir n i sub Ed).
           cbn [name_of entries_of].
           rewrite (proj1 (proj2 (Hclean n i sub He Ed))).
           rewrite !map_map. apply map_ext. intros it. reflexivity.
        -- rewrite (walk_gathered_none e Ef Ed). reflexivity.
    + unfold olog, turns, walk_own. fold (shown_dir e).
      destruct (shown_dir e) eqn:Ed; [|reflexivity]. cbn [andb].
      rewrite (never_blocked e He Ed). reflexivity.
  - rewrite Ea. unfold cur. rewrite <- flat_map_one.
    apply flat_map_ext_in. intros x Hx.
    destruct (Hs2 x Hx) as [Sm [St Si]].
    unfold show. cbv zeta. rewrite Sm, St, Si. unfold moves.
    destruct (planned_file x) eqn:Ef.
    + rewrite (never_twin x Hx Ef), (normalised_planned_file x Ef).
      reflexivity.
    + destruct (shown_dir x) eqn:Ed.
      * unfold turns, inner_after. rewrite Ed, (never_blocked x Hx Ed).
        cbn [andb negb].
        destruct x as [n i|n i|n i sub];
          try (unfold shown_dir in Ed; cbn [isdir] in Ed;
               rewrite andb_false_r in Ed; discriminate Ed).
        cbn [name_of entries_of set_entries set_name].
        rewrite (proj2 (proj2 (Hclean n i sub Hx Ed))).
        unfold shown_dir in Ed. cbn [isdir] in Ed.
        rewrite andb_true_r in Ed. cbn [normalised]. rewrite Ed.
        reflexivity.
      * rewrite (never_taken s2 x Ht2 Hx Ef Ed).
        rewrite (normalised_unplanned x Ef Ed). reflexivity.
Qed.

End Level.

(* ================================================================= *)
(** ** The whole tree *)

Lemma planned_in_walk (l : list node) (x : node) :
  In x l -> planned x = true -> In (own_item x) (walk l).
Proof.
  intros Hx Px. rewrite walk_flat. apply in_or_app.
  destruct (planned_cases x Px) as [_ [[Ef _]|[_ [Ed _]]]].
  - left. apply in_flat_map. exists x. split; [exact Hx|].
    rewrite (walk_gathered_file x Ef). left. reflexivity.
  - right. apply in_flat_map. exists x. split; [exact Hx|].
    unfold walk_own. fold (shown_dir x). rewrite Ed. left. reflexivity.
Qed.

Lemma walk_apart (l : list node) :
  wf_listing l = true -> NoDup (map snd (walk l)) ->
  forall x z, In x l -> In z l -> planned x = true -> planned z = true ->
              get_new_name (name_of x) = get_new_name (name_of z) -> x = z.
Proof.
  intros Hwf Hnd x z Hx Hz Px Pz E.
  assert (Ho : own_item x = own_item z).
  { apply (NoDup_map_eq snd (walk l)); auto using planned_in_walk.
    cbn [own_item snd]. rewrite E. reflexivity. }
  apply (wf_same_name l); auto. injection Ho as Ho _. exact Ho.
Qed.

Lemma walk_sub_NoDup (l : list node) (n : str) (i : nat) (sub : list node) :
  In (Dir n i sub) l -> shown_dir (Dir n i sub) = true ->
  NoDup (map snd (walk l)) -> NoDup (map snd (walk sub)).
Proof.
  intros Hin Ed Hnd. apply in_split in Hin. destruct Hin as [l1 [l2 El]].
  subst l. rewrite walk_flat, flat_map_app in Hnd. cbn [flat_map] in Hnd.
  rewrite (walk_gathered_dir n i sub Ed) in Hnd.
  rewrite !map_app in Hnd.
  rewrite <- !app_assoc in Hnd.
  apply NoDup_app_remove_l in Hnd. apply NoDup_app_remove_r in Hnd.
  apply (NoDup_map_inv' (cons n)). rewrite map_map in *. exact Hnd.
Qed.

(** On a well-formed tree whose plan has distinct destinations, the run and
    its undo go through and put every logged entry back. *)
Lemma tree_good (l : list node) :
  wf_listing l = true -> NoDup (map snd (walk l)) -> good l.
Proof.
  induction l as [l IH] using listing_ind. intros Hwf Hnd.
  apply (level_good l Hwf (walk_apart l Hwf Hnd)).
  intros n i sub Hin Ed. apply (IH n i sub Hin).
  - exact (proj2 (wf_listing_sub _ _ _ _ Hwf Hin)).
  - exact (walk_sub_NoDup l n i sub Hin Ed Hnd).
Qed.

Lemma walk_snd_valid (l : list node) :
  wf_listing l = true ->
  forall it, In it (walk l) -> snd it <> [] /\ Forall no_sep (snd it).
Proof.
  induction l as [l IH] using listing_ind. intros Hwf it Hit.
  split; [exact (proj2 (walk_nonempty l it Hit))|].
  destruct (walk_item_cases l it Hit)
    as [e [He [Hs [[_ [_ E]]|[[_ E]|[n [i [sub [it' [Ee [Hit' E]]]]]]]]]]];
    subst it.
  - cbn [own_item snd]. constructor; [|constructor].
    apply get_new_name_no_sep.
    pose proof (wf_node_valid _ (wf_listing_in _ _ Hwf He)) as Hv.
    apply valid_name_inv in Hv. tauto.
  - cbn [own_item snd]. constructor; [|constructor].
    apply get_new_name_no_sep.
    pose proof (wf_node_valid _ (wf_listing_in _ _ Hwf He)) as Hv.
    apply valid_name_inv in Hv. tauto.
  - subst e. destruct (wf_listing_sub _ _ _ _ Hwf He) as [Hv Hsub].
    cbn [push snd]. constructor.
    + apply valid_name_inv in Hv. unfold no_sep. tauto.
    + exact (proj2 (IH n i sub He Hsub it' Hit')).
Qed.

Lemma walk_sound (l : list node) (it : citem) :
  wf_listing l = true -> In it (walk l) -> sound it.
Proof.
  intros Hwf Hit. split.
  - exact (walk_fst_valid l it Hwf Hit).
  - exact (walk_snd_valid l Hwf it Hit).
Qed.

Lemma sound_swap (it : citem) : sound (swap it) -> sound it.
Proof. unfold sound, swap. cbn [fst snd]. tauto. Qed.

(* ================================================================= *)
(** ** From chains back to the programs *)

Lemma rename_all_run (R : str) (cplan : list citem) :
  (forall it, In it cplan -> sound it) ->
  forall (w : world) (log : list item) (width : nat) (l' : list node)
         (g : list citem),
    mount w = R -> run cplan (disk w) = Some (l', g) ->
    exists w',
      rename_all (map (to_paths R) cplan) false log width w
      = (Returns (log ++ map (to_paths R) g), w')
      /\ disk w' = l' /\ mount w' = R /\ log_file w' = log_file w.
Proof.
  induction cplan as [|it cplan IH]; intros Hs w log width l' g Hm Hr.
  - cbn [run] in Hr. injection Hr as ? ?. subst l' g. exists w.
    cbn [map rename_all ret]. rewrite app_nil_r. auto.
  - destruct (Hs it (or_introl eq_refl)) as [[H1 F1] [H2 F2]].
    assert (Hs' : forall it0, In it0 cplan -> sound it0)
      by (intros it0 H0; apply Hs; right; exact H0).
    cbn [map rename_all to_paths]. unfold bind at 1.
    rewrite rename_entry_wet, Hm, (os_rename_chains R _ _ _ H1 H2 F1 F2).
    cbn [run] in Hr. destruct (rename_path (disk w) (fst it) (snd it))
      as [l1| |].
    + destruct (run cplan l1) as [[l2 g2]|] eqn:E; [|discriminate Hr].
      injection Hr as ? ?. subst l' g.
      match goal with |- context [rename_all _ false ?lg width ?w1] =>
        destruct (IH Hs' w1 lg width l2 g2 eq_refl E)
          as [w' [Hw [Hd [Hm' Hl]]]] end.
      exists w'. rewrite Hw. cbn [map to_paths swap fst snd].
      rewrite <- app_assoc. auto.
    + match goal with |- context [rename_all _ false ?lg width ?w1] =>
        destruct (IH Hs' w1 lg width l' g eq_refl Hr)
          as [w' [Hw [Hd [Hm' Hl]]]] end.
      exists w'. rewrite Hw. auto.
    + discriminate Hr.
Qed.

Lemma undo_all_run (R : str) (rplan : list citem) :
  (forall it, In it rplan -> sound it) ->
  forall (w : world) (width : nat) (l' : list node) (g : list citem),
    mount w = R -> run rplan (disk w) = Some (l', g) ->
    exists w',
      undo_all (map (to_paths R) rplan) width w = (Returns tt, w')
      /\ disk w' = l' /\ mount w' = R.
Proof.
  induction rplan as [|it rplan IH]; intros Hs w width l' g Hm Hr.
  - cbn [run] in Hr. injection Hr as ? ?. subst l' g. exists w.
    cbn [map undo_all ret]. auto.
  - destruct (Hs it (or_introl eq_refl)) as [[H1 F1] [H2 F2]].
    assert (Hs' : forall it0, In it0 rplan -> sound it0)
      by (intros it0 H0; apply Hs; right; exact H0).
    cbn [map undo_all to_paths]. unfold bind at 1. unfold try_rename.
    rewrite Hm, (os_rename_chains R _ _ _ H1 H2 F1 F2).
    cbn [run] in Hr. destruct (rename_path (disk w) (fst it) (snd it))
      as [l1| |].
    + destruct (run rplan l1) as [[l2 g2]|] eqn:E; [|discriminate Hr].
      injection Hr as ? ?. subst l' g.
      unfold bind at 1. unfold logging at 1.
      match goal with |- context [undo_all _ width ?w1] =>
        destruct (IH Hs' w1 width l2 g2 eq_refl E) as [w' [Hw [Hd Hm']]] end.
      exists w'. rewrite Hw. auto.
    + unfold bind at 1. unfold logging at 1.
      match goal with |- context [undo_all _ width ?w1] =>
        destruct (IH Hs' w1 width l' g eq_refl Hr) as [w' [Hw [Hd Hm']]] end.
      exists w'. rewrite Hw. auto.
    + discriminate Hr.
Qed.

Lemma undo_renames_run (R : str) (g : list citem) :
  (forall it, In it g -> sound it) ->
  forall (w : world) (l' : list node) (g' : list citem),
    mount w = R -> run (rev g) (disk w) = Some (l', g') ->
    exists w',
      undo_renames (map (to_paths R) g) w = (Returns tt, w')
      /\ disk w' = l'.
Proof.
  intros Hs w l' g' Hm Hr. unfold undo_renames.
  destruct g as [|it g].
  - cbn [rev run] in Hr. injection Hr as ? ?. subst l' g'.
    cbn [map py_max]. unfold logging. eexists. split; reflexivity.
  - set (lg := map (to_paths R) (it :: g)).
    destruct (py_max _) as [width|] eqn:E; [|discriminate E].
    unfold lg. rewrite <- map_rev.
    destruct (undo_all_run R (rev (it :: g))
                ltac:(intros it0 H0; apply Hs; apply in_rev; exact H0)
                w width l' g' Hm Hr) as [w' [Hw [Hd _]]].
    exists w'. auto.
Qed.

Lemma walk_NoDup (R : str) (l : list node) :
  wf_listing l = true ->
  NoDup (map snd (collect_renames R l)) -> NoDup (map snd (walk l)).
Proof.
  intros Hwf Hnd. rewrite (collect_walk R l Hwf), map_map in Hnd.
  apply (NoDup_map_inv' (path R)). rewrite map_map. exact Hnd.
Qed.

Lemma logs_sound (l : list node) (it : citem) :
  wf_listing l = true -> run (walk l) l = Some (after l, logs l) ->
  In it (logs l) -> sound it.
Proof.
  intros Hwf Hr Hit. apply sound_swap. apply (walk_sound l _ Hwf).
  exact (run_log_from_plan _ _ _ _ Hr it Hit).
Qed.

(** The loop of [rename_recursively] followed by [undo_renames], for any
    column width. *)
Lemma rename_all_then_undo (w : world) (width : nat) :
  wf_listing (disk w) = true ->
  NoDup (map snd (collect_renames (mount w) (disk w))) ->
  exists (log : list item) (w1 w2 : world),
    rename_all (collect_renames (mount w) (disk w)) false [] width w
    = (Returns log, w1)
    /\ undo_renames log w1 = (Returns tt, w2)
    /\ restored (mount w) (disk w) (disk w2) log.
Proof.
  intros Hwf Hnd. set (R := mount w). set (l := disk w).
  destruct (tree_good l Hwf (walk_NoDup R l Hwf Hnd)) as [Hrun [Hundo Hids]].
  destruct (rename_all_run R (walk l) (fun it => walk_sound l it Hwf)
              w [] width (after l) (logs l) eq_refl Hrun)
    as [w1 [H1 [Hd1 [Hm1 _]]]].
  assert (Hundo' : run (rev (logs l)) (disk w1) = Some (back l, relog l))
    by (rewrite Hd1; exact Hundo).
  destruct (undo_renames_run R (logs l)
              (fun it => logs_sound l it Hwf Hrun)
              w1 (back l) (relog l) Hm1 Hundo')
    as [w2 [H2 Hd2]].
  exists (map (to_paths R) (logs l)), w1, w2.
  rewrite (collect_walk R l Hwf). split; [exact H1|]. split; [exact H2|].
  intros new_path old_path Hin. apply in_map_iff in Hin.
  destruct Hin as [it [E Hit]]. unfold to_paths in E.
  injection E as _ Eo. subst old_path.
  destruct (logs_sound l it Hwf Hrun Hit) as [_ [Hne Hsep]].
  rewrite Hd2, !(id_at_chain R _ _ Hne Hsep). exact (Hids it Hit).
Qed.

(* ================================================================= *)
(** ** Execute, then undo *)



(* ################################################################# *)
(** * Further properties *)

(* ================================================================= *)
(** ** The normalizer *)

Lemma eqb_lower_space (c : ascii) :
  Ascii.eqb (lower_char c) " " = Ascii.eqb c " ".
Proof. each_char c. Qed.

Lemma eqb_lower_underscore (c : ascii) :
  Ascii.eqb (lower_char c) "_" = Ascii.eqb c "_".
Proof. each_char c. Qed.

Lemma tidy_chars (s : str) :
  tidy s = true ->
  forallb (fun c => in_class c || Ascii.eqb c "-") s = true.
Proof.
  induction s as [|c s IH]; [reflexivity|].
  intros H. cbn [forallb]. rewrite (tidy_head _ _ H), (IH (tidy_tail _ _ H)).
  reflexivity.
Qed.

Lemma tidy_no_blank (s : str) :
  tidy s = true -> contains " " s = false /\ contains "_" s = false.
Proof.
  induction s as [|c s IH]; [split; reflexivity|].
  intros H. destruct (IH (tidy_tail _ _ H)) as [H1 H2].
  destruct (tidy_char_ok c (tidy_head _ _ H)) as [Hsp [Hun _]].
  unfold contains in *. cbn [existsb]. rewrite H1, H2.
  rewrite (Ascii.eqb_sym " " c), (Ascii.eqb_sym "_" c), Hsp, Hun.
  split; reflexivity.
Qed.

Lemma should_rename_new_name (name : str) :
  should_rename (get_new_name name)
  = contains " " (snd (splitext name)) || contains "_" (snd (splitext name)).
Proof.
  unfold should_rename.
  rewrite get_new_name_lowered, str_eqb_refl. cbn [negb]. rewrite orb_false_r.
  rewrite get_new_name_split, !contains_app.
  destruct (tidy_no_blank _ (cleaned_tidy (fst (splitext name)))) as [H1 H2].
  rewrite H1, H2. cbn [orb]. unfold lower.
  rewrite (contains_map " " lower_char _ eqb_lower_space).
  rewrite (contains_map "_" lower_char _ eqb_lower_underscore).
  reflexivity.
Qed.

(** X1: the name [get_new_name] returns still asks for renaming exactly when
    the extension of the old name holds a space or an underscore: the
    extension is lowercased and otherwise left alone. *)
Theorem new_name_needs_renaming_iff_extension_blank (name : str) :
  should_rename (get_new_name name)
  = contains " " (snd (splitext name)) || contains "_" (snd (splitext name)).
Proof. apply should_rename_new_name. Qed.

(** X2: a name [should_rename] accepts is changed by [get_new_name], as long
    as its extension holds no space and no underscore. *)
Theorem should_rename_true_changes_name (name : str) :
  should_rename name = true ->
  contains " " (snd (splitext name)) = false ->
  contains "_" (snd (splitext name)) = false ->
  get_new_name name <> name.
Proof.
  intros H H1 H2 E. pose proof (should_rename_new_name name) as Hn.
  rewrite E, H, H1, H2 in Hn. discriminate Hn.
Qed.

Lemma should_rename_true_changes_name_witness :
  should_rename (lit "My File.txt") = true
  /\ contains " " (snd (splitext (lit "My File.txt"))) = false
  /\ contains "_" (snd (splitext (lit "My File.txt"))) = false
  /\ get_new_name (lit "My File.txt") <> lit "My File.txt".
Proof.
  split; [reflexivity|]. split; [reflexivity|]. split; [reflexivity|].
  apply (should_rename_true_changes_name (lit "My File.txt"));
    reflexivity.
Defined.

Lemma cleaned_dot (b : str) :
  exists r, cleaned ("."%char :: b) = "."%char :: r.
Proof.
  exists (lower (re_sub (replace "_" "-" (replace " " "-" b)))).
  reflexivity.
Qed.

(** X3: [get_new_name] keeps a leading dot and never makes one: the new
    name is hidden exactly when the old one is. *)
Theorem get_new_name_keeps_leading_dot (name : str) :
  startswith "." (get_new_name name) = startswith "." name.
Proof.
  destruct name as [|c n]; [reflexivity|].
  destruct (splitext_base_head c n) as [b Hb].
  rewrite get_new_name_split, Hb. cbn [startswith].
  destruct (Ascii.eqb c ".") eqn:Ec.
  - apply Ascii.eqb_eq in Ec. subst c.
    destruct (cleaned_dot b) as [r Hr]. rewrite Hr. reflexivity.
  - destruct (cleaned_head c b Ec) as [d [r [Hc Hd]]]. rewrite Hc.
    cbn [app startswith]. exact Hd.
Qed.

Lemma allowed_lower (c : ascii) :
  in_class c || Ascii.eqb c "-" = true -> allowed (lower_char c) = true.
Proof. each_char c. Qed.

Lemma cleaned_allowed (b : str) : forallb allowed (cleaned b) = true.
Proof.
  unfold cleaned.
  pose proof (tidy_chars _ (proj1 (tidy_re
                (replace "_" "-" (replace " " "-" b))))) as H.
  induction (re_sub (replace "_" "-" (replace " " "-" b))) as [|c s IH];
    [reflexivity|].
  cbn [forallb] in H. apply andb_true_iff in H. destruct H as [Hc Hs].
  cbn [lower map forallb]. rewrite (allowed_lower c Hc). exact (IH Hs).
Qed.

Lemma re_length (s : str) :
  List.length (re_sub s) <= List.length s
  /\ List.length (re_skip s) <= List.length s.
Proof.
  induction s as [|c s [IH1 IH2]]; [split; reflexivity|].
  cbn [re_sub re_skip]. destruct (in_class c); cbn [List.length]; lia.
Qed.

Lemma cleaned_length (b : str) : List.length (cleaned b) <= List.length b.
Proof.
  unfold cleaned, lower, replace. rewrite length_map.
  etransitivity; [apply re_length|]. rewrite !length_map. reflexivity.
Qed.

(** X4: the new name is a cleaned base followed by the old extension in
    lower case; the cleaned base holds only [a-z], [0-9], dots and hyphens
    and is no longer than the old base.  (Names are strings of code points
    below 256, on which [str.lower] works character by character.) *)
Theorem get_new_name_base_alphabet_and_length (name : str) :
  exists base : str,
    get_new_name name = base ++ lower (snd (splitext name))
    /\ forallb allowed base = true
    /\ List.length base <= List.length (fst (splitext name)).
Proof.
  exists (cleaned (fst (splitext name))).
  split; [apply get_new_name_split|].
  split; [apply cleaned_allowed|apply cleaned_length].
Qed.

(* ================================================================= *)
(** ** Hidden paths *)

Lemma basename_after_sep (d n : str) :
  contains "/" n = false -> basename (d ++ "/"%char :: n) = n.
Proof.
  intros Hn. unfold basename. rewrite (rfind_last "/" d n Hn).
  replace (Z.to_nat (Z.of_nat (List.length d) + 1))
    with (List.length (d ++ ["/"%char]))
    by (rewrite length_app; cbn [List.length]; lia).
  replace (d ++ "/"%char :: n) with ((d ++ ["/"%char]) ++ n)
    by (rewrite <- app_assoc; reflexivity).
  rewrite skipn_app, Nat.sub_diag, skipn_all. reflexivity.
Qed.

(** X5: [is_hidden] looks at the last component only: a path below a hidden
    directory is hidden only when its own last name starts with a dot, and a
    path that ends with a separator is never hidden. *)
Theorem is_hidden_last_component (d n : str) :
  contains "/" n = false ->
  is_hidden (d ++ "/"%char :: n) = startswith "." n.
Proof.
  intros Hn. unfold is_hidden. rewrite (basename_after_sep d n Hn).
  reflexivity.
Qed.

Lemma is_hidden_last_component_witness :
  contains "/" (lit "config") = false
  /\ is_hidden (lit "root/.git" ++ "/"%char :: lit "config")
     = startswith "." (lit "config").
Proof.
  split; [reflexivity|].
  apply (is_hidden_last_component (lit "root/.git") (lit "config")).
  reflexivity.
Defined.

(* ================================================================= *)
(** ** The plan *)

(** Where an item of the plan comes from. *)
Lemma in_collect_flat (R : str) (l : list node) (it : item) :
  In it (collect_renames R l) ->
  exists e, In e l /\ skipped R e = false
    /\ ((exists n i sub, e = Dir n i sub
                         /\ In it (collect_renames (join R n) sub))
        \/ (isdir e = false /\ should_rename (name_of e) = true
            /\ it = renamed_to R e)
        \/ (isdir e = true /\ it = renamed_to R e)).
Proof.
  rewrite <- collect_tagged_erase, collect_tagged_flat. intros H.
  apply in_map_iff in H. destruct H as [t [Et H]]. subst it.
  apply in_app_or in H. destruct H as [H|H];
    apply in_flat_map in H; destruct H as [e [He H]]; exists e;
    (split; [exact He|]).
  - unfold gathered in H. destruct (skipped R e) eqn:Es; [destruct H|].
    split; [reflexivity|]. destruct e as [n i|n i|n i sub].
    + right. left. destruct (should_rename (name_of (File n i))) eqn:E;
        [|destruct H]. destruct H as [H|[]]. subst t. auto.
    + right. left. destruct (should_rename (name_of (Link n i))) eqn:E;
        [|destruct H]. destruct H as [H|[]]. subst t. auto.
    + left. exists n, i, sub. split; [reflexivity|].
      rewrite <- collect_tagged_erase. apply in_map. exact H.
  - unfold own_dir_item in H. destruct (skipped R e) eqn:Es; [destruct H|].
    split; [reflexivity|]. cbn [negb andb] in H.
    destruct (isdir e) eqn:Ed; [|destruct H].
    destruct H as [H|[]]. subst t. auto.
Qed.

Lemma collect_flat_below (R : str) (l : list node) (n : str) (i : nat)
  (sub : list node) (it : item) :
  In (Dir n i sub) l -> skipped R (Dir n i sub) = false ->
  In it (collect_renames (join R n) sub) -> In it (collect_renames R l).
Proof.
  intros Hin Hs H. rewrite <- collect_tagged_erase in H |- *.
  apply in_map_iff in H. destruct H as [t [Et Ht]].
  apply in_map_iff. exists t. split; [exact Et|].
  rewrite collect_tagged_flat. apply in_or_app. left.
  apply in_flat_map. exists (Dir n i sub). split; [exact Hin|].
  unfold gathered. rewrite Hs. exact Ht.
Qed.

Lemma collect_flat_dir (R : str) (l : list node) (e : node) :
  In e l -> skipped R e = false -> isdir e = true ->
  In (renamed_to R e) (collect_renames R l).
Proof.
  intros Hin Hs Hd. rewrite <- collect_tagged_erase.
  apply in_map_iff. exists (IsDir, renamed_to R e). split; [reflexivity|].
  rewrite collect_tagged_flat. apply in_or_app. right.
  apply in_flat_map. exists e. split; [exact Hin|].
  unfold own_dir_item. rewrite Hs, Hd. left. reflexivity.
Qed.

Lemma collect_flat_file (R : str) (l : list node) (e : node) :
  In e l -> skipped R e = false -> isdir e = false ->
  should_rename (name_of e) = true ->
  In (renamed_to R e) (collect_renames R l).
Proof.
  intros Hin Hs Hd Hr. rewrite <- collect_tagged_erase.
  apply in_map_iff. exists (IsFile, renamed_to R e). split; [reflexivity|].
  rewrite collect_tagged_flat. apply in_or_app. left.
  apply in_flat_map. exists e. split; [exact Hin|].
  unfold gathered. rewrite Hs.
  destruct e as [n i|n i|n i sub]; [| |discriminate Hd];
    rewrite Hr; left; reflexivity.
Qed.

Lemma plan_old_path_visited (l : list node) :
  forall (R p new : str),
    In (p, new) (collect_renames R l) ->
    exists e, visited R l p e
              /\ (isdir e = true \/ should_rename (name_of e) = true).
Proof.
  induction l as [l IH] using listing_ind. intros R p new H.
  destruct (in_collect_flat R l (p, new) H)
    as [e [He [Hs [[n [i [sub [Ee Hsub]]]]|[[Hd [Hr E]]|[Hd E]]]]]].
  - subst e. destruct (IH n i sub He (join R n) p new Hsub) as [e' [Hv Hk]].
    exists e'. split; [|exact Hk].
    apply visited_below with (n := n) (i := i) (sub := sub); assumption.
  - exists e. unfold renamed_to in E. injection E as Ep _. subst p.
    split; [apply visited_here; assumption|]. auto.
  - exists e. unfold renamed_to in E. injection E as Ep _. subst p.
    split; [apply visited_here; assumption|]. auto.
Qed.

Lemma visited_old_path_planned (R : str) (l : list node) (p : str)
  (e : node) :
  visited R l p e ->
  isdir e = true \/ should_rename (name_of e) = true ->
  exists new, In (p, new) (collect_renames R l).
Proof.
  induction 1 as [R l e Hin Hs|R l n i sub p e Hin Hs Hv IH]; intros Hk.
  - exists (join R (get_new_name (name_of e))).
    destruct (isdir e) eqn:Ed.
    + exact (collect_flat_dir R l e Hin Hs Ed).
    + destruct Hk as [Hk|Hk]; [discriminate Hk|].
      exact (collect_flat_file R l e Hin Hs Ed Hk).
  - destruct (IH Hk) as [new Hnew]. exists new.
    exact (collect_flat_below R l n i sub (p, new) Hin Hs Hnew).
Qed.

(** X6: the old paths of the plan are exactly the paths of the entries the
    walker visits (not hidden, not a link, below directories that are
    neither) that are directories or have a name [should_rename] accepts:
    every visited directory is planned, whatever its name. *)
Theorem plan_old_paths_are_visited_entries (R : str) (l : list node)
  (p : str) :
  (exists new, In (p, new) (collect_renames R l))
  <-> (exists e, visited R l p e
                 /\ (isdir e = true \/ should_rename (name_of e) = true)).
Proof.
  split.
  - intros [new H]. exact (plan_old_path_visited l R p new H).
  - intros [e [Hv Hk]]. exact (visited_old_path_planned R l p e Hv Hk).
Qed.

Lemma basename_join (R n : str) :
  valid_name n = true -> basename (join R n) = n.
Proof.
  intros H. rewrite (join_valid R n H). apply basename_pre.
  apply valid_name_inv in H. tauto.
Qed.

Lemma plan_item_shape (l : list node) :
  forall (R : str) (it : item),
    wf_listing l = true -> In it (collect_renames R l) ->
    exists d n,
      valid_name n = true /\ startswith "." n = false
      /\ it = (join d n, join d (get_new_name n)).
Proof.
  induction l as [l IH] using listing_ind. intros R it Hwf H.
  destruct (in_collect_flat R l it H)
    as [e [He [Hs [[n [i [sub [Ee Hsub]]]]|[[_ [_ E]]|[_ E]]]]]].
  - subst e. destruct (wf_listing_sub _ _ _ _ Hwf He) as [_ Hwsub].
    exact (IH n i sub He (join R n) it Hwsub Hsub).
  - pose proof (wf_node_valid _ (wf_listing_in _ _ Hwf He)) as Hv.
    exists R, (name_of e). split; [exact Hv|]. split; [|exact E].
    unfold skipped in Hs. apply orb_false_iff in Hs. destruct Hs as [Hs _].
    rewrite (is_hidden_join R _ Hv) in Hs. exact Hs.
  - pose proof (wf_node_valid _ (wf_listing_in _ _ Hwf He)) as Hv.
    exists R, (name_of e). split; [exact Hv|]. split; [|exact E].
    unfold skipped in Hs. apply orb_false_iff in Hs. destruct Hs as [Hs _].
    rewrite (is_hidden_join R _ Hv) in Hs. exact Hs.
Qed.

(** X7: in the plan of a well-formed tree every item stays in its
    directory: old and new path are the same directory joined with the old
    name and with [get_new_name] of the old name, and the new name is a
    file name again (not empty, no separator, neither [.] nor [..]) that
    does not start with a dot. *)
Theorem plan_item_stays_in_directory (R : str) (l : list node) (it : item) :
  wf_listing l = true -> In it (collect_renames R l) ->
  exists d : str,
    fst it = join d (basename (fst it))
    /\ snd it = join d (basename (snd it))
    /\ basename (snd it) = get_new_name (basename (fst it))
    /\ valid_name (basename (snd it)) = true
    /\ is_hidden (snd it) = false.
Proof.
  intros Hwf H.
  destruct (plan_item_shape l R it Hwf H) as [d [n [Hv [Hd E]]]].
  subst it. cbn [fst snd].
  destruct (get_new_name_valid n Hv Hd) as [Hg Hh].
  rewrite (basename_join d n Hv), (basename_join d _ Hg).
  exists d. repeat split; auto.
  rewrite (is_hidden_join d _ Hg). exact Hh.
Qed.

Lemma plan_item_stays_in_directory_witness :
  wf_listing a_dir_tree = true
  /\ In (lit "root/A Dir/sub_file.TXT", lit "root/A Dir/sub-file.txt")
        (collect_renames (lit "root") a_dir_tree)
  /\ exists d : str,
      lit "root/A Dir/sub_file.TXT"
      = join d (basename (lit "root/A Dir/sub_file.TXT"))
      /\ lit "root/A Dir/sub-file.txt"
         = join d (basename (lit "root/A Dir/sub-file.txt"))
      /\ basename (lit "root/A Dir/sub-file.txt")
         = get_new_name (basename (lit "root/A Dir/sub_file.TXT"))
      /\ valid_name (basename (lit "root/A Dir/sub-file.txt")) = true
      /\ is_hidden (lit "root/A Dir/sub-file.txt") = false.
Proof.
  assert (H1 : wf_listing a_dir_tree = true) by reflexivity.
  assert (H2 : In (lit "root/A Dir/sub_file.TXT",
                   lit "root/A Dir/sub-file.txt")
                  (collect_renames (lit "root") a_dir_tree))
    by (left; reflexivity).
  split; [exact H1|]. split; [exact H2|].
  exact (plan_item_stays_in_directory (lit "root") a_dir_tree
           (lit "root/A Dir/sub_file.TXT", lit "root/A Dir/sub-file.txt")
           H1 H2).
Defined.

(* ----------------------------------------------------------------- *)
(** No entry is planned twice. *)

Lemma NoDup_append {A : Type} (a b : list A) :
  NoDup a -> NoDup b -> (forall x, In x a -> ~ In x b) -> NoDup (a ++ b).
Proof.
  induction 1 as [|x a Hx Ha IH]; intros Hb Hd; [exact Hb|].
  cbn [app]. constructor.
  - intros Hin. apply in_app_or in Hin. destruct Hin as [Hin|Hin].
    + contradiction.
    + exact (Hd x (or_introl eq_refl) Hin).
  - apply IH; [exact Hb|]. intros y Hy. apply Hd. right. exact Hy.
Qed.

Lemma NoDup_flat_map_apart {A B : Type} (f : A -> list B) (l : list A) :
  NoDup l -> (forall a, In a l -> NoDup (f a)) ->
  (forall a b x, In a l -> In b l -> In x (f a) -> In x (f b) -> a = b) ->
  NoDup (flat_map f l).
Proof.
  induction 1 as [|a l Ha Hl IH]; intros Hf Hd; [constructor|].
  cbn [flat_map]. apply NoDup_append.
  - apply Hf. left. reflexivity.
  - apply IH.
    + intros b Hb. apply Hf. right. exact Hb.
    + intros b c x Hb Hc. apply Hd; right; assumption.
  - intros x Hx Hin. apply in_flat_map in Hin. destruct Hin as [b [Hb Hxb]].
    assert (a = b)
      by (apply (Hd a b x); [left; reflexivity|right; exact Hb| |]; assumption).
    subst b. contradiction.
Qed.

Lemma NoDup_map_in {A B : Type} (f : A -> B) (l : list A) :
  (forall x y, In x l -> In y l -> f x = f y -> x = y) ->
  NoDup l -> NoDup (map f l).
Proof.
  intros Hinj H. induction H as [|a l Ha Hl IH]; cbn [map]; constructor.
  - intros Hin. apply in_map_iff in Hin. destruct Hin as [y [E Hy]].
    assert (y = a)
      by (apply Hinj; [right; exact Hy|left; reflexivity|exact E]).
    subst y. contradiction.
  - apply IH. intros x y Hx Hy. apply Hinj; right; assumption.
Qed.

Lemma wf_NoDup (l : list node) : wf_listing l = true -> NoDup l.
Proof.
  intros Hwf. apply wf_listing_inv in Hwf. destruct Hwf as [Hd _].
  apply distinct_NoDup in Hd. exact (NoDup_map_inv' name_of l Hd).
Qed.

Lemma gathered_fst (e : node) (x : chain) :
  In x (map fst (walk_gathered walk_dir e)) ->
  exists rest, x = name_of e :: rest
               /\ (isdir e = true -> rest <> []).
Proof.
  unfold walk_gathered. destruct (shown e); [|intros []].
  destruct e as [n i|n i|n i sub]; cbn [isdir name_of].
  - destruct (should_rename n); [|intros []]. intros [H|[]]. subst x.
    exists []. split; [reflexivity|discriminate].
  - destruct (should_rename n); [|intros []]. intros [H|[]]. subst x.
    exists []. split; [reflexivity|discriminate].
  - rewrite walk_dir_unfold. intros H. apply in_map_iff in H.
    destruct H as [it [E H]]. apply in_map_iff in H.
    destruct H as [it' [E' H]]. subst it x. cbn [push fst].
    exists (fst it'). split; [reflexivity|]. intros _.
    exact (proj1 (walk_nonempty sub it' H)).
Qed.

Lemma own_fst (e : node) (x : chain) :
  In x (map fst (walk_own e)) -> x = [name_of e] /\ isdir e = true.
Proof.
  unfold walk_own. destruct (shown e); [|intros []]. cbn [andb].
  destruct (isdir e); [|intros []]. intros [H|[]]. subst x. auto.
Qed.

Lemma walk_fst_NoDup (l : list node) :
  wf_listing l = true -> NoDup (map fst (walk l)).
Proof.
  induction l as [l IH] using listing_ind. intros Hwf.
  rewrite walk_flat, map_app, !map_flat_map.
  pose proof (wf_NoDup l Hwf) as Hl.
  apply NoDup_append.
  - apply NoDup_flat_map_apart; [exact Hl| |].
    + intros e He. unfold walk_gathered. destruct (shown e); [|constructor].
      destruct e as [n i|n i|n i sub]; cbn [isdir name_of].
      * destruct (should_rename n); cbn [map]; repeat constructor.
        intros [].
      * destruct (should_rename n); cbn [map]; repeat constructor.
        intros [].
      * rewrite walk_dir_unfold, map_map.
        replace (map (fun x : citem => fst (push n x)) (walk sub))
          with (map (cons n) (map fst (walk sub)))
          by (rewrite map_map; reflexivity).
        apply NoDup_map_in.
        -- intros x y _ _ E. injection E as E. exact E.
        -- apply (IH n i sub He).
           exact (proj2 (wf_listing_sub _ _ _ _ Hwf He)).
    + intros a b x Ha Hb Hxa Hxb.
      destruct (gathered_fst a x Hxa) as [ra [Ea _]].
      destruct (gathered_fst b x Hxb) as [rb [Eb _]].
      apply (wf_same_name l a b Hwf Ha Hb). congruence.
  - apply NoDup_flat_map_apart; [exact Hl| |].
    + intros e He. unfold walk_own. destruct (shown e && isdir e);
        cbn [map]; repeat constructor. intros [].
    + intros a b x Ha Hb Hxa Hxb.
      destruct (own_fst a x Hxa) as [Ea _].
      destruct (own_fst b x Hxb) as [Eb _].
      apply (wf_same_name l a b Hwf Ha Hb). congruence.
  - intros x Hg Ho. apply in_flat_map in Hg. destruct Hg as [a [Ha Hxa]].
    apply in_flat_map in Ho. destruct Ho as [b [Hb Hxb]].
    destruct (gathered_fst a x Hxa) as [ra [Ea Hra]].
    destruct (own_fst b x Hxb) as [Eb Hdb].
    assert (a = b) by (apply (wf_same_name l a b Hwf Ha Hb); congruence).
    subst b. apply (Hra Hdb). congruence.
Qed.

(** X8: in the plan of a well-formed tree the old paths are pairwise
    distinct: no entry is planned twice. *)
Theorem plan_old_paths_distinct (R : str) (l : list node) :
  wf_listing l = true -> NoDup (map fst (collect_renames R l)).
Proof.
  intros Hwf. rewrite (collect_walk R l Hwf), map_map.
  replace (map (fun x : citem => fst (to_paths R x)) (walk l))
    with (map (path R) (map fst (walk l)))
    by (rewrite map_map; reflexivity).
  apply NoDup_map_in; [|exact (walk_fst_NoDup l Hwf)].
  intros x y Hx Hy E.
  apply in_map_iff in Hx. destruct Hx as [cx [Ex Hx]].
  apply in_map_iff in Hy. destruct Hy as [cy [Ey Hy]]. subst x y.
  destruct (walk_fst_valid l cx Hwf Hx) as [Hnx Hvx].
  destruct (walk_fst_valid l cy Hwf Hy) as [Hny Hvy].
  exact (path_inj R _ _ Hnx Hny Hvx Hvy E).
Qed.

Lemma plan_old_paths_distinct_witness :
  wf_listing round_trip_tree = true
  /\ NoDup (map fst (collect_renames (lit "root") round_trip_tree)).
Proof.
  assert (H : wf_listing round_trip_tree = true) by reflexivity.
  split; [exact H|].
  exact (plan_old_paths_distinct (lit "root") round_trip_tree H).
Defined.

(* ----------------------------------------------------------------- *)
(** The empty plan. *)

Lemma collect_renames_nil (R : str) (l : list node) :
  collect_renames R l = [] <-> nothing_planned R l.
Proof.
  unfold nothing_planned. split.
  - intros H e He. destruct (skipped R e) eqn:Es; [left; reflexivity|].
    right. destruct (isdir e) eqn:Ed.
    + pose proof (collect_flat_dir R l e He Es Ed) as Hin.
      rewrite H in Hin. destruct Hin.
    + split; [reflexivity|].
      destruct (should_rename (name_of e)) eqn:Er; [|reflexivity].
      pose proof (collect_flat_file R l e He Es Ed Er) as Hin.
      rewrite H in Hin. destruct Hin.
  - intros H. destruct (collect_renames R l) as [|it rest] eqn:E;
      [reflexivity|]. exfalso.
    assert (Hin : In it (collect_renames R l))
      by (rewrite E; left; reflexivity).
    destruct (in_collect_flat R l it Hin)
      as [e [He [Hs [[n [i [sub [Ee _]]]]|[[Hd [Hr _]]|[Hd _]]]]]];
      destruct (H e He) as [Hk|[Hk1 Hk2]]; try congruence.
    subst e. discriminate Hk1.
Qed.

Lemma rename_all_not_raised (plan : list item) :
  forall (dry_run : bool) (log : list item) (width : nat) (w : world)
         (e : exn),
    fst (rename_all plan dry_run log width w) <> Raises e.
Proof.
  intros [|].
  - intros log width w e. rewrite rename_all_dry. discriminate.
  - induction plan as [|[old new] plan IH]; intros log width w e.
    + discriminate.
    + cbn [rename_all]. unfold bind at 1. rewrite rename_entry_wet.
      destruct (os_rename (mount w) (disk w) old new);
        [apply IH|apply IH|discriminate].
Qed.

Lemma main_raised (args : arguments) (w w' : world) (e : exn) :
  undo_flag args = false ->
  main args w = (Raises e, w') ->
  rename_recursively (directory args) (dry_run_flag args) w = (Raises e, w').
Proof.
  intros Hu H. unfold main in H. rewrite Hu in H. unfold bind in H.
  destruct (rename_recursively (directory args) (dry_run_flag args) w)
    as [[log|e'|] w1]; [discriminate H| |discriminate H].
  injection H as He Hw. subst e' w1. reflexivity.
Qed.

(** X9: [rename_recursively] ends with [ValueError] exactly when every
    entry of the directory is hidden, a link, or a file whose name
    [should_rename] rejects, so that the plan is empty; one visible
    subdirectory is enough to avoid it.  [main] ends with that error, the
    log file not written, in exactly the same case. *)
Theorem value_error_iff_nothing_planned (dry_run : bool) (w : world) :
  (fst (rename_recursively (mount w) dry_run w) = Raises ValueError
   <-> nothing_planned (mount w) (disk w))
  /\ (main (Arguments (mount w) dry_run false) w = (Raises ValueError, w)
      <-> nothing_planned (mount w) (disk w)).
Proof.
  assert (Hrr : fst (rename_recursively (mount w) dry_run w)
                = Raises ValueError
                -> nothing_planned (mount w) (disk w)).
  { intros H. apply collect_renames_nil.
    unfold rename_recursively, bind, listdir in H.
    rewrite str_eqb_refl in H.
    destruct (collect_renames (mount w) (disk w)) as [|it rest];
      [reflexivity|]. exfalso. cbn [map py_max] in H.
    exact (rename_all_not_raised _ _ _ _ _ _ H). }
  split; split.
  - exact Hrr.
  - intros H. apply collect_renames_nil in H.
    rewrite (rename_recursively_empty_plan (mount w) dry_run w eq_refl H).
    reflexivity.
  - intros H. apply Hrr.
    pose proof (main_raised (Arguments (mount w) dry_run false) w w
                  ValueError eq_refl H) as Hm.
    cbn [directory dry_run_flag] in Hm. rewrite Hm. reflexivity.
  - intros H. apply collect_renames_nil in H.
    unfold main. cbn [undo_flag directory dry_run_flag]. unfold bind.
    rewrite (rename_recursively_empty_plan (mount w) dry_run w eq_refl H).
    reflexivity.
Qed.

Lemma pre_trailing_sep (R : str) :
  R <> [] -> endswith "/" R = false -> pre (R ++ ["/"%char]) = pre R.
Proof.
  intros Hne He. unfold pre, join. cbn [startswith orb].
  rewrite He. destruct R as [|a R]; [contradiction|].
  cbn [app].
  replace (endswith "/" (a :: R ++ ["/"%char])) with true.
  - rewrite app_nil_r. reflexivity.
  - unfold endswith. change (a :: R ++ ["/"%char])
      with ((a :: R) ++ ["/"%char]).
    rewrite rev_app_distr. reflexivity.
Qed.

(** X10: a separator at the end of the directory given to the walker does
    not change the plan of a well-formed tree. *)
Theorem plan_ignores_trailing_separator (R : str) (l : list node) :
  wf_listing l = true -> R <> [] -> endswith "/" R = false ->
  collect_renames (R ++ ["/"%char]) l = collect_renames R l.
Proof.
  intros Hwf Hne He. rewrite !(collect_walk _ l Hwf). apply map_ext.
  intros it. unfold to_paths, path. rewrite (pre_trailing_sep R Hne He).
  reflexivity.
Qed.

Lemma plan_ignores_trailing_separator_witness :
  wf_listing a_dir_tree = true
  /\ lit "root" <> []
  /\ endswith "/" (lit "root") = false
  /\ collect_renames (lit "root" ++ ["/"%char]) a_dir_tree
     = collect_renames (lit "root") a_dir_tree.
Proof.
  assert (H1 : wf_listing a_dir_tree = true) by reflexivity.
  assert (H2 : lit "root" <> []) by discriminate.
  assert (H3 : endswith "/" (lit "root") = false) by reflexivity.
  split; [exact H1|]. split; [exact H2|]. split; [exact H3|].
  exact (plan_ignores_trailing_separator (lit "root") a_dir_tree H1 H2 H3).
Defined.

(* ================================================================= *)
(** ** The column of old names *)

Lemma fold_max_spec (l : list nat) :
  forall n : nat,
    In (fold_left Nat.max l n) (n :: l)
    /\ (forall x, In x (n :: l) -> x <= fold_left Nat.max l n).
Proof.
  induction l as [|a l IH]; intros n; cbn [fold_left].
  - split; [left; reflexivity|]. intros x [H|[]]. subst x. apply le_n.
  - destruct (IH (Nat.max n a)) as [Hin Hle]. split.
    + destruct Hin as [Hin|Hin]; [|right; right; exact Hin].
      rewrite <- Hin. destruct (Nat.max_dec n a) as [E|E]; rewrite E.
      * left. reflexivity.
      * right. left. reflexivity.
    + intros x [Hx|[Hx|Hx]].
      * subst x. apply (Nat.le_trans _ (Nat.max n a)).
        -- apply Nat.le_max_l.
        -- apply Hle. left. reflexivity.
      * subst x. apply (Nat.le_trans _ (Nat.max n a)).
        -- apply Nat.le_max_r.
        -- apply Hle. left. reflexivity.
      * apply Hle. right. exact Hx.
Qed.

Lemma py_max_spec (l : list nat) (m : nat) :
  py_max l = Some m -> In m l /\ (forall x, In x l -> x <= m).
Proof.
  destruct l as [|n l]; [discriminate|]. cbn [py_max]. intros H.
  injection H as H. subst m. apply fold_max_spec.
Qed.

Lemma py_max_nonempty (l : list nat) :
  l <> [] -> exists m, py_max l = Some m.
Proof. destruct l as [|n l]; [contradiction|]. cbn [py_max]. eauto. Qed.

Lemma ljust_length (s : str) (width : nat) :
  List.length s <= width -> List.length (ljust s width) = width.
Proof.
  intros H. unfold ljust. rewrite length_app, repeat_length. lia.
Qed.

(** X11: a dry run on a directory with something to rename reports every
    plan item in plan order, with the old name padded to one width: the
    length of the longest old name of the plan, so that no name is cut and
    all padded names are equally long. *)
Theorem dry_run_reports_aligned (w : world) :
  collect_renames (mount w) (disk w) <> [] ->
  exists width : nat,
    rename_recursively (mount w) true w
    = (Returns [],
       World (mount w) (disk w) (log_file w)
             (output w
              ++ map (dry_report width)
                     (collect_renames (mount w) (disk w)))
             (syscalls w))
    /\ (forall it, In it (collect_renames (mount w) (disk w)) ->
                   List.length (ljust (basename (fst it)) width) = width)
    /\ (exists it, In it (collect_renames (mount w) (disk w))
                   /\ List.length (basename (fst it)) = width).
Proof.
  intros Hne.
  destruct (py_max_nonempty
              (map (fun it : item => List.length (basename (fst it)))
                   (collect_renames (mount w) (disk w))))
    as [width E].
  { intros Hm. apply map_eq_nil in Hm. contradiction. }
  exists width. unfold rename_recursively, bind, listdir.
  rewrite str_eqb_refl, E, rename_all_dry. split; [reflexivity|].
  destruct (py_max_spec _ _ E) as [Hin Hle]. split.
  - intros it Hit. apply ljust_length. apply Hle.
    apply (in_map (fun it : item => List.length (basename (fst it)))).
    exact Hit.
  - apply in_map_iff in Hin. destruct Hin as [it [Ei Hit]].
    exists it. auto.
Qed.

Lemma dry_run_reports_aligned_witness :
  collect_renames (mount (fresh_world (lit "root") a_dir_tree))
                  (disk (fresh_world (lit "root") a_dir_tree)) <> []
  /\ exists width : nat,
      rename_recursively (mount (fresh_world (lit "root") a_dir_tree)) true
                         (fresh_world (lit "root") a_dir_tree)
      = (Returns [],
         World (mount (fresh_world (lit "root") a_dir_tree))
               (disk (fresh_world (lit "root") a_dir_tree))
               (log_file (fresh_world (lit "root") a_dir_tree))
               (output (fresh_world (lit "root") a_dir_tree)
                ++ map (dry_report width)
                       (collect_renames
                          (mount (fresh_world (lit "root") a_dir_tree))
                          (disk (fresh_world (lit "root") a_dir_tree))))
               (syscalls (fresh_world (lit "root") a_dir_tree)))
      /\ (forall it,
             In it (collect_renames
                      (mount (fresh_world (lit "root") a_dir_tree))
                      (disk (fresh_world (lit "root") a_dir_tree))) ->
             List.length (ljust (basename (fst it)) width) = width)
      /\ (exists it,
             In it (collect_renames
                      (mount (fresh_world (lit "root") a_dir_tree))
                      (disk (fresh_world (lit "root") a_dir_tree)))
             /\ List.length (basename (fst it)) = width).
Proof.
  assert (H : collect_renames (mount (fresh_world (lit "root") a_dir_tree))
                (disk (fresh_world (lit "root") a_dir_tree)) <> [])
    by (vm_compute; discriminate).
  split; [exact H|].
  exact (dry_run_reports_aligned (fresh_world (lit "root") a_dir_tree) H).
Defined.

(* ================================================================= *)
(** ** The log of a run *)

Lemma rename_all_answers (plan : list item) :
  forall (log : list item) (width : nat) (w : world) (log' : list item)
         (w' : world),
    rename_all plan false log width w = (Returns log', w') ->
    exists bs : list bool,
      answers (mount w) (disk w) plan = Some (bs, disk w')
      /\ log' = log ++ map (fun it : item => (snd it, fst it))
                           (accepted plan bs)
      /\ output w' = output w ++ map (wet_report width) (combine plan bs).
Proof.
  induction plan as [|[old new] plan IH]; intros log width w log' w' H.
  - cbn [rename_all ret] in H. injection H as Hl Hw. subst log' w'.
    exists []. cbn [answers accepted combine filter map].
    rewrite !app_nil_r. auto.
  - cbn [rename_all] in H. unfold bind at 1 in H.
    rewrite rename_entry_wet in H. cbn [answers fst snd].
    destruct (os_rename (mount w) (disk w) old new) as [d| |];
      [| |discriminate H];
      apply IH in H; destruct H as [bs [Ha [El Eo]]];
      cbn [mount disk output] in Ha, Eo; rewrite Ha.
    + exists (true :: bs). split; [reflexivity|].
      unfold accepted in *. cbn [combine filter snd map fst].
      rewrite El, Eo, <- !app_assoc. split; reflexivity.
    + exists (false :: bs). split; [reflexivity|].
      unfold accepted in *. cbn [combine filter snd map fst].
      rewrite El, Eo, <- !app_assoc. split; reflexivity.
Qed.

(** X12: the log a real run returns is made of exactly the plan items that
    [os.rename] accepted, in plan order, each turned round into (new path,
    old path): an item whose rename failed is reported as an error, is not
    logged and does not stop the loop.  Every item is handed to [os.rename]
    once, in plan order, and the tree the run leaves is the one these calls
    lead to. *)
Theorem real_run_logs_what_was_renamed (R : str) (w : world)
  (log : list item) (w' : world) :
  rename_recursively R false w = (Returns log, w') ->
  exists (bs : list bool) (width : nat),
    answers R (disk w) (collect_renames R (disk w)) = Some (bs, disk w')
    /\ log = map (fun it : item => (snd it, fst it))
                 (accepted (collect_renames R (disk w)) bs)
    /\ output w'
       = output w
         ++ map (wet_report width) (combine (collect_renames R (disk w)) bs)
    /\ syscalls w' = syscalls w ++ collect_renames R (disk w).
Proof.
  intros H. unfold rename_recursively, bind, listdir in H.
  destruct (str_eqb R (mount w)) eqn:ER; [|discriminate H].
  apply str_eqb_eq in ER. subst R.
  destruct (py_max _) as [width|]; [|discriminate H].
  destruct (rename_all_answers _ _ _ _ _ _ H) as [bs [Ha [El Eo]]].
  exists bs, width. cbn [app] in El.
  split; [exact Ha|]. split; [exact El|]. split; [exact Eo|].
  exact (proj1 (rename_all_calls _ _ _ _ _ _ H)).
Qed.

Lemma real_run_logs_what_was_renamed_witness :
  rename_recursively (lit "root") false (fresh_world (lit "root") a_dir_tree)
  = (Returns a_dir_log, a_dir_after)
  /\ exists (bs : list bool) (width : nat),
      answers (lit "root") (disk (fresh_world (lit "root") a_dir_tree))
              (collect_renames (lit "root")
                 (disk (fresh_world (lit "root") a_dir_tree)))
      = Some (bs, disk a_dir_after)
      /\ a_dir_log
         = map (fun it : item => (snd it, fst it))
               (accepted (collect_renames (lit "root")
                            (disk (fresh_world (lit "root") a_dir_tree)))
                         bs)
      /\ output a_dir_after
         = output (fresh_world (lit "root") a_dir_tree)
           ++ map (wet_report width)
                  (combine (collect_renames (lit "root")
                              (disk (fresh_world (lit "root") a_dir_tree)))
                           bs)
      /\ syscalls a_dir_after
         = syscalls (fresh_world (lit "root") a_dir_tree)
           ++ collect_renames (lit "root")
                (disk (fresh_world (lit "root") a_dir_tree)).
Proof.
  assert (H : rename_recursively (lit "root") false
                (fresh_world (lit "root") a_dir_tree)
              = (Returns a_dir_log, a_dir_after))
    by (vm_compute; reflexivity).
  split; [exact H|].
  exact (real_run_logs_what_was_renamed (lit "root")
           (fresh_world (lit "root") a_dir_tree) a_dir_log a_dir_after H).
Defined.

(* ================================================================= *)
(** ** The log file *)

(** X13: [main] with [--undo] and no log file reports the missing file,
    then that there is nothing to undo, and ends normally: no call of
    [os.rename], the tree as it was, no log file written. *)
Theorem undo_without_log_file (args : arguments) (w : world) :
  undo_flag args = true -> log_file w = None ->
  main args w
  = (Returns tt,
     World (mount w) (disk w) None
           (output w ++ [ErrorNoLogFile;
                         Info (lit "No rename operations to undo.")])
           (syscalls w)).
Proof.
  intros Hu Hl. unfold main. rewrite Hu.
  unfold bind at 1. unfold load_rename_log. rewrite Hl.
  unfold bind, logging, ret, undo_renames. cbn [map py_max].
  unfold logging. cbn [mount disk log_file output syscalls].
  rewrite Hl, <- app_assoc. reflexivity.
Qed.

Lemma undo_without_log_file_witness :
  undo_flag (Arguments (lit "root") false true) = true
  /\ log_file (fresh_world (lit "root") a_dir_tree) = None
  /\ main (Arguments (lit "root") false true)
          (fresh_world (lit "root") a_dir_tree)
     = (Returns tt,
        World (mount (fresh_world (lit "root") a_dir_tree))
              (disk (fresh_world (lit "root") a_dir_tree)) None
              (output (fresh_world (lit "root") a_dir_tree)
               ++ [ErrorNoLogFile;
                   Info (lit "No rename operations to undo.")])
              (syscalls (fresh_world (lit "root") a_dir_tree))).
Proof.
  split; [reflexivity|]. split; [reflexivity|].
  apply (undo_without_log_file (Arguments (lit "root") false true)
           (fresh_world (lit "root") a_dir_tree)); reflexivity.
Defined.

(** X14: a dry run through [main] on a directory with something to rename
    writes the empty log to the log file, over whatever an earlier run
    saved there, without a call of [os.rename]; [main] with [--undo] after
    it, whatever its other arguments, finds nothing to undo. *)
Theorem dry_run_overwrites_log_file (w : world) :
  collect_renames (mount w) (disk w) <> [] ->
  exists w1 : world,
    main (Arguments (mount w) true false) w = (Returns tt, w1)
    /\ log_file w1 = Some []
    /\ syscalls w1 = syscalls w
    /\ forall (d : str) (b : bool),
         main (Arguments d b true) w1
         = (Returns tt,
            World (mount w1) (disk w1) (Some [])
                  (output w1 ++ [Info (lit "No rename operations to undo.")])
                  (syscalls w1)).
Proof.
  intros Hne.
  destruct (py_max_nonempty
              (map (fun it : item => List.length (basename (fst it)))
                   (collect_renames (mount w) (disk w))))
    as [width E].
  { intros Hm. apply map_eq_nil in Hm. contradiction. }
  unfold main at 1. cbn [undo_flag directory dry_run_flag].
  unfold bind at 1. unfold rename_recursively, bind, listdir.
  rewrite str_eqb_refl, E, rename_all_dry. unfold save_rename_log.
  cbn [mount disk log_file output syscalls].
  eexists. split; [reflexivity|].
  cbn [mount disk log_file output syscalls].
  split; [reflexivity|]. split; [reflexivity|].
  intros d b. reflexivity.
Qed.

Lemma dry_run_overwrites_log_file_witness :
  collect_renames (mount logged_world) (disk logged_world) <> []
  /\ exists w1 : world,
      main (Arguments (mount logged_world) true false) logged_world
      = (Returns tt, w1)
      /\ log_file w1 = Some []
      /\ syscalls w1 = syscalls logged_world
      /\ forall (d : str) (b : bool),
           main (Arguments d b true) w1
           = (Returns tt,
              World (mount w1) (disk w1) (Some [])
                    (output w1
                     ++ [Info (lit "No rename operations to undo.")])
                    (syscalls w1)).
Proof.
  assert (H : collect_renames (mount logged_world) (disk logged_world) <> [])
    by (vm_compute; discriminate).
  split; [exact H|].
  exact (dry_run_overwrites_log_file logged_world H).
Defined.



(* ================================================================= *)
(** ** The round trip when no destination is taken *)

Lemma find_entry (l : list node) (x : node) :
  wf_listing l = true -> In x l -> find (named (name_of x)) l = Some x.
Proof.
  intros Hwf Hx. apply find_named_unique; auto.
  - apply str_eqb_refl.
  - intros e He Hn. apply named_eq in Hn. apply (wf_same_name l); auto.
Qed.

Lemma free_level (l : list node) :
  wf_listing l = true -> free l ->
  forall f y, In f l -> In y l -> planned f = true -> planned y = false ->
              get_new_name (name_of f) <> name_of y.
Proof.
  intros Hwf Hfr f y Hf Hy Pf Py E.
  destruct (Hfr (own_item f) (planned_in_walk l f Hf Pf)) as [H|H];
    cbn [own_item fst snd] in H.
  - injection H as H. assert (f = y)
      by (apply (wf_same_name l); auto; congruence).
    subst y. congruence.
  - rewrite idc_single, E, (find_entry l y Hwf Hy) in H. discriminate H.
Qed.

Lemma free_sub (l : list node) (n : str) (i : nat) (sub : list node) :
  wf_listing l = true -> free l ->
  In (Dir n i sub) l -> shown_dir (Dir n i sub) = true -> free sub.
Proof.
  intros Hwf Hfr Hin Ed it Hit.
  assert (Hp : In (push n it) (walk l)).
  { rewrite walk_flat. apply in_or_app. left. apply in_flat_map.
    exists (Dir n i sub). split; [exact Hin|].
    rewrite (walk_gathered_dir n i sub Ed). apply in_map. exact Hit. }
  destruct (Hfr _ Hp) as [H|H]; cbn [push fst snd] in H.
  - left. injection H as H. exact H.
  - right. rewrite (idc_cons l n _ (proj2 (walk_nonempty sub it Hit))) in H.
    pose proof (find_entry l (Dir n i sub) Hwf Hin) as Hf.
    cbn [name_of] in Hf. rewrite Hf in H. exact H.
Qed.

Lemma tree_clean (l : list node) :
  wf_listing l = true -> NoDup (map snd (walk l)) -> free l ->
  back l = l /\ logs l = map swap (walk l)
  /\ after l = map normalised l.
Proof.
  induction l as [l IH] using listing_ind. intros Hwf Hnd Hfr.
  assert (Hap : forall x z, In x l -> In z l -> planned x = true ->
                  planned z = true ->
                  get_new_name (name_of x) = get_new_name (name_of z) ->
                  x = z) by exact (walk_apart l Hwf Hnd).
  assert (Hsub : forall n i sub, In (Dir n i sub) l ->
                   shown_dir (Dir n i sub) = true -> good sub).
  { intros n i sub Hin Ed. apply tree_good.
    - exact (proj2 (wf_listing_sub _ _ _ _ Hwf Hin)).
    - exact (walk_sub_NoDup l n i sub Hin Ed Hnd). }
  assert (Hfl : forall f y, In f l -> In y l -> planned f = true ->
                  planned y = false ->
                  get_new_name (name_of f) <> name_of y)
    by exact (free_level l Hwf Hfr).
  assert (Hcl : forall n i sub, In (Dir n i sub) l ->
                  shown_dir (Dir n i sub) = true ->
                  back sub = sub /\ logs sub = map swap (walk sub)
                  /\ after sub = map normalised sub).
  { intros n i sub Hin Ed. apply (IH n i sub Hin).
    - exact (proj2 (wf_listing_sub _ _ _ _ Hwf Hin)).
    - exact (walk_sub_NoDup l n i sub Hin Ed Hnd).
    - exact (free_sub l n i sub Hwf Hfr Hin Ed). }
  apply level_clean; assumption.
Qed.

Lemma free_from_paths (R : str) (l : list node) :
  wf_listing l = true ->
  (forall it, In it (collect_renames R l) ->
              fst it = snd it \/ id_at R l (snd it) = None) ->
  free l.
Proof.
  intros Hwf H it Hit.
  destruct (walk_sound l it Hwf Hit) as [[Hn1 Hs1] [Hn2 Hs2]].
  assert (Hin : In (to_paths R it) (collect_renames R l))
    by (rewrite (collect_walk R l Hwf); apply in_map; exact Hit).
  destruct (H _ Hin) as [E|E]; cbn [to_paths fst snd] in E.
  - left. exact (path_inj R _ _ Hn1 Hn2 Hs1 Hs2 E).
  - right. rewrite (id_at_chain R l _ Hn2 Hs2) in E. exact E.
Qed.



(* ================================================================= *)
(** ** Two files with one new name *)

Lemma collide_run (n1 n2 m : str) (i1 i2 : nat) :
  i1 <> i2 ->
  valid_name n1 = true -> valid_name n2 = true -> valid_name m = true ->
  n1 <> n2 -> n1 <> m -> n2 <> m ->
  run [([n1], [m]); ([n2], [m])] [File n1 i1; File n2 i2]
  = Some ([File m i2], [([m], [n1]); ([m], [n2])])
  /\ run [([m], [n2]); ([m], [n1])] [File m i2]
     = Some ([File n2 i2], [([n2], [m])]).
Proof.
  intros Hid V1 V2 Vm H12 H1m H2m.
  assert (Ei : Nat.eqb i2 i1 = false) by (apply Nat.eqb_neq; congruence).
  assert (E12 : str_eqb n1 n2 = false) by (apply str_eqb_neq; exact H12).
  assert (E21 : str_eqb n2 n1 = false) by (apply str_eqb_neq; congruence).
  assert (E1m : str_eqb n1 m = false) by (apply str_eqb_neq; exact H1m).
  assert (Em1 : str_eqb m n1 = false) by (apply str_eqb_neq; congruence).
  assert (E2m : str_eqb n2 m = false) by (apply str_eqb_neq; exact H2m).
  assert (Em2 : str_eqb m n2 = false) by (apply str_eqb_neq; congruence).
  split;
    repeat (progress
              (try unfold rename_within; try unfold named;
               cbn [run rename_path find named name_of map filter negb andb
                    set_name replaceable same_file fst snd];
               rewrite ?V1, ?V2, ?Vm, ?str_eqb_refl, ?E12, ?E21, ?E1m, ?Em1,
                 ?E2m, ?Em2, ?Ei));
    reflexivity.
Qed.

Lemma sound_single (n m : str) :
  valid_name n = true -> valid_name m = true -> sound ([n], [m]).
Proof.
  intros Hn Hm. apply valid_name_inv in Hn, Hm. unfold sound. cbn [fst snd].
  repeat split; try discriminate; repeat constructor; unfold no_sep; tauto.
Qed.

Lemma collide_worlds (R n1 n2 m : str) (i1 i2 : nat) :
  i1 <> i2 ->
  valid_name n1 = true -> valid_name n2 = true -> valid_name m = true ->
  startswith "." n1 = false -> startswith "." n2 = false ->
  should_rename n1 = true -> should_rename n2 = true ->
  get_new_name n1 = m -> get_new_name n2 = m ->
  n1 <> n2 -> n1 <> m -> n2 <> m ->
  exists w1 w2 : world,
    rename_recursively R false (fresh_world R [File n1 i1; File n2 i2])
    = (Returns [(join R m, join R n1); (join R m, join R n2)], w1)
    /\ disk w1 = [File m i2]
    /\ undo_renames [(join R m, join R n1); (join R m, join R n2)] w1
       = (Returns tt, w2)
    /\ disk w2 = [File n2 i2].
Proof.
  intros Hid V1 V2 Vm D1 D2 S1 S2 G1 G2 H12 H1m H2m.
  set (l := [File n1 i1; File n2 i2]).
  assert (E12 : str_eqb n1 n2 = false) by (apply str_eqb_neq; exact H12).
  assert (Hwf : wf_listing l = true).
  { unfold l, wf_listing.
    cbn [map name_of distinct existsb forallb wf_node].
    rewrite V1, V2, E12. reflexivity. }
  assert (Hwalk : walk l = [([n1], [m]); ([n2], [m])]).
  { unfold l, walk, walk_with. cbn [flat_map].
    unfold walk_gathered, walk_own, shown. cbn [name_of islink isdir].
    rewrite D1, D2, S1, S2. cbn [negb andb app]. unfold own_item.
    cbn [name_of]. rewrite G1, G2. reflexivity. }
  destruct (collide_run n1 n2 m i1 i2 Hid V1 V2 Vm H12 H1m H2m)
    as [Hr1 Hr2].
  assert (Hr1' : run (walk l) l
                 = Some ([File m i2], [([m], [n1]); ([m], [n2])]))
    by (rewrite Hwalk; exact Hr1).
  unfold rename_recursively, bind, listdir, fresh_world.
  cbn [mount disk]. rewrite str_eqb_refl. fold l.
  rewrite (collect_walk R l Hwf), Hwalk. cbn [map py_max].
  match goal with
  | |- context [rename_all _ false [] ?wd ?w0] =>
      destruct (rename_all_run R (walk l)
                  (fun it => walk_sound l it Hwf)
                  w0 [] wd [File m i2] [([m], [n1]); ([m], [n2])]
                  eq_refl Hr1')
        as [w1 [H1 [Hd1 [Hm1 _]]]]
  end.
  rewrite Hwalk in H1. cbn [map app] in H1. rewrite H1.
  assert (Hs : forall it, In it [([m], [n1]); ([m], [n2])] -> sound it).
  { intros it [H|[H|[]]]; subst it; apply sound_single; assumption. }
  assert (Hr2' : run (rev [([m], [n1]); ([m], [n2])]) (disk w1)
                 = Some ([File n2 i2], [([n2], [m])]))
    by (rewrite Hd1; exact Hr2).
  destruct (undo_renames_run R [([m], [n1]); ([m], [n2])] Hs w1
              [File n2 i2] [([n2], [m])] Hm1 Hr2')
    as [w2 [H2 Hd2]].
  cbn [map] in H2. unfold to_paths in H2 |- *. cbn [fst snd] in H2 |- *.
  rewrite !(path_single R m Vm), !(path_single R n1 V1),
    !(path_single R n2 V2) in H2 |- *.
  exists w1, w2. auto.
Qed.

(** X17: when a directory holds two files, not two hard links to one file,
    whose names [get_new_name] sends to one and the same new name (a name
    neither of them has), a real run renames both, the second rename
    replacing the first file, so that one file is left; the log holds both
    renames, and its undo brings back the second file only: the first file
    is lost. *)
Theorem same_new_name_loses_a_file (R n1 n2 : str) (i1 i2 : nat) :
  i1 <> i2 ->
  valid_name n1 = true -> valid_name n2 = true ->
  startswith "." n1 = false -> startswith "." n2 = false ->
  should_rename n1 = true -> should_rename n2 = true ->
  n1 <> n2 ->
  get_new_name n2 = get_new_name n1 ->
  get_new_name n1 <> n1 -> get_new_name n1 <> n2 ->
  exists w1 w2 : world,
    rename_recursively R false (fresh_world R [File n1 i1; File n2 i2])
    = (Returns [(join R (get_new_name n1), join R n1);
                (join R (get_new_name n1), join R n2)], w1)
    /\ disk w1 = [File (get_new_name n1) i2]
    /\ undo_renames [(join R (get_new_name n1), join R n1);
                     (join R (get_new_name n1), join R n2)] w1
       = (Returns tt, w2)
    /\ disk w2 = [File n2 i2].
Proof.
  intros Hid V1 V2 D1 D2 S1 S2 H12 G H1 H2.
  apply collide_worlds; auto.
  exact (proj1 (get_new_name_valid n1 V1 D1)).
Qed.

Lemma same_new_name_loses_a_file_witness :
  1 <> 2
  /\ valid_name (lit "My File") = true /\ valid_name (lit "my_file") = true
  /\ startswith "." (lit "My File") = false
  /\ startswith "." (lit "my_file") = false
  /\ should_rename (lit "My File") = true
  /\ should_rename (lit "my_file") = true
  /\ lit "My File" <> lit "my_file"
  /\ get_new_name (lit "my_file") = get_new_name (lit "My File")
  /\ get_new_name (lit "My File") <> lit "My File"
  /\ get_new_name (lit "My File") <> lit "my_file"
  /\ exists w1 w2 : world,
      rename_recursively (lit "root") false
        (fresh_world (lit "root")
                     [File (lit "My File") 1; File (lit "my_file") 2])
      = (Returns [(join (lit "root") (get_new_name (lit "My File")),
                   join (lit "root") (lit "My File"));
                  (join (lit "root") (get_new_name (lit "My File")),
                   join (lit "root") (lit "my_file"))], w1)
      /\ disk w1 = [File (get_new_name (lit "My File")) 2]
      /\ undo_renames [(join (lit "root") (get_new_name (lit "My File")),
                        join (lit "root") (lit "My File"));
                       (join (lit "root") (get_new_name (lit "My File")),
                        join (lit "root") (lit "my_file"))] w1
         = (Returns tt, w2)
      /\ disk w2 = [File (lit "my_file") 2].
Proof.
  assert (H0 : 1 <> 2) by discriminate.
  assert (H1 : valid_name (lit "My File") = true) by reflexivity.
  assert (H2 : valid_name (lit "my_file") = true) by reflexivity.
  assert (H3 : startswith "." (lit "My File") = false) by reflexivity.
  assert (H4 : startswith "." (lit "my_file") = false) by reflexivity.
  assert (H5 : should_rename (lit "My File") = true) by reflexivity.
  assert (H6 : should_rename (lit "my_file") = true) by reflexivity.
  assert (H7 : lit "My File" <> lit "my_file") by discriminate.
  assert (H8 : get_new_name (lit "my_file") = get_new_name (lit "My File"))
    by reflexivity.
  assert (H9 : get_new_name (lit "My File") <> lit "My File")
    by (vm_compute; discriminate).
  assert (H10 : get_new_name (lit "My File") <> lit "my_file")
    by (vm_compute; discriminate).
  repeat (split; [assumption|]).
  exact (same_new_name_loses_a_file (lit "root") (lit "My File")
           (lit "my_file") 1 2 H0 H1 H2 H3 H4 H5 H6 H7 H8 H9 H10).
Defined.
